(** * validate-address: the address normalisation and validation engine

    A shallow embedding of the two engines of the repository:

    - the Go engine (validator.go: [ValidateAndStandardize] and the stages
      [cleanAddress], [parseAddress], [standardizeAddress],
      [validateComponents]), the counting policy;
    - the TypeScript engine (nodejs/src/addressValidator.ts:
      [validateAddress]), the scoring policy.

    Strings are byte strings ([string], a sequence of 8-bit [ascii]): a
    text is held as its UTF-8 encoding.  Go's [len] counts bytes, and so
    does [String.length] here; the TypeScript engine never counts the
    characters of a string, it only asks whether there are any.  White
    space is modelled on the encoding, byte for byte: that of Go's
    [strings.TrimSpace] and [strings.Fields] ([unicode.IsSpace]) and that
    of JavaScript's [trim] and [\s].  The classes [\w], [\d] and [\b] of
    the patterns are ASCII in both runtimes, and so is the folding of
    letters under JavaScript's flag [i].

    Case mapping ([strings.ToUpper], [strings.ToLower],
    [strings.EqualFold], the flag [i] of Go's patterns, JavaScript's
    [toLowerCase] and [toUpperCase]) is the ASCII one: every table and
    every pattern of the repository is ASCII.  In the Go engine
    [cleanAddress] lets nothing but ASCII through (lemma
    [cleanAddress_ascii]), so that nothing else is ever mapped.  The
    TypeScript engine takes its input as it comes: beyond ASCII the
    runtime consults its Unicode tables, which are no part of the
    repository, and the embedding leaves such letters as they are.

    Go maps are iterated in an order that the runtime picks afresh; the
    tables of an [AddressValidator] are association lists in an iteration
    order, and the theorems hold for every order (predicate [tables_of]). *)

From Stdlib Require Import Bool Arith Lia List NArith ZArith.
From Stdlib Require Import Ascii String.
From Stdlib Require Import Permutation.
From Stdlib Require Import Floats.PrimFloat.
From Stdlib Require Import Numbers.Cyclic.Int63.Uint63.
Import ListNotations.

(* A decimal literal denotes the nearest binary64 number, as in JavaScript. *)
Set Warnings "-inexact-float".

Local Open Scope bool_scope.
Local Open Scope string_scope.
Local Open Scope list_scope.

(** ** Characters *)

Module Chars.

Definition code (c : ascii) : N := N_of_ascii c.

Definition in_range (lo hi c : ascii) : bool :=
  (code lo <=? code c)%N && (code c <=? code hi)%N.

Definition is_digit (c : ascii) : bool := in_range "0" "9" c.
Definition is_upper (c : ascii) : bool := in_range "A" "Z" c.
Definition is_lower (c : ascii) : bool := in_range "a" "z" c.
Definition is_letter (c : ascii) : bool := is_upper c || is_lower c.

(** [\w] of Go's regexp and of JavaScript: [[0-9A-Za-z_]]. *)
Definition is_word (c : ascii) : bool :=
  is_digit c || is_letter c || (c =? "_")%char.

Definition is_ascii (c : ascii) : bool := (code c <? 128)%N.

Definition tab : ascii := ascii_of_nat 9.
Definition lf : ascii := ascii_of_nat 10.
Definition vt : ascii := ascii_of_nat 11.
Definition ff : ascii := ascii_of_nat 12.
Definition cr : ascii := ascii_of_nat 13.
Definition sp : ascii := " "%char.

(** [\s] of Go's regexp (RE2): [[\t\n\f\r ]], no vertical tab. *)
Definition re_space (c : ascii) : bool :=
  (c =? tab)%char || (c =? lf)%char || (c =? ff)%char || (c =? cr)%char
  || (c =? sp)%char.

(** The ASCII white space of Go's [unicode.IsSpace] and of JavaScript's
    [\s] and [trim]: [\t \n \v \f \r] and the space. *)
Definition is_space (c : ascii) : bool :=
  (c =? tab)%char || (c =? lf)%char || (c =? vt)%char || (c =? ff)%char
  || (c =? cr)%char || (c =? sp)%char.

Definition to_upper (c : ascii) : ascii :=
  if is_lower c then ascii_of_N (code c - 32) else c.

Definition to_lower (c : ascii) : ascii :=
  if is_upper c then ascii_of_N (code c + 32) else c.

(** Equality under ASCII case folding. *)
Definition eq_fold (a b : ascii) : bool := (to_lower a =? to_lower b)%char.

End Chars.
Import Chars.

(** ** Strings *)

Module Str.

Fixpoint map (f : ascii -> ascii) (s : string) : string :=
  match s with
  | EmptyString => EmptyString
  | String c s' => String (f c) (map f s')
  end.

Fixpoint forallb (p : ascii -> bool) (s : string) : bool :=
  match s with
  | EmptyString => true
  | String c s' => p c && forallb p s'
  end.

Fixpoint filter (p : ascii -> bool) (s : string) : string :=
  match s with
  | EmptyString => EmptyString
  | String c s' => if p c then String c (filter p s') else filter p s'
  end.

Fixpoint rev_append (s acc : string) : string :=
  match s with
  | EmptyString => acc
  | String c s' => rev_append s' (String c acc)
  end.

Definition rev (s : string) : string := rev_append s EmptyString.

Definition is_empty (s : string) : bool :=
  match s with EmptyString => true | _ => false end.

(** The text of [s] in front of its suffix [rest]. *)
Definition taken (s rest : string) : string :=
  substring 0 (String.length s - String.length rest) s.

Definition ToUpper : string -> string := map to_upper.
Definition ToLower : string -> string := map to_lower.

Fixpoint EqualFold (a b : string) : bool :=
  match a, b with
  | EmptyString, EmptyString => true
  | String x a', String y b' => eq_fold x y && EqualFold a' b'
  | _, _ => false
  end.

(** [strings.Join], JavaScript's [join] on strings. *)
Definition Join (parts : list string) (sep : string) : string :=
  String.concat sep parts.

(** The byte [n]. *)
Definition b (n : nat) : ascii := ascii_of_nat n.

(** White space beyond ASCII of [unicode.IsSpace], in UTF-8: U+0085 and
    U+00A0 take two bytes; U+1680, U+2000 to U+200A, U+2028, U+2029,
    U+202F, U+205F and U+3000 take three. *)
Definition space2 (c1 c2 : ascii) : bool :=
  (c1 =? b 194)%char && ((c2 =? b 133)%char || (c2 =? b 160)%char).

Definition space3 (c1 c2 c3 : ascii) : bool :=
  ((c1 =? b 225)%char && (c2 =? b 154)%char && (c3 =? b 128)%char)
  || ((c1 =? b 226)%char && (c2 =? b 128)%char
      && (in_range (b 128) (b 138) c3 || (c3 =? b 168)%char
          || (c3 =? b 169)%char || (c3 =? b 175)%char))
  || ((c1 =? b 226)%char && (c2 =? b 129)%char && (c3 =? b 159)%char)
  || ((c1 =? b 227)%char && (c2 =? b 128)%char && (c3 =? b 128)%char).

(** Trimming white-space runes off the front, the runes of two and of
    three bytes being recognised by [sp2] and [sp3]. *)
Section Trim.

Variable sp2 : ascii -> ascii -> bool.
Variable sp3 : ascii -> ascii -> ascii -> bool.

(** The width in bytes of the white-space rune at the head of [s], 0 when
    there is none. *)
Definition width_front (s : string) : nat :=
  match s with
  | String c1 s1 =>
      if is_space c1 then 1
      else match s1 with
           | String c2 s2 =>
               if sp2 c1 c2 then 2
               else match s2 with
                    | String c3 _ => if sp3 c1 c2 c3 then 3 else 0
                    | EmptyString => 0
                    end
           | EmptyString => 0
           end
  | EmptyString => 0
  end.

Fixpoint trim_front (s : string) : string :=
  match s with
  | String c1 s1 =>
      if is_space c1 then trim_front s1
      else match s1 with
           | String c2 s2 =>
               if sp2 c1 c2 then trim_front s2
               else match s2 with
                    | String c3 s3 =>
                        if sp3 c1 c2 c3 then trim_front s3 else s
                    | EmptyString => s
                    end
           | EmptyString => s
           end
  | EmptyString => s
  end.

End Trim.

(** [strings.TrimLeftFunc s unicode.IsSpace]: runes are decoded from the
    front; a byte that starts no valid encoding is the rune U+FFFD, which
    is no space. *)
Definition TrimLeft : string -> string := trim_front space2 space3.

Definition space_width : string -> nat := width_front space2 space3.

(** The same from the back, on the reversed text: [utf8.DecodeLastRune]
    steps back to the start byte of the last rune, so the last rune is a
    space exactly when the text ends in the encoding of one. *)
Definition space2_rev (c1 c2 : ascii) : bool := space2 c2 c1.
Definition space3_rev (c1 c2 c3 : ascii) : bool := space3 c3 c2 c1.

Definition TrimLeftRev : string -> string := trim_front space2_rev space3_rev.

Definition TrimRight (s : string) : string := rev (TrimLeftRev (rev s)).

(** [strings.TrimSpace]. *)
Definition TrimSpace (s : string) : string := TrimRight (TrimLeft s).

(** [strings.Fields]: the maximal runs of bytes that hold no white space.
    [cur] is the field being read, reversed; [skip] counts the bytes left
    of a white-space rune of several bytes. *)
Definition flush (cur : string) (k : list string) : list string :=
  if is_empty cur then k else rev cur :: k.

Fixpoint fields_go (s : string) (skip : nat) (cur : string) : list string :=
  match s with
  | EmptyString => flush cur []
  | String c1 s1 =>
      match skip with
      | S n => fields_go s1 n cur
      | 0 =>
          match space_width s with
          | 0 => fields_go s1 0 (String c1 cur)
          | S n => flush cur (fields_go s1 n EmptyString)
          end
      end
  end.

Definition Fields (s : string) : list string := fields_go s 0 EmptyString.

End Str.
Import Str.

(** ** Regular expressions

    The patterns of the two engines, as syntax trees, and a backtracking
    matcher for them.  Go's regexp package returns the match a
    backtracking matcher finds first (leftmost, then by the priority of
    the alternatives: a greedy repetition tries the longer match first, a
    lazy one the shorter), and so does JavaScript.  Every repetition in the
    patterns that the matcher is given is over a class of single bytes;
    JavaScript's [\s+], whose characters can take several bytes, is
    written out ([TS.collapse_go]). *)

Module Regex.

Inductive regex : Type :=
| Eps                               (* the empty pattern *)
| Cls (p : ascii -> bool)           (* one character of a class *)
| Seq (r1 r2 : regex)
| Alt (r1 r2 : regex)               (* r1|r2 *)
| Opt (r : regex)                   (* r? *)
| Star (p : ascii -> bool)          (* [p]*, greedy *)
| StarLazy (p : ascii -> bool)      (* [p]*?, lazy *)
| Grp (n : nat) (r : regex)         (* the capturing group number n *)
| Bol                               (* ^ *)
| Eol                               (* $ *)
| Wb.                               (* \b *)

Definition Plus (p : ascii -> bool) : regex := Seq (Cls p) (Star p).
Definition PlusLazy (p : ascii -> bool) : regex := Seq (Cls p) (StarLazy p).

Fixpoint Rep (n : nat) (r : regex) : regex :=
  match n with
  | 0 => Eps
  | S m => Seq r (Rep m r)
  end.

Fixpoint Seqs (rs : list regex) : regex :=
  match rs with
  | [] => Eps
  | r :: rs' => Seq r (Seqs rs')
  end.

Fixpoint Alts (rs : list regex) : regex :=
  match rs with
  | [] => Cls (fun _ => false)
  | [r] => r
  | r :: rs' => Alt r (Alts rs')
  end.

(** A literal character, and the same under the flag [i]. *)
Definition Chr (c : ascii) : regex := Cls (Ascii.eqb c).
Definition ChrI (c : ascii) : regex := Cls (eq_fold c).

Fixpoint LitI (s : string) : regex :=
  match s with
  | EmptyString => Eps
  | String c s' => Seq (ChrI c) (LitI s')
  end.

(** The groups that took part in the match, the latest first. *)
Definition captures : Type := list (nat * string).

Fixpoint group (n : nat) (caps : captures) : option string :=
  match caps with
  | [] => None
  | (m, s) :: caps' => if Nat.eqb n m then Some s else group n caps'
  end.

(** A position in the text: the character in front of it ([None] at the
    beginning of the text) and the text that follows. *)
Definition word_before (prev : option ascii) : bool :=
  match prev with Some c => is_word c | None => false end.

Definition word_after (s : string) : bool :=
  match s with String c _ => is_word c | EmptyString => false end.

Section Matcher.

Context {R : Type}.

Fixpoint star_greedy (p : ascii -> bool) (prev : option ascii) (s : string)
    (k : option ascii -> string -> option R) : option R :=
  match s with
  | String c s' =>
      if p c then
        match star_greedy p (Some c) s' k with
        | Some r => Some r
        | None => k prev s
        end
      else k prev s
  | EmptyString => k prev s
  end.

Fixpoint star_lazy (p : ascii -> bool) (prev : option ascii) (s : string)
    (k : option ascii -> string -> option R) : option R :=
  match k prev s with
  | Some r => Some r
  | None =>
      match s with
      | String c s' => if p c then star_lazy p (Some c) s' k else None
      | EmptyString => None
      end
  end.

(** [rmatch r prev s caps k]: match [r] at the position [(prev, s)] and
    hand the position behind the match to [k]; when [k] fails, the next
    way to match [r] is tried. *)
Fixpoint rmatch (r : regex) (prev : option ascii) (s : string)
    (caps : captures)
    (k : option ascii -> string -> captures -> option R) : option R :=
  match r with
  | Eps => k prev s caps
  | Cls p =>
      match s with
      | String c s' => if p c then k (Some c) s' caps else None
      | EmptyString => None
      end
  | Seq r1 r2 =>
      rmatch r1 prev s caps (fun prev' s' caps' => rmatch r2 prev' s' caps' k)
  | Alt r1 r2 =>
      match rmatch r1 prev s caps k with
      | Some x => Some x
      | None => rmatch r2 prev s caps k
      end
  | Opt r1 =>
      match rmatch r1 prev s caps k with
      | Some x => Some x
      | None => k prev s caps
      end
  | Star p => star_greedy p prev s (fun prev' s' => k prev' s' caps)
  | StarLazy p => star_lazy p prev s (fun prev' s' => k prev' s' caps)
  | Grp n r1 =>
      rmatch r1 prev s caps
        (fun prev' s' caps' => k prev' s' ((n, taken s s') :: caps'))
  | Bol => match prev with None => k prev s caps | Some _ => None end
  | Eol => match s with EmptyString => k prev s caps | _ => None end
  | Wb => if xorb (word_before prev) (word_after s) then k prev s caps
          else None
  end.

End Matcher.

(** The match of [r] that starts at the position [(prev, s)]: the text
    behind the match and the groups. *)
Definition match_here (r : regex) (prev : option ascii) (s : string)
  : option (string * captures) :=
  rmatch r prev s [] (fun _ s' caps => Some (s', caps)).

(** The leftmost match of [r] in [s]. *)
Fixpoint search (r : regex) (prev : option ascii) (s : string)
  : option (string * string * captures) :=
  match match_here r prev s with
  | Some (s', caps) => Some (taken s s', s', caps)
  | None =>
      match s with
      | String c s' => search r (Some c) s'
      | EmptyString => None
      end
  end.

(** [regexp.MatchString], JavaScript's [test]. *)
Definition MatchString (r : regex) (s : string) : bool :=
  match search r None s with Some _ => true | None => false end.

(** [FindStringSubmatch], JavaScript's [match]: the text of the match and
    of the groups [1..n]; a group that took no part is the empty string. *)
Definition submatch (n : nat) (caps : captures) : string :=
  match group n caps with Some s => s | None => EmptyString end.

Definition FindStringSubmatch (r : regex) (ngroups : nat) (s : string)
  : option (list string) :=
  match search r None s with
  | Some (m, _, caps) =>
      Some (m :: List.map (fun n => submatch n caps) (seq 1 ngroups))
  | None => None
  end.

(** [ReplaceAllString], JavaScript's [replace] with the flag [g]: every
    match, from the left and without overlap, is replaced by [repl] of its
    text.  [skip] counts the characters left of the match just replaced.
    None of the patterns below matches the empty string; an empty match
    replaces nothing here. *)
Fixpoint replace_go (r : regex) (repl : string -> string)
    (prev : option ascii) (s : string) (skip : nat) : string :=
  match s with
  | EmptyString => EmptyString
  | String c s1 =>
      match skip with
      | S n => replace_go r repl (Some c) s1 n
      | 0 =>
          match match_here r prev s with
          | Some (s', _) =>
              match String.length s - String.length s' with
              | 0 => String c (replace_go r repl (Some c) s1 0)
              | S n => repl (taken s s') ++ replace_go r repl (Some c) s1 n
              end
          | None => String c (replace_go r repl (Some c) s1 0)
          end
      end
  end.

Definition ReplaceAll (r : regex) (repl : string -> string) (s : string)
  : string := replace_go r repl None s 0.

Definition ReplaceAllString (r : regex) (s repl : string) : string :=
  ReplaceAll r (fun _ => repl) s.

(** JavaScript's [replace] without the flag [g]: the leftmost match only. *)
Definition ReplaceFirst (r : regex) (repl : string -> string) (s : string)
  : string :=
  match search r None s with
  | Some (m, s', _) =>
      substring 0 (String.length s - String.length m - String.length s') s
      ++ repl m ++ s'
  | None => s
  end.

End Regex.
Import Regex.

(** ** Run-time failures

    An index out of range makes Go panic and makes JavaScript read
    [undefined], on which a method call throws.  Code that indexes a slice
    or an array without a guard in the same expression returns an
    [outcome]. *)

Inductive outcome (A : Type) : Type :=
| Ok (a : A)
| Panic (msg : string).

Arguments Ok {A} a.
Arguments Panic {A} msg.

Definition bind {A B : Type} (m : outcome A) (f : A -> outcome B)
  : outcome B :=
  match m with
  | Ok a => f a
  | Panic msg => Panic msg
  end.

Notation "x <- m ;; k" := (bind m (fun x => k))
  (at level 61, m at next level, right associativity).
Notation "' pat <- m ;; k" :=
  (bind m (fun x => match x with pat => k end))
  (at level 61, pat pattern, m at next level, right associativity).

Definition index {A : Type} (l : list A) (i : nat) : outcome A :=
  match nth_error l i with
  | Some a => Ok a
  | None => Panic "index out of range"
  end.

(** [l[:i]] and [l[i:]]; Go panics when [i] exceeds the length. *)
Definition slice_to {A : Type} (l : list A) (i : nat) : outcome (list A) :=
  if (i <=? List.length l)%nat then Ok (firstn i l)
  else Panic "slice bounds out of range".

Definition slice_from {A : Type} (l : list A) (i : nat) : outcome (list A) :=
  if (i <=? List.length l)%nat then Ok (skipn i l)
  else Panic "slice bounds out of range".

(** ** The Go engine: models.go and validator.go *)

Module Go.

(** models.go *)
Record ValidatedAddress : Type := mkValidatedAddress {
  StreetNumber : string;
  StreetName : string;
  Unit : string;
  City : string;
  State : string;
  ZipCode : string;
  ZipPlus4 : string;
  County : string;
  FullAddress : string
}.

Record AddressResponse : Type := mkAddressResponse {
  Status : string;
  OriginalAddress : string;
  Validated : option ValidatedAddress;   (* the pointer ValidatedAddress *)
  Message : string;
  ProcessedAt : Z                          (* the reading of time.Now() *)
}.

Definition StatusValid : string := "valid".
Definition StatusCorrected : string := "corrected".
Definition StatusUnverifiable : string := "unverifiable".

(** The zero value [&ValidatedAddress{}]. *)
Definition emptyAddress : ValidatedAddress :=
  mkValidatedAddress "" "" "" "" "" "" "" "" "".

Definition with_StreetNumber (v : string) (a : ValidatedAddress) :=
  mkValidatedAddress v (StreetName a) (Unit a) (City a) (State a)
    (ZipCode a) (ZipPlus4 a) (County a) (FullAddress a).
Definition with_StreetName (v : string) (a : ValidatedAddress) :=
  mkValidatedAddress (StreetNumber a) v (Unit a) (City a) (State a)
    (ZipCode a) (ZipPlus4 a) (County a) (FullAddress a).
Definition with_City (v : string) (a : ValidatedAddress) :=
  mkValidatedAddress (StreetNumber a) (StreetName a) (Unit a) v (State a)
    (ZipCode a) (ZipPlus4 a) (County a) (FullAddress a).
Definition with_State (v : string) (a : ValidatedAddress) :=
  mkValidatedAddress (StreetNumber a) (StreetName a) (Unit a) (City a) v
    (ZipCode a) (ZipPlus4 a) (County a) (FullAddress a).
Definition with_ZipCode (v : string) (a : ValidatedAddress) :=
  mkValidatedAddress (StreetNumber a) (StreetName a) (Unit a) (City a)
    (State a) v (ZipPlus4 a) (County a) (FullAddress a).
Definition with_FullAddress (v : string) (a : ValidatedAddress) :=
  mkValidatedAddress (StreetNumber a) (StreetName a) (Unit a) (City a)
    (State a) (ZipCode a) (ZipPlus4 a) (County a) v.

(** A Go map from strings to strings, in an iteration order. *)
Definition table : Type := list (string * string).

Fixpoint lookup (m : table) (key : string) : option string :=
  match m with
  | [] => None
  | (k, v) :: m' => if (k =? key)%string then Some v else lookup m' key
  end.

Definition getStateAbbreviations : table :=
  [ ("AL", "Alabama"); ("AK", "Alaska"); ("AZ", "Arizona");
    ("AR", "Arkansas"); ("CA", "California");
    ("CO", "Colorado"); ("CT", "Connecticut"); ("DE", "Delaware");
    ("FL", "Florida"); ("GA", "Georgia");
    ("HI", "Hawaii"); ("ID", "Idaho"); ("IL", "Illinois");
    ("IN", "Indiana"); ("IA", "Iowa");
    ("KS", "Kansas"); ("KY", "Kentucky"); ("LA", "Louisiana");
    ("ME", "Maine"); ("MD", "Maryland");
    ("MA", "Massachusetts"); ("MI", "Michigan"); ("MN", "Minnesota");
    ("MS", "Mississippi"); ("MO", "Missouri");
    ("MT", "Montana"); ("NE", "Nebraska"); ("NV", "Nevada");
    ("NH", "New Hampshire"); ("NJ", "New Jersey");
    ("NM", "New Mexico"); ("NY", "New York"); ("NC", "North Carolina");
    ("ND", "North Dakota"); ("OH", "Ohio");
    ("OK", "Oklahoma"); ("OR", "Oregon"); ("PA", "Pennsylvania");
    ("RI", "Rhode Island"); ("SC", "South Carolina");
    ("SD", "South Dakota"); ("TN", "Tennessee"); ("TX", "Texas");
    ("UT", "Utah"); ("VT", "Vermont");
    ("VA", "Virginia"); ("WA", "Washington"); ("WV", "West Virginia");
    ("WI", "Wisconsin"); ("WY", "Wyoming");
    ("DC", "District of Columbia") ].

Definition getCommonMisspellings : table :=
  [ ("Steet", "Street"); ("Streat", "Street"); ("Streeet", "Street");
    ("Avenu", "Avenue"); ("Aveune", "Avenue"); ("Blvd", "Boulevard");
    ("Rd", "Road"); ("Dr", "Drive"); ("Ct", "Court"); ("Ln", "Lane");
    ("Pl", "Place"); ("Pkwy", "Parkway") ].

Definition getStreetSuffixes : table :=
  [ ("St", "Street"); ("Ave", "Avenue"); ("Blvd", "Boulevard");
    ("Rd", "Road"); ("Dr", "Drive"); ("Ct", "Court"); ("Ln", "Lane");
    ("Pl", "Place"); ("Pkwy", "Parkway"); ("Cir", "Circle");
    ("Way", "Way"); ("Trl", "Trail"); ("Ter", "Terrace") ].

Record AddressValidator : Type := mkAddressValidator {
  stateAbbreviations : table;
  commonMisspellings : table;
  streetSuffixes : table
}.

Definition NewAddressValidator : AddressValidator :=
  mkAddressValidator getStateAbbreviations getCommonMisspellings
    getStreetSuffixes.

(** The validators the program can run with: the three maps of
    [NewAddressValidator], each in some iteration order. *)
Definition tables_of (av : AddressValidator) : Prop :=
  Permutation (stateAbbreviations av) getStateAbbreviations
  /\ Permutation (commonMisspellings av) getCommonMisspellings
  /\ Permutation (streetSuffixes av) getStreetSuffixes.

(** *** cleanAddress *)

(** [\s+] *)
Definition re_spaces : regex := Plus re_space.

(** [[^\w\s\-\.#/,]] *)
Definition allowed (c : ascii) : bool :=
  is_word c || re_space c || (c =? "-")%char || (c =? ".")%char
  || (c =? "#")%char || (c =? "/")%char || (c =? ",")%char.

Definition re_disallowed : regex := Cls (fun c => negb (allowed c)).

Definition cleanAddress (address : string) : string :=
  if (500 <? String.length address)%nat then ""
  else
    let address := TrimSpace address in
    if (address =? "")%string then ""
    else
      let address := ReplaceAllString re_spaces address " " in
      let address := ReplaceAllString re_disallowed address "" in
      if (String.length (TrimSpace address) <? 5)%nat then ""
      else address.

(** *** parseAddress *)

Definition not_comma (c : ascii) : bool := negb (c =? ",")%char.

(** [(apt|apartment|unit|ste|suite|#)] under the flag [i]. *)
Definition re_unit_keyword : regex :=
  Alts [LitI "apt"; LitI "apartment"; LitI "unit"; LitI "ste";
        LitI "suite"; Chr "#"].

(** [(?:-(\d{4}))?$], the group being number [n]. *)
Definition re_zip_tail (n : nat) : regex :=
  Seq (Opt (Seq (Chr "-") (Grp n (Rep 4 (Cls is_digit))))) Eol.

(** [(?i)^(\d+)\s+([^,]+?)(?:\s+(apt|apartment|unit|ste|suite|#)\s*([^,]+?))?\s*,?\s*([^,]+?)\s*,?\s*([a-z]{2})\s+(\d{5})(?:-(\d{4}))?$] *)
Definition re_full : regex :=
  Seqs [ Bol; Grp 1 (Plus is_digit); Plus re_space;
         Grp 2 (PlusLazy not_comma);
         Opt (Seqs [ Plus re_space; Grp 3 re_unit_keyword; Star re_space;
                     Grp 4 (PlusLazy not_comma) ]);
         Star re_space; Opt (Chr ","); Star re_space;
         Grp 5 (PlusLazy not_comma);
         Star re_space; Opt (Chr ","); Star re_space;
         Grp 6 (Rep 2 (Cls is_letter)); Plus re_space;
         Grp 7 (Rep 5 (Cls is_digit)); re_zip_tail 8 ].

(** [(?i)^(\d+)\s+([^,]+?)\s*,?\s*([^,]+?)\s*,?\s*([a-z]{2})\s+(\d{5})(?:-(\d{4}))?$] *)
Definition re_simple : regex :=
  Seqs [ Bol; Grp 1 (Plus is_digit); Plus re_space;
         Grp 2 (PlusLazy not_comma);
         Star re_space; Opt (Chr ","); Star re_space;
         Grp 3 (PlusLazy not_comma);
         Star re_space; Opt (Chr ","); Star re_space;
         Grp 4 (Rep 2 (Cls is_letter)); Plus re_space;
         Grp 5 (Rep 5 (Cls is_digit)); re_zip_tail 6 ].

Definition parseFullAddress (matches : list string)
  : outcome (option ValidatedAddress) :=
  m1 <- index matches 1;; m2 <- index matches 2;; m4 <- index matches 4;;
  m5 <- index matches 5;; m6 <- index matches 6;; m7 <- index matches 7;;
  m8 <- index matches 8;;
  Ok (Some (mkValidatedAddress m1 m2 m4 m5 (ToUpper m6) m7 m8 "" "")).

Definition parseSimpleAddress (matches : list string)
  : outcome (option ValidatedAddress) :=
  m1 <- index matches 1;; m2 <- index matches 2;; m3 <- index matches 3;;
  m4 <- index matches 4;; m5 <- index matches 5;; m6 <- index matches 6;;
  Ok (Some (mkValidatedAddress m1 m2 "" m3 (ToUpper m4) m5 m6 "" "")).

(** [^\d{5}(-\d{4})?$] *)
Definition re_zip : regex :=
  Seqs [ Bol; Rep 5 (Cls is_digit);
         Opt (Grp 1 (Seq (Chr "-") (Rep 4 (Cls is_digit)))); Eol ].

Definition isZipCode (s : string) : bool := MatchString re_zip s.

Definition isValidZipCode (zipCode : string) : bool := isZipCode zipCode.

Definition has_key (m : table) (key : string) : bool :=
  match lookup m key with Some _ => true | None => false end.

Definition isState (av : AddressValidator) (s : string) : bool :=
  let s := ToUpper (TrimSpace s) in
  if has_key (stateAbbreviations av) s then true
  else existsb (fun '(_, fullName) => EqualFold s fullName)
         (stateAbbreviations av).

Definition isValidState (av : AddressValidator) (state : string) : bool :=
  has_key (stateAbbreviations av) (ToUpper state).

(** [^\d+] *)
Definition re_leading_digits : regex := Seq Bol (Plus is_digit).

(** The first loop of [parsePartialAddress]: [for i, part := range parts].
    [rest] holds the parts from index [i] on. *)
Fixpoint state_loop (av : AddressValidator) (parts : list string) (i : nat)
    (rest : list string) (result : ValidatedAddress)
  : outcome ValidatedAddress :=
  match rest with
  | [] => Ok result
  | part :: rest' =>
      if isState av part then
        let result := with_State (ToUpper part) result in
        result <- (if (0 <? i)%nat
                   then (before <- slice_to parts i;;
                         Ok (with_City (Join before " ") result))
                   else Ok result);;
        (if (i <? List.length parts - 1)%nat
         then (next <- index parts (i + 1);;
               Ok (if isZipCode next then with_ZipCode next result
                   else result))
         else Ok result)
      else state_loop av parts (S i) rest' result
  end.

(** The second loop: [for i := len(parts) - 1; i >= 0; i--], with
    [n = i + 1]. *)
Fixpoint zip_loop (av : AddressValidator) (parts : list string) (n : nat)
    (result : ValidatedAddress) : outcome ValidatedAddress :=
  match n with
  | 0 => Ok result
  | S i =>
      part <- index parts i;;
      if isZipCode part then
        let result := with_ZipCode part result in
        if (0 <? i)%nat then
          prev <- index parts (i - 1);;
          if isState av prev then
            let result := with_State (ToUpper prev) result in
            if (1 <? i)%nat then
              before <- slice_to parts (i - 1);;
              Ok (with_City (Join before " ") result)
            else Ok result
          else Ok result
        else Ok result
      else zip_loop av parts i result
  end.

Definition parsePartialAddress (av : AddressValidator) (address : string)
  : outcome (option ValidatedAddress) :=
  let parts := Fields address in
  if (List.length parts <? 2)%nat then Ok None
  else
    let result := emptyAddress in
    first <- index parts 0;;
    '(result, parts) <-
      (if MatchString re_leading_digits first
       then (tail <- slice_from parts 1;;
             Ok (with_StreetNumber first result, tail))
       else Ok (result, parts));;
    result <- state_loop av parts 0 parts result;;
    result <-
      (if negb (StreetNumber result =? "")%string
          && (State result =? "")%string
       then zip_loop av parts (List.length parts) result
       else Ok result);;
    Ok (Some
      (if negb (StreetNumber result =? "")%string
          && (City result =? "")%string && (State result =? "")%string
       then with_StreetName (Join parts " ") result
       else result)).

(** The patterns are tried in order; the first that matches parses. *)
Definition parseAddress (av : AddressValidator) (address : string)
  : outcome (option ValidatedAddress) :=
  match FindStringSubmatch re_full 8 address with
  | Some matches => parseFullAddress matches
  | None =>
      match FindStringSubmatch re_simple 6 address with
      | Some matches => parseSimpleAddress matches
      | None => parsePartialAddress av address
      end
  end.

(** *** standardizeAddress *)

Definition toTitleCase (s : string) : string :=
  let words := Fields (ToLower s) in
  Join (List.map (fun word =>
          match word with
          | String c rest => String (to_upper c) rest
          | EmptyString => word
          end) words) " ".

(** [(?i)\b] followed by [regexp.QuoteMeta(key)] and [\b]. *)
Definition re_word (key : string) : regex := Seqs [Wb; LitI key; Wb].

Definition replace_words (m : table) (s : string) : string :=
  fold_left (fun s '(key, full) => ReplaceAllString (re_word key) s full)
    m s.

Definition standardizeStreetName (av : AddressValidator)
    (streetName : string) : string :=
  let streetName := TrimSpace streetName in
  let streetName := toTitleCase streetName in
  let streetName := replace_words (streetSuffixes av) streetName in
  replace_words (commonMisspellings av) streetName.

Definition standardizeCity (city : string) : string :=
  toTitleCase (TrimSpace city).

Definition standardizeState (av : AddressValidator) (state : string)
  : string :=
  let state := TrimSpace (ToUpper state) in
  if has_key (stateAbbreviations av) state then state
  else
    match find (fun '(_, fullName) => EqualFold state fullName)
            (stateAbbreviations av) with
    | Some (abbrev, _) => abbrev
    | None => state
    end.

Definition buildFullAddress (addr : ValidatedAddress) : string :=
  let parts : list string := [] in
  let parts :=
    if negb (StreetNumber addr =? "")%string
       && negb (StreetName addr =? "")%string
    then
      let streetPart := (StreetNumber addr ++ " " ++ StreetName addr)%string in
      let streetPart :=
        if negb (Unit addr =? "")%string
        then (streetPart ++ " " ++ Unit addr)%string else streetPart in
      parts ++ [streetPart]
    else parts in
  let parts :=
    if negb (City addr =? "")%string then parts ++ [City addr]
    else parts in
  let parts :=
    if negb (State addr =? "")%string then
      let statePart := State addr in
      let statePart :=
        if negb (ZipCode addr =? "")%string then
          let statePart := (statePart ++ " " ++ ZipCode addr)%string in
          if negb (ZipPlus4 addr =? "")%string
          then (statePart ++ "-" ++ ZipPlus4 addr)%string else statePart
        else statePart in
      parts ++ [statePart]
    else parts in
  Join parts ", ".

Definition standardizeAddress (av : AddressValidator)
    (addr : option ValidatedAddress) : option ValidatedAddress :=
  match addr with
  | None => None
  | Some addr =>
      let addr :=
        if negb (StreetName addr =? "")%string
        then with_StreetName (standardizeStreetName av (StreetName addr)) addr
        else addr in
      let addr :=
        if negb (City addr =? "")%string
        then with_City (standardizeCity (City addr)) addr else addr in
      let addr :=
        if negb (State addr =? "")%string
        then with_State (standardizeState av (State addr)) addr else addr in
      Some (with_FullAddress (buildFullAddress addr) addr)
  end.

(** *** validateComponents *)

Record validationResult : Type := mkValidationResult {
  status : string;
  message : string
}.

Definition missing_components (av : AddressValidator)
    (addr : ValidatedAddress) : list string :=
  let missingComponents : list string := [] in
  let missingComponents :=
    if (StreetNumber addr =? "")%string
    then missingComponents ++ ["street number"] else missingComponents in
  let missingComponents :=
    if (StreetName addr =? "")%string
    then missingComponents ++ ["street name"] else missingComponents in
  let missingComponents :=
    if (City addr =? "")%string
    then missingComponents ++ ["city"] else missingComponents in
  let missingComponents :=
    if (State addr =? "")%string
    then missingComponents ++ ["state"]
    else if negb (isValidState av (State addr))
    then missingComponents ++ ["valid state"] else missingComponents in
  if (ZipCode addr =? "")%string
  then missingComponents ++ ["ZIP code"]
  else if negb (isValidZipCode (ZipCode addr))
  then missingComponents ++ ["valid ZIP code"] else missingComponents.

Definition validateComponents (av : AddressValidator)
    (addr : option ValidatedAddress) : validationResult :=
  match addr with
  | None => mkValidationResult StatusUnverifiable "Unable to parse address"
  | Some addr =>
      let missingComponents := missing_components av addr in
      let correctedComponents : list string := [] in
      if (2 <? List.length missingComponents)%nat then
        mkValidationResult StatusUnverifiable
          ("Missing critical components: " ++ Join missingComponents ", ")%string
      else if (0 <? List.length missingComponents)%nat then
        mkValidationResult StatusCorrected
          ("Address standardized but missing: "
           ++ Join missingComponents ", ")%string
      else if (0 <? List.length correctedComponents)%nat then
        mkValidationResult StatusCorrected
          ("Address standardized with corrections: "
           ++ Join correctedComponents ", ")%string
      else mkValidationResult StatusValid "Address is valid and standardized"
  end.

(** *** ValidateAndStandardize

    The stages behind the parser are arguments of [pipeline], so that a
    statement can say which of them a result depends on. *)

Definition set_Status (v : string) (r : AddressResponse) : AddressResponse :=
  mkAddressResponse v (OriginalAddress r) (Validated r) (Message r)
    (ProcessedAt r).
Definition set_Message (v : string) (r : AddressResponse) : AddressResponse :=
  mkAddressResponse (Status r) (OriginalAddress r) (Validated r) v
    (ProcessedAt r).
Definition set_Validated (v : option ValidatedAddress) (r : AddressResponse)
  : AddressResponse :=
  mkAddressResponse (Status r) (OriginalAddress r) v (Message r)
    (ProcessedAt r).

Definition pipeline
    (standardize : AddressValidator -> option ValidatedAddress
                   -> option ValidatedAddress)
    (validate : AddressValidator -> option ValidatedAddress
                -> validationResult)
    (now : Z) (av : AddressValidator) (address : string)
  : outcome (AddressResponse * option string) :=
  let response := mkAddressResponse "" address None "" now in
  let cleanedAddress := cleanAddress address in
  if (cleanedAddress =? "")%string then
    let response := set_Status StatusUnverifiable response in
    let response :=
      set_Message "Address is empty or contains only invalid characters"
        response in
    Ok (response, None)
  else
    parsedAddress <- parseAddress av cleanedAddress;;
    match parsedAddress with
    | None =>
        let response := set_Status StatusUnverifiable response in
        let response :=
          set_Message "Unable to parse address components" response in
        Ok (response, None)
    | Some _ =>
        let standardizedAddress := standardize av parsedAddress in
        let validationResult := validate av standardizedAddress in
        let response := set_Validated standardizedAddress response in
        let response := set_Status (status validationResult) response in
        let response := set_Message (message validationResult) response in
        Ok (response, None)
    end.

Definition ValidateAndStandardize
  : Z -> AddressValidator -> string
    -> outcome (AddressResponse * option string) :=
  pipeline standardizeAddress validateComponents.

End Go.

(** ** The TypeScript engine: types.ts and addressValidator.ts *)

Module TS.

(** *** Values

    A table of the engine is an object literal, and [table[key]] also
    finds what the object inherits from [Object.prototype]: its built-in
    methods and, under [__proto__], the prototype itself.  Such a value is
    truthy and is no string. *)
Inductive value : Type :=
| VStr (s : string)
| VNative (name : string)     (* a built-in function, by its name *)
| VObjectPrototype.

Definition truthy (v : value) : bool :=
  match v with
  | VStr s => negb (is_empty s)
  | _ => true
  end.

(** [String(v)], as in a template literal and in [join] (Node.js). *)
Definition to_string (v : value) : string :=
  match v with
  | VStr s => s
  | VNative name => "function " ++ name ++ "() { [native code] }"
  | VObjectPrototype => "[object Object]"
  end.

Definition object_prototype : list (string * value) :=
  [ ("constructor", VNative "Object");
    ("__defineGetter__", VNative "__defineGetter__");
    ("__defineSetter__", VNative "__defineSetter__");
    ("hasOwnProperty", VNative "hasOwnProperty");
    ("__lookupGetter__", VNative "__lookupGetter__");
    ("__lookupSetter__", VNative "__lookupSetter__");
    ("isPrototypeOf", VNative "isPrototypeOf");
    ("propertyIsEnumerable", VNative "propertyIsEnumerable");
    ("toString", VNative "toString");
    ("valueOf", VNative "valueOf");
    ("__proto__", VObjectPrototype);
    ("toLocaleString", VNative "toLocaleString") ].

Definition record : Type := list (string * string).

Fixpoint assoc {V : Type} (m : list (string * V)) (key : string)
  : option V :=
  match m with
  | [] => None
  | (k, v) :: m' => if (k =? key)%string then Some v else assoc m' key
  end.

(** [table[key]]; [None] is [undefined]. *)
Definition get (m : record) (key : string) : option value :=
  match assoc m key with
  | Some s => Some (VStr s)
  | None => assoc object_prototype key
  end.

Definition get_truthy (m : record) (key : string) : option value :=
  match get m key with
  | Some v => if truthy v then Some v else None
  | None => None
  end.

Definition keys (m : record) : list string := List.map fst m.
Definition values (m : record) : list string := List.map snd m.

(** [Array.prototype.includes] on strings. *)
Definition includes (l : list string) (s : string) : bool :=
  existsb (String.eqb s) l.

(** *** types.ts *)

Record ValidatedAddress : Type := mkValidatedAddress {
  streetNumber : option string;
  streetName : option string;
  city : option string;
  state : option value;
  zipCode : option string;
  formatted : string
}.

Record AddressValidationResult : Type := mkResult {
  status : string;                       (* ValidationStatus *)
  confidence : float;
  original : string;
  validated : option ValidatedAddress;
  corrections : option (list string)
}.

(** *** addressValidator.ts *)

Definition stateAbbreviations : record :=
  [ ("alabama", "AL"); ("alaska", "AK"); ("arizona", "AZ");
    ("arkansas", "AR"); ("california", "CA");
    ("colorado", "CO"); ("connecticut", "CT"); ("delaware", "DE");
    ("florida", "FL"); ("georgia", "GA");
    ("hawaii", "HI"); ("idaho", "ID"); ("illinois", "IL");
    ("indiana", "IN"); ("iowa", "IA");
    ("kansas", "KS"); ("kentucky", "KY"); ("louisiana", "LA");
    ("maine", "ME"); ("maryland", "MD");
    ("massachusetts", "MA"); ("michigan", "MI"); ("minnesota", "MN");
    ("mississippi", "MS"); ("missouri", "MO");
    ("montana", "MT"); ("nebraska", "NE"); ("nevada", "NV");
    ("new hampshire", "NH"); ("new jersey", "NJ");
    ("new mexico", "NM"); ("new york", "NY"); ("north carolina", "NC");
    ("north dakota", "ND"); ("ohio", "OH");
    ("oklahoma", "OK"); ("oregon", "OR"); ("pennsylvania", "PA");
    ("rhode island", "RI"); ("south carolina", "SC");
    ("south dakota", "SD"); ("tennessee", "TN"); ("texas", "TX");
    ("utah", "UT"); ("vermont", "VT");
    ("virginia", "VA"); ("washington", "WA"); ("west virginia", "WV");
    ("wisconsin", "WI"); ("wyoming", "WY");
    ("district of columbia", "DC") ].

Definition streetAbbreviations : record :=
  [ ("st", "Street"); ("ave", "Avenue"); ("blvd", "Boulevard");
    ("dr", "Drive"); ("rd", "Road");
    ("ct", "Court"); ("cir", "Circle"); ("ln", "Lane"); ("way", "Way");
    ("pl", "Place");
    ("pkwy", "Parkway"); ("ter", "Terrace"); ("sq", "Square");
    ("hwy", "Highway") ].

Definition directions : record :=
  [ ("n", "North"); ("s", "South"); ("e", "East"); ("w", "West");
    ("ne", "Northeast"); ("nw", "Northwest"); ("se", "Southeast");
    ("sw", "Southwest") ].

Definition toLowerCase : string -> string := ToLower.
Definition toUpperCase : string -> string := ToUpper.

(** White space of JavaScript ([\s] and [trim]: WhiteSpace and
    LineTerminator) beyond ASCII, in UTF-8: U+00A0 takes two bytes;
    U+1680, U+2000 to U+200A, U+2028, U+2029, U+202F, U+205F, U+3000 and
    U+FEFF take three.  U+0085, a space for Go, is none here. *)
Definition white2 (c1 c2 : ascii) : bool :=
  (c1 =? b 194)%char && (c2 =? b 160)%char.

Definition white3 (c1 c2 c3 : ascii) : bool :=
  space3 c1 c2 c3
  || ((c1 =? b 239)%char && (c2 =? b 187)%char && (c3 =? b 191)%char).

(** The width in bytes of the white-space character at the head of [s],
    0 when there is none. *)
Definition white_width : string -> nat := width_front white2 white3.

Definition white2_rev (c1 c2 : ascii) : bool := white2 c2 c1.
Definition white3_rev (c1 c2 c3 : ascii) : bool := white3 c3 c2 c1.

Definition trim_start : string -> string := trim_front white2 white3.

Definition trim (s : string) : string :=
  rev (trim_front white2_rev white3_rev (rev (trim_start s))).

(** [s.split(' ')]: the pieces between the spaces, at least one. *)
Fixpoint split_go (s : string) (cur : string) : list string :=
  match s with
  | EmptyString => [rev cur]
  | String c s' =>
      if (c =? " ")%char then rev cur :: split_go s' EmptyString
      else split_go s' (String c cur)
  end.

Definition split (s : string) : list string := split_go s EmptyString.

(** [/[,\.]/g] *)
Definition re_comma_dot : regex :=
  Cls (fun c => (c =? ",")%char || (c =? ".")%char).

(** [s.replace(/\s+/g, ' ')]: every maximal run of white-space characters
    becomes one space.  A white-space character can take several bytes,
    which a character class of the matcher cannot hold, so the replacement
    is written out: [skip] counts the bytes left of the white-space
    character being read, and [run] tells whether the character in front
    of it was white space too. *)
Fixpoint collapse_go (s : string) (skip : nat) (run : bool) : string :=
  match s with
  | EmptyString => EmptyString
  | String c s1 =>
      match skip with
      | S n => collapse_go s1 n run
      | 0 =>
          match white_width s with
          | 0 => String c (collapse_go s1 0 false)
          | S n =>
              if run then collapse_go s1 n true
              else String " " (collapse_go s1 n true)
          end
      end
  end.

Definition collapse_spaces (s : string) : string := collapse_go s 0 false.

Definition normalizeAddress (address : string) : string :=
  collapse_spaces
    (ReplaceAll re_comma_dot (fun _ => " ") (trim (toLowerCase address))).

(** [parts.splice(i, 1)] *)
Definition splice1 {A : Type} (l : list A) (i : nat) : list A :=
  firstn i l ++ skipn (S i) l.

(** [/\b(\d{5}(?:-\d{4})?)\b/] *)
Definition zipPattern : regex :=
  Seqs [ Wb;
         Grp 1 (Seq (Rep 5 (Cls is_digit))
                  (Opt (Seq (Chr "-") (Rep 4 (Cls is_digit)))));
         Wb ].

(** The loops [for (let i = parts.length - 1; i >= 0; i--)], with
    [n = i + 1]; the array that [splice] changed is returned. *)
Fixpoint extractZipCode_loop (parts : list string) (n : nat)
  : outcome (option string * list string) :=
  match n with
  | 0 => Ok (None, parts)
  | S i =>
      part <- index parts i;;
      match search zipPattern None part with
      | Some (_, _, caps) => Ok (Some (submatch 1 caps), splice1 parts i)
      | None => extractZipCode_loop parts i
      end
  end.

Definition extractZipCode (parts : list string)
  : outcome (option string * list string) :=
  extractZipCode_loop parts (List.length parts).

Definition or_else (a : option value) (b : value) : value :=
  match a with
  | Some v => if truthy v then v else b
  | None => b
  end.

Fixpoint extractState_loop (parts : list string) (n : nat)
  : outcome (option value * list string) :=
  match n with
  | 0 => Ok (None, parts)
  | S i =>
      p <- index parts i;;
      let part := toLowerCase p in
      if match get_truthy stateAbbreviations part with
         | Some _ => true
         | None => includes (values stateAbbreviations) (toUpperCase part)
         end
      then Ok (Some (or_else (get stateAbbreviations part)
                       (VStr (toUpperCase part))),
               splice1 parts i)
      else extractState_loop parts i
  end.

Definition extractState (parts : list string)
  : outcome (option value * list string) :=
  extractState_loop parts (List.length parts).

(** [/^\d+[A-Za-z]?$/] and [/([a-z])$/] *)
Definition numberPattern : regex :=
  Seqs [Bol; Plus is_digit; Opt (Cls is_letter); Eol].
Definition re_last_lower : regex := Seq (Grp 1 (Cls is_lower)) Eol.

(** [x || null] on a string that may be [undefined]. *)
Definition or_null (x : option string) : option string :=
  match x with
  | Some s => if is_empty s then None else Some s
  | None => None
  end.

Definition extractStreetNumber (parts : list string)
  : outcome (option string * list string) :=
  match parts with
  | first :: rest =>
      if MatchString numberPattern first then
        (* parts.shift() *)
        match or_null (Some first) with
        | Some number =>
            Ok (Some (ReplaceFirst re_last_lower toUpperCase number), rest)
        | None => Ok (None, rest)
        end
      else Ok (None, parts)
  | [] => Ok (None, parts)
  end.

(** [words[i] = v] followed by [words.join(' ')]: a word is kept as the
    value it is until it is joined. *)
Definition join_values (words : list value) (sep : string) : string :=
  Join (List.map to_string words) sep.

Fixpoint set_nth {A : Type} (l : list A) (i : nat) (v : A) : list A :=
  match l, i with
  | [], _ => []
  | _ :: l', 0 => v :: l'
  | x :: l', S j => x :: set_nth l' j v
  end.

Definition expandStreetType (streetName : string)
  : outcome (string * bool) :=
  let words := split streetName in
  w <- index words (List.length words - 1);;
  let lastWord := toLowerCase w in
  match get_truthy streetAbbreviations lastWord with
  | Some v =>
      let words := set_nth (List.map VStr words) (List.length words - 1) v in
      Ok (join_values words " ", true)
  | None => Ok (streetName, false)
  end.

Fixpoint expandDirections_loop (words : list string)
  : list value * bool :=
  match words with
  | [] => ([], false)
  | w :: words' =>
      let '(rest, corrected) := expandDirections_loop words' in
      match get_truthy directions (toLowerCase w) with
      | Some v => (v :: rest, true)
      | None => (VStr w :: rest, corrected)
      end
  end.

Definition expandDirections (streetName : string) : string * bool :=
  let '(words, corrected) := expandDirections_loop (split streetName) in
  (join_values words " ", corrected).


(** *** Numbers: IEEE 754 binary64, as JavaScript has them *)

Definition number_of_nat (n : nat) : float :=
  PrimFloat.of_uint63 (Uint63.of_Z (Z.of_nat n)).

Definition Math_max (a b : float) : float :=
  if PrimFloat.is_nan a || PrimFloat.is_nan b then PrimFloat.nan
  else if PrimFloat.ltb a b then b else a.

Definition Math_min (a b : float) : float :=
  if PrimFloat.is_nan a || PrimFloat.is_nan b then PrimFloat.nan
  else if PrimFloat.ltb b a then b else a.

(** [Math.floor] and [Math.round] for [0 <= x < 2^51], where adding and
    taking away [2^52] rounds to an integer; the confidence times 100 lies
    between 10 and 100.  [Math.round] takes a half upwards. *)
Definition two52 : float := 4503599627370496%float.

Definition Math_floor (x : float) : float :=
  let r := PrimFloat.sub (PrimFloat.add x two52) two52 in
  if PrimFloat.ltb x r then PrimFloat.sub r 1%float else r.

Definition Math_round (x : float) : float :=
  let f := Math_floor x in
  if PrimFloat.leb 0.5%float (PrimFloat.sub x f)
  then PrimFloat.add f 1%float else f.

(** [!x] on a string or [null], and on a value or [null]. *)
Definition absent (x : option string) : bool :=
  match x with
  | Some s => is_empty s
  | None => true
  end.

Definition absent_value (x : option value) : bool :=
  match x with
  | Some v => negb (truthy v)
  | None => true
  end.

Definition calculateConfidence (parsed : ValidatedAddress)
    (corrections : list string) : float :=
  let confidence := 0.9%float in
  let confidence :=
    if absent (streetNumber parsed)
    then PrimFloat.sub confidence 0.2%float else confidence in
  let confidence :=
    if absent (streetName parsed)
    then PrimFloat.sub confidence 0.3%float else confidence in
  let confidence :=
    if absent (city parsed)
    then PrimFloat.sub confidence 0.2%float else confidence in
  let confidence :=
    if absent_value (state parsed)
    then PrimFloat.sub confidence 0.2%float else confidence in
  let confidence :=
    if absent (zipCode parsed)
    then PrimFloat.sub confidence 0.1%float else confidence in
  let confidence :=
    PrimFloat.sub confidence
      (PrimFloat.mul (number_of_nat (List.length corrections)) 0.05%float) in
  Math_max 0.1%float (Math_min 1.0%float confidence).

(** [/\b(street|st|avenue|ave|road|rd|drive|dr|lane|ln|way|court|ct|circle|cir|boulevard|blvd|place|pl)\b/i] *)
Definition streetIndicators : regex :=
  Seqs [ Wb;
         Grp 1 (Alts (List.map LitI
           [ "street"; "st"; "avenue"; "ave"; "road"; "rd"; "drive"; "dr";
             "lane"; "ln"; "way"; "court"; "ct"; "circle"; "cir";
             "boulevard"; "blvd"; "place"; "pl" ]));
         Wb ].

(** [/\b\w/g] *)
Definition re_word_start : regex := Seq Wb (Cls is_word).

(** [parts.pop()]: the last element and the array without it. *)
Definition pop (parts : list string) : option string * list string :=
  match List.rev parts with
  | last :: front => (Some last, List.rev front)
  | [] => (None, [])
  end.

(** The three clauses of [formatted]; a falsy clause is dropped by
    [filter(part => part)]. *)
Definition clause (s : string) : list string :=
  if is_empty s then [] else [s].

Definition street_clause (streetNumber streetName : option string)
  : list string :=
  if negb (absent streetNumber) && negb (absent streetName)
  then clause (match streetNumber, streetName with
               | Some n, Some s => n ++ " " ++ s
               | _, _ => ""
               end)%string
  else clause (match or_null streetName with Some s => s | None => "" end).

Definition city_clause (city : option string) : list string :=
  match city with Some c => clause c | None => [] end.

Definition state_clause (state : option value) (zipCode : option string)
  : list string :=
  if negb (absent_value state) && negb (absent zipCode)
  then clause (match state, zipCode with
               | Some s, Some z => to_string s ++ " " ++ z
               | _, _ => ""
               end)%string
  else if negb (absent_value state)
  then match state with Some s => [to_string s] | None => [] end
  else clause (match or_null zipCode with Some z => z | None => "" end).

(** The tokens of the input: [normalized.split(' ').filter(...)]. *)
Definition tokens (address : string) : list string :=
  List.filter (fun part => (0 <? String.length part)%nat)
    (split (normalizeAddress address)).

(** The choice between street name and city, on what is left of the
    tokens. *)
Definition streetAndCity (streetNumber : option string)
    (parts : list string)
  : outcome (option string * option string) :=
  if (0 <? List.length parts)%nat then
    if (2 <=? List.length parts)%nat then
      p <- index parts (List.length parts - 1);;
      let lastPart := toLowerCase p in
      let streetTypeAbbrevs := keys streetAbbreviations in
      if includes streetTypeAbbrevs lastPart
      then Ok (Some (Join parts " "), None)
      else
        let '(last, parts) := pop parts in
        Ok (Some (Join parts " "), or_null last)
    else
      let singlePart := Join parts " " in
      if negb (absent streetNumber) then Ok (Some singlePart, None)
      else if MatchString streetIndicators singlePart
      then Ok (Some singlePart, None)
      else Ok (None, Some singlePart)
  else Ok (None, None).

Definition validateAddress (address : string)
  : outcome AddressValidationResult :=
  let original := address in
  let parts := tokens address in
  let corrections : list string := [] in
  if (List.length parts =? 0)%nat then
    Ok (mkResult "unverifiable" 0.0%float original None
          (Some ["Empty or invalid address provided"]))
  else
    '(zipCode, parts) <- extractZipCode parts;;
    '(state, parts) <- extractState parts;;
    '(streetNumber, parts) <- extractStreetNumber parts;;
    '(streetName, city) <- streetAndCity streetNumber parts;;
    '(streetName, corrections) <-
      (if negb (absent streetName) then
         match streetName with
         | Some name =>
             let directionResult := expandDirections name in
             let '(name, corrections) :=
               if snd directionResult
               then (fst directionResult,
                     corrections ++ ["Direction abbreviations expanded"])
               else (name, corrections) in
             streetResult <- expandStreetType name;;
             if snd streetResult
             then Ok (Some (fst streetResult),
                      corrections ++ ["Street type abbreviation expanded"])
             else Ok (Some name, corrections)
         | None => Ok (streetName, corrections)
         end
       else Ok (streetName, corrections));;
    let city :=
      if negb (absent city) then
        match city with
        | Some c =>
            Some (toUpperCase (substring 0 1 c)
                  ++ toLowerCase (substring 1 (String.length c - 1) c))%string
        | None => city
        end
      else city in
    let streetName :=
      if negb (absent streetName) then
        option_map (ReplaceAll re_word_start toUpperCase) streetName
      else streetName in
    let parsed := mkValidatedAddress streetNumber streetName city state
                    zipCode "" in
    let confidence := calculateConfidence parsed corrections in
    let status := "valid" in
    let status :=
      if (0 <? List.length corrections)%nat then "corrected" else status in
    let status :=
      if PrimFloat.ltb confidence 0.3%float
         || (absent streetName && absent city)
      then "unverifiable" else status in
    let formatted :=
      Join (street_clause streetNumber streetName ++ city_clause city
            ++ state_clause state zipCode) ", " in
    let validated := mkValidatedAddress streetNumber streetName city state
                       zipCode formatted in
    Ok (mkResult status
          (PrimFloat.div (Math_round (PrimFloat.mul confidence 100%float))
             100%float)
          original (Some validated)
          (if (0 <? List.length corrections)%nat then Some corrections
           else None)).

End TS.

(** ** The Go server: main.go, and models.go as JSON

    A handler is modelled by the calls it makes on its [ResponseWriter],
    in order.  What [json.Decoder.Decode] makes of the body of the request
    is part of the request: the [AddressRequest] it fills in, or nothing
    when it returns an error. *)

Module GoServer.
Import Go.

(** models.go *)
Record AddressRequest : Type := mkAddressRequest {
  Address : string
}.

Record Request : Type := mkRequest {
  Method : string;
  Decoded : option AddressRequest
}.

(** What a handler hands to [json.Encoder.Encode]. *)
Inductive document : Type :=
| StringMap (m : list (string * string))     (* a map[string]string *)
| Response (r : AddressResponse).

Inductive call : Type :=
| HttpError (message : string) (code : nat)  (* http.Error(w, message, code) *)
| HeaderSet (key value : string)             (* w.Header().Set(key, value) *)
| WriteHeader (statusCode : nat)             (* w.WriteHeader(statusCode) *)
| Encode (d : document).                     (* json.NewEncoder(w).Encode(d) *)

Definition MethodGet : string := "GET".
Definition MethodPost : string := "POST".
Definition StatusOK : nat := 200.
Definition StatusBadRequest : nat := 400.
Definition StatusMethodNotAllowed : nat := 405.
Definition StatusInternalServerError : nat := 500.

Definition writeErrorResponse (message : string) (statusCode : nat)
  : list call :=
  [ HeaderSet "Content-Type" "application/json";
    WriteHeader statusCode;
    Encode (StringMap [("error", message)]) ].

(** [now] is the reading of [time.Now()] in [ValidateAndStandardize]. *)
Definition handleValidateAddress (now : Z) (validator : AddressValidator)
    (r : Request) : outcome (list call) :=
  if negb (Method r =? MethodPost)%string then
    Ok [HttpError "Method not allowed" StatusMethodNotAllowed]
  else
    match Decoded r with
    | None => Ok (writeErrorResponse "Invalid JSON format" StatusBadRequest)
    | Some req =>
        if (Address req =? "")%string then
          Ok (writeErrorResponse "Address field is required" StatusBadRequest)
        else
          '(response, err) <-
            ValidateAndStandardize now validator (Address req);;
          match err with
          | Some _ =>
              Ok (writeErrorResponse "Internal server error"
                    StatusInternalServerError)
          | None =>
              Ok [ HeaderSet "Content-Type" "application/json";
                   Encode (Response response) ]
          end
    end.

Definition handleHealthCheck (r : Request) : list call :=
  if negb (Method r =? MethodGet)%string then
    [HttpError "Method not allowed" StatusMethodNotAllowed]
  else
    [ HeaderSet "Content-Type" "application/json";
      Encode (StringMap [ ("status", "healthy");
                          ("service", "address-validation-api") ]) ].

(** The status code of the answer: that of [http.Error] or of
    [WriteHeader]; without either, the first write sends 200. *)
Fixpoint status_code (calls : list call) : nat :=
  match calls with
  | HttpError _ code :: _ => code
  | WriteHeader code :: _ => code
  | _ :: calls' => status_code calls'
  | [] => StatusOK
  end.

(** *** The JSON of a response, by the field tags of models.go

    A field tagged [omitempty] is left out when it is the empty string or
    the nil pointer; the fields come in the order of the struct. *)

Inductive json : Type :=
| JString (s : string)
| JTime (t : Z)
| JObject (fields : list (string * string)).  (* an object of strings *)

Definition omitempty {V : Type} (key : string) (value : string) (v : V)
  : list (string * V) :=
  if is_empty value then [] else [(key, v)].

Definition encodeValidatedAddress (a : ValidatedAddress)
  : list (string * string) :=
  omitempty "street_number" (StreetNumber a) (StreetNumber a)
  ++ omitempty "street_name" (StreetName a) (StreetName a)
  ++ omitempty "unit" (Unit a) (Unit a)
  ++ omitempty "city" (City a) (City a)
  ++ omitempty "state" (State a) (State a)
  ++ omitempty "zip_code" (ZipCode a) (ZipCode a)
  ++ omitempty "zip_plus4" (ZipPlus4 a) (ZipPlus4 a)
  ++ omitempty "county" (County a) (County a)
  ++ [("full_address", FullAddress a)].

Definition encodeAddressResponse (r : AddressResponse)
  : list (string * json) :=
  [ ("status", JString (Status r));
    ("original_address", JString (OriginalAddress r)) ]
  ++ match Validated r with
     | Some a => [("validated_address", JObject (encodeValidatedAddress a))]
     | None => []
     end
  ++ omitempty "message" (Message r) (JString (Message r))
  ++ [("processed_at", JTime (ProcessedAt r))].

(** The names of the members of an object, in order. *)
Definition members {V : Type} (fields : list (string * V)) : list string :=
  List.map fst fields.

End GoServer.

(** ** The TypeScript server: the handler of POST /validate-address in
    server.ts

    The handler, on a body whose [address] is a string, as the request
    schema demands.  An exception that [validateAddress] throws is caught
    and answered with 500. *)

Module TSServer.
Import TS.

Inductive payload : Type :=
| Failure (error message : string)           (* an ErrorResponse *)
| Result (r : AddressValidationResult).

Record reply : Type := mkReply {
  statusCode : nat;
  sent : payload
}.

Definition postValidateAddress (address : string) : reply :=
  (* !address || typeof address !== 'string' *)
  if is_empty address then
    mkReply 400
      (Failure "Bad Request" "Address field is required and must be a string")
  else
    match validateAddress (trim address) with
    | Ok result => mkReply 200 (Result result)
    | Panic _ =>
        mkReply 500
          (Failure "Internal Server Error"
             "An error occurred while processing the address")
    end.

End TSServer.

(** * Properties *)

(** ** Run-time failures do not occur *)

Lemma index_lt {A : Type} (l : list A) (i : nat) :
  i < List.length l -> exists a, index l i = Ok a /\ nth_error l i = Some a.
Proof.
  intros H. unfold index.
  destruct (nth_error l i) as [a|] eqn:E.
  - exists a. split; reflexivity.
  - apply nth_error_None in E. lia.
Qed.

Lemma slice_to_le {A : Type} (l : list A) (i : nat) :
  i <= List.length l -> slice_to l i = Ok (firstn i l).
Proof.
  intros H. unfold slice_to.
  destruct (Nat.leb_spec i (List.length l)); [reflexivity | lia].
Qed.

Lemma slice_from_le {A : Type} (l : list A) (i : nat) :
  i <= List.length l -> slice_from l i = Ok (skipn i l).
Proof.
  intros H. unfold slice_from.
  destruct (Nat.leb_spec i (List.length l)); [reflexivity | lia].
Qed.

(** ** The matcher on simple patterns *)

Module RegexFacts.

Fixpoint drop_while (p : ascii -> bool) (s : string) : string :=
  match s with
  | String c s' => if p c then drop_while p s' else s
  | EmptyString => s
  end.

Fixpoint last_of (p : ascii -> bool) (prev : option ascii) (s : string)
  : option ascii :=
  match s with
  | String c s' => if p c then last_of p (Some c) s' else prev
  | EmptyString => prev
  end.

Lemma drop_while_length p s :
  String.length (drop_while p s) <= String.length s.
Proof.
  induction s as [|c s IH]; simpl; [lia|].
  destruct (p c); simpl; lia.
Qed.

(** A greedy repetition in front of a continuation that cannot fail takes
    the whole run. *)
Lemma star_greedy_all {R : Type} p (k : option ascii -> string -> option R)
    (f : option ascii -> string -> R) :
  (forall a x, k a x = Some (f a x)) ->
  forall s prev,
    star_greedy p prev s k = Some (f (last_of p prev s) (drop_while p s)).
Proof.
  intros Hk. induction s as [|c s IH]; intros prev; simpl.
  - apply Hk.
  - destruct (p c); [|apply Hk]. rewrite IH. reflexivity.
Qed.

Lemma match_here_Cls p prev s :
  match_here (Cls p) prev s
  = match s with
    | String c s' => if p c then Some (s', []) else None
    | EmptyString => None
    end.
Proof. destruct s; reflexivity. Qed.

Lemma match_here_Plus p prev s :
  match_here (Plus p) prev s
  = match s with
    | String c s' => if p c then Some (drop_while p s', []) else None
    | EmptyString => None
    end.
Proof.
  unfold match_here, Plus. simpl. destruct s as [|c s]; [reflexivity|].
  destruct (p c); [|reflexivity].
  rewrite (star_greedy_all p _ (fun _ x => (x, @nil (nat * string))));
    reflexivity.
Qed.

(** Replacing every character of a class by nothing is filtering. *)
Lemma replace_Cls_empty p : forall s prev,
  replace_go (Cls p) (fun _ => "") prev s 0
  = Str.filter (fun c => negb (p c)) s.
Proof.
  induction s as [|c s IH]; intros prev; [reflexivity|].
  cbn [replace_go Str.filter]. rewrite match_here_Cls.
  destruct (p c); cbn [negb].
  - replace (String.length (String c s) - String.length s) with 1
      by (cbn [String.length]; lia).
    rewrite IH. reflexivity.
  - rewrite IH. reflexivity.
Qed.

(** After every run of the class [p] has been replaced by [" "], a
    character of [p] that is left is a space. *)
Lemma replace_Plus_space p : forall s prev skip,
  Str.forallb (fun c => negb (p c) || (c =? " ")%char)
    (replace_go (Plus p) (fun _ => " ") prev s skip) = true.
Proof.
  induction s as [|c s IH]; intros prev skip; [reflexivity|].
  cbn [replace_go]. destruct skip as [|n]; [|apply IH].
  rewrite match_here_Plus. destruct (p c) eqn:Ep.
  - pose proof (drop_while_length p s) as Hl.
    destruct (String.length (String c s) - String.length (drop_while p s))
      as [|n] eqn:En.
    + cbn [String.length] in En. lia.
    + cbn [String.append Str.forallb]. rewrite Ascii.eqb_refl, orb_true_r.
      apply IH.
  - cbn [Str.forallb]. rewrite Ep. apply IH.
Qed.

(** A pattern that starts with [^] matches at the beginning only. *)
Lemma search_Bol_later r : forall s c, search (Seq Bol r) (Some c) s = None.
Proof.
  induction s as [|c' s IH]; intros c; simpl; [reflexivity|]. apply IH.
Qed.

Lemma search_Bol r s :
  search (Seq Bol r) None s
  = match match_here (Seq Bol r) None s with
    | Some (s', caps) => Some (taken s s', s', caps)
    | None => None
    end.
Proof.
  destruct s as [|c s]; simpl.
  - destruct (match_here (Seq Bol r) None ""); reflexivity.
  - destruct (match_here (Seq Bol r) None (String c s)) as [[s' caps]|];
      [reflexivity|]. apply search_Bol_later.
Qed.

End RegexFacts.
Import RegexFacts.

(** ** Facts on characters and strings *)

Module StrFacts.

Lemma forallb_impl (p q : ascii -> bool) s :
  (forall c, p c = true -> q c = true) ->
  Str.forallb p s = true -> Str.forallb q s = true.
Proof.
  intros H. induction s as [|c s IH]; simpl; [reflexivity|].
  intros Hp. apply andb_true_iff in Hp as [Hc Hs].
  rewrite (H _ Hc), (IH Hs). reflexivity.
Qed.

Lemma forallb_filter (p q : ascii -> bool) s :
  Str.forallb p s = true -> Str.forallb p (Str.filter q s) = true.
Proof.
  induction s as [|c s IH]; simpl; [reflexivity|].
  intros Hp. apply andb_true_iff in Hp as [Hc Hs].
  destruct (q c); simpl; [rewrite Hc|]; auto.
Qed.

Lemma forallb_filter_self (p : ascii -> bool) s :
  Str.forallb p (Str.filter p s) = true.
Proof.
  induction s as [|c s IH]; simpl; [reflexivity|].
  destruct (p c) eqn:E; simpl; [rewrite E|]; auto.
Qed.

Lemma forallb_and (p q : ascii -> bool) s :
  Str.forallb p s = true -> Str.forallb q s = true ->
  Str.forallb (fun c => p c && q c) s = true.
Proof.
  induction s as [|c s IH]; simpl; [reflexivity|].
  intros Hp Hq. apply andb_true_iff in Hp as [Hc Hs].
  apply andb_true_iff in Hq as [Hc' Hs'].
  rewrite Hc, Hc', IH; auto.
Qed.

Lemma to_upper_idem c : to_upper (to_upper c) = to_upper c.
Proof. destruct c as [[] [] [] [] [] [] [] []]; reflexivity. Qed.

Lemma ToUpper_idem s : ToUpper (ToUpper s) = ToUpper s.
Proof.
  unfold ToUpper. induction s as [|c s IH]; cbn [Str.map]; [reflexivity|].
  rewrite to_upper_idem, IH. reflexivity.
Qed.

Lemma EqualFold_lower a : forall b,
  EqualFold a b = (ToLower a =? ToLower b)%string.
Proof.
  unfold ToLower.
  induction a as [|x a IH]; intros [|y b]; cbn [EqualFold Str.map String.eqb];
    try reflexivity.
  rewrite IH. unfold eq_fold.
  destruct (to_lower x =? to_lower y)%char; reflexivity.
Qed.

Lemma EqualFold_true a b :
  EqualFold a b = true <-> ToLower a = ToLower b.
Proof. rewrite EqualFold_lower. apply String.eqb_eq. Qed.

End StrFacts.
Import StrFacts.

(** ** Trimming *)

Module TrimFacts.

(** An ASCII character that is no white space. *)
Definition plain (c : ascii) : bool := is_ascii c && negb (is_space c).

Lemma plain_not_space c : plain c = true -> is_space c = false.
Proof.
  unfold plain. intros H. apply andb_true_iff in H as [_ H].
  apply negb_true_iff in H. exact H.
Qed.

Lemma space2_ascii_lead c1 c2 : is_ascii c1 = true -> space2 c1 c2 = false.
Proof.
  destruct c1 as [[] [] [] [] [] [] [] []]; intros H;
    solve [discriminate H | reflexivity].
Qed.

Lemma space3_ascii_lead c1 c2 c3 :
  is_ascii c1 = true -> space3 c1 c2 c3 = false.
Proof.
  destruct c1 as [[] [] [] [] [] [] [] []]; intros H;
    solve [discriminate H | reflexivity].
Qed.

Lemma space2_ascii_trail c1 c2 : is_ascii c2 = true -> space2 c1 c2 = false.
Proof.
  unfold space2.
  destruct c2 as [[] [] [] [] [] [] [] []]; intros H;
    solve [discriminate H | apply andb_false_r].
Qed.

Lemma space3_ascii_trail c1 c2 c3 :
  is_ascii c3 = true -> space3 c1 c2 c3 = false.
Proof.
  unfold space3.
  destruct c3 as [[] [] [] [] [] [] [] []]; intros H;
    try discriminate H;
    cbn; rewrite ?andb_false_r; reflexivity.
Qed.

Lemma TrimLeft_head c s : plain c = true -> TrimLeft (String c s) = String c s.
Proof.
  intros H. pose proof (plain_not_space c H) as Hs.
  apply andb_true_iff in H as [Ha _].
  unfold TrimLeft. cbn [trim_front]. rewrite Hs.
  destruct s as [|c2 [|c3 s]]; try reflexivity;
    rewrite (space2_ascii_lead c c2 Ha); try reflexivity.
  rewrite (space3_ascii_lead c c2 c3 Ha). reflexivity.
Qed.

Lemma TrimLeftRev_head c s :
  plain c = true -> TrimLeftRev (String c s) = String c s.
Proof.
  intros H. pose proof (plain_not_space c H) as Hs.
  apply andb_true_iff in H as [Ha _].
  unfold TrimLeftRev, space2_rev, space3_rev. cbn [trim_front]. rewrite Hs.
  destruct s as [|c2 [|c3 s]]; try reflexivity;
    rewrite (space2_ascii_trail c2 c Ha); try reflexivity.
  rewrite (space3_ascii_trail c3 c2 c Ha). reflexivity.
Qed.

Lemma append_assoc s : forall u v,
  ((s ++ u) ++ v)%string = (s ++ (u ++ v))%string.
Proof.
  induction s as [|c s IH]; intros u v; cbn [String.append];
    [reflexivity | rewrite IH; reflexivity].
Qed.

Lemma rev_append_app s : forall acc,
  Str.rev_append s acc = (Str.rev s ++ acc)%string.
Proof.
  unfold Str.rev.
  induction s as [|c s IH]; intros acc; cbn [Str.rev_append]; [reflexivity|].
  rewrite IH, (IH (String c "")).
  rewrite append_assoc. reflexivity.
Qed.

Lemma rev_cons c s : Str.rev (String c s) = (Str.rev s ++ String c "")%string.
Proof. unfold Str.rev at 1. cbn [Str.rev_append]. apply rev_append_app. Qed.

Lemma append_empty_r s : (s ++ "")%string = s.
Proof. induction s as [|c s IH]; simpl; [reflexivity | f_equal; exact IH]. Qed.

Lemma rev_app s : forall u,
  Str.rev (s ++ u)%string = (Str.rev u ++ Str.rev s)%string.
Proof.
  induction s as [|c s IH]; intros u.
  - cbn [String.append]. rewrite append_empty_r. reflexivity.
  - cbn [String.append]. rewrite !rev_cons, IH.
    apply append_assoc.
Qed.

Lemma rev_involutive s : Str.rev (Str.rev s) = s.
Proof.
  induction s as [|c s IH]; [reflexivity|].
  rewrite rev_cons, rev_app, IH. reflexivity.
Qed.

(** A text whose first and last characters are plain is trimmed. *)
Lemma TrimSpace_plain c s c' s' :
  plain c = true -> plain c' = true ->
  Str.rev (String c s) = String c' s' ->
  TrimSpace (String c s) = String c s.
Proof.
  intros Hc Hc' Hr. unfold TrimSpace, TrimRight.
  rewrite (TrimLeft_head c s Hc), Hr, (TrimLeftRev_head c' s' Hc'), <- Hr.
  apply rev_involutive.
Qed.

(** From the back, trimming stops in front of a plain character. *)
Lemma TrimLeftRev_keeps d : plain d = true ->
  forall n s, String.length s <= n ->
  exists s', TrimLeftRev (s ++ String d "")%string = (s' ++ String d "")%string.
Proof.
  intros Hd. pose proof (plain_not_space d Hd) as Hs.
  pose proof Hd as Ha. apply andb_true_iff in Ha as [Ha _].
  unfold TrimLeftRev, space2_rev, space3_rev.
  induction n as [|n IH]; intros s Hn.
  - destruct s; [|cbn in Hn; lia]. exists "".
    cbn [String.append trim_front]. rewrite Hs. reflexivity.
  - destruct s as [|c1 s1].
    { exists "". cbn [String.append trim_front]. rewrite Hs. reflexivity. }
    cbn [String.length] in Hn. cbn [String.append trim_front].
    destruct (is_space c1); [apply IH; lia|].
    destruct s1 as [|c2 s2]; cbn [String.append].
    { rewrite (space2_ascii_lead d c1 Ha).
      exists (String c1 ""). reflexivity. }
    cbn [String.length] in Hn.
    destruct (space2 c2 c1); [apply IH; lia|].
    destruct s2 as [|c3 s3]; cbn [String.append].
    { rewrite (space3_ascii_lead d c2 c1 Ha).
      exists (String c1 (String c2 "")). reflexivity. }
    cbn [String.length] in Hn.
    destruct (space3 c3 c2 c1); [apply IH; lia|].
    exists (String c1 (String c2 (String c3 s3))). reflexivity.
Qed.

(** Trimming keeps a plain first character. *)
Lemma TrimSpace_head d s :
  plain d = true -> exists s', TrimSpace (String d s) = String d s'.
Proof.
  intros Hd. unfold TrimSpace, TrimRight.
  rewrite (TrimLeft_head d s Hd), rev_cons.
  destruct (TrimLeftRev_keeps d Hd (String.length (Str.rev s)) (Str.rev s)
              (le_n _)) as (s' & ->).
  rewrite rev_app. exists (Str.rev s'). reflexivity.
Qed.

(** What trimming at the front does, whatever the runes of several bytes
    are. *)
Section TrimFront.

Variable sp2 : ascii -> ascii -> bool.
Variable sp3 : ascii -> ascii -> ascii -> bool.

Lemma trim_front_suffix : forall n s, String.length s <= n ->
  exists pre, s = (pre ++ trim_front sp2 sp3 s)%string.
Proof.
  induction n as [|n IH]; intros s Hn.
  - destruct s; [|cbn in Hn; lia]. exists "". reflexivity.
  - destruct s as [|c1 s1]; [exists ""; reflexivity|].
    cbn [String.length] in Hn. cbn [trim_front].
    destruct (is_space c1).
    { destruct (IH s1) as (pre & E); [lia|].
      exists (String c1 pre). cbn [String.append]. rewrite <- E.
      reflexivity. }
    destruct s1 as [|c2 s2]; [exists ""; reflexivity|].
    cbn [String.length] in Hn.
    destruct (sp2 c1 c2).
    { destruct (IH s2) as (pre & E); [lia|].
      exists (String c1 (String c2 pre)). cbn [String.append].
      rewrite <- E. reflexivity. }
    destruct s2 as [|c3 s3]; [exists ""; reflexivity|].
    cbn [String.length] in Hn.
    destruct (sp3 c1 c2 c3); [|exists ""; reflexivity].
    destruct (IH s3) as (pre & E); [lia|].
    exists (String c1 (String c2 (String c3 pre))). cbn [String.append].
    rewrite <- E. reflexivity.
Qed.

Lemma trim_front_width : forall n s, String.length s <= n ->
  width_front sp2 sp3 (trim_front sp2 sp3 s) = 0.
Proof.
  induction n as [|n IH]; intros s Hn.
  - destruct s; [reflexivity | cbn in Hn; lia].
  - destruct s as [|c1 s1]; [reflexivity|].
    cbn [String.length] in Hn. cbn [trim_front].
    destruct (is_space c1) eqn:E1; [apply IH; lia|].
    destruct s1 as [|c2 s2].
    { cbn [width_front]. rewrite E1. reflexivity. }
    cbn [String.length] in Hn.
    destruct (sp2 c1 c2) eqn:E2; [apply IH; lia|].
    destruct s2 as [|c3 s3].
    { cbn [width_front]. rewrite E1, E2. reflexivity. }
    cbn [String.length] in Hn.
    destruct (sp3 c1 c2 c3) eqn:E3; [apply IH; lia|].
    cbn [width_front]. rewrite E1, E2, E3. reflexivity.
Qed.

Lemma trim_front_fixed s :
  width_front sp2 sp3 s = 0 -> trim_front sp2 sp3 s = s.
Proof.
  destruct s as [|c1 s1]; [reflexivity|]. cbn [width_front trim_front].
  destruct (is_space c1); [discriminate|].
  destruct s1 as [|c2 s2]; [reflexivity|].
  destruct (sp2 c1 c2); [discriminate|].
  destruct s2 as [|c3 s3]; [reflexivity|].
  destruct (sp3 c1 c2 c3); [discriminate | reflexivity].
Qed.

Lemma width_front_prefix z : forall w,
  width_front sp2 sp3 (z ++ w)%string = 0 -> z <> "" ->
  width_front sp2 sp3 z = 0.
Proof.
  intros w H Hz. destruct z as [|c1 z1]; [contradiction|].
  cbn [String.append width_front] in *.
  destruct (is_space c1); [discriminate|].
  destruct z1 as [|c2 z2]; [reflexivity|]. cbn [String.append] in H.
  destruct (sp2 c1 c2); [discriminate|].
  destruct z2 as [|c3 z3]; [reflexivity|]. cbn [String.append] in H.
  destruct (sp3 c1 c2 c3); [discriminate | reflexivity].
Qed.

Lemma trim_front_idem s :
  trim_front sp2 sp3 (trim_front sp2 sp3 s) = trim_front sp2 sp3 s.
Proof. apply trim_front_fixed. apply (trim_front_width _ s (le_n _)). Qed.

End TrimFront.

Lemma forallb_app p s : forall u,
  Str.forallb p (s ++ u)%string = Str.forallb p s && Str.forallb p u.
Proof.
  induction s as [|c s IH]; intros u; cbn [String.append Str.forallb];
    [reflexivity|].
  rewrite IH. apply andb_assoc.
Qed.

Lemma forallb_rev p s : Str.forallb p (Str.rev s) = Str.forallb p s.
Proof.
  induction s as [|c s IH]; [reflexivity|].
  rewrite rev_cons, forallb_app, IH. cbn [Str.forallb].
  rewrite andb_true_r. apply andb_comm.
Qed.

Lemma trim_front_forallb sp2 sp3 p s :
  Str.forallb p s = true -> Str.forallb p (trim_front sp2 sp3 s) = true.
Proof.
  intros H.
  destruct (trim_front_suffix sp2 sp3 _ s (le_n _)) as (pre & E).
  rewrite E, forallb_app in H. apply andb_true_iff in H as [_ H]. exact H.
Qed.

(** Trimming keeps what holds of every character. *)
Lemma TrimSpace_forallb p s :
  Str.forallb p s = true -> Str.forallb p (TrimSpace s) = true.
Proof.
  intros H. unfold TrimSpace, TrimRight, TrimLeft, TrimLeftRev.
  rewrite forallb_rev. apply trim_front_forallb. rewrite forallb_rev.
  apply trim_front_forallb. exact H.
Qed.

(** Trimming twice is trimming once. *)
Lemma TrimRight_idem s : TrimRight (TrimRight s) = TrimRight s.
Proof.
  unfold TrimRight. rewrite rev_involutive. unfold TrimLeftRev.
  rewrite trim_front_idem. reflexivity.
Qed.

Lemma TrimRight_prefix s : exists post, s = (TrimRight s ++ post)%string.
Proof.
  unfold TrimRight, TrimLeftRev.
  destruct (trim_front_suffix space2_rev space3_rev _ (Str.rev s) (le_n _))
    as (pre & E).
  exists (Str.rev pre).
  rewrite <- rev_app, <- E. symmetry. apply rev_involutive.
Qed.

Lemma TrimSpace_idem s : TrimSpace (TrimSpace s) = TrimSpace s.
Proof.
  unfold TrimSpace.
  assert (H : TrimLeft (TrimRight (TrimLeft s)) = TrimRight (TrimLeft s)).
  { destruct (TrimRight_prefix (TrimLeft s)) as (post & E).
    destruct (TrimRight (TrimLeft s)) as [|c q] eqn:Eq; [reflexivity|].
    apply trim_front_fixed. apply (width_front_prefix _ _ _ post).
    - rewrite <- E. apply (trim_front_width _ _ _ s (le_n _)).
    - discriminate. }
  rewrite H. apply TrimRight_idem.
Qed.

Lemma map_fixed f s :
  Str.forallb (fun c => (f c =? c)%char) s = true -> Str.map f s = s.
Proof.
  induction s as [|c s IH]; cbn [Str.forallb Str.map]; [reflexivity|].
  intros H. apply andb_true_iff in H as [Hc Hs].
  apply Ascii.eqb_eq in Hc. rewrite Hc, (IH Hs). reflexivity.
Qed.

Lemma forallb_map_upper s :
  Str.forallb (fun c => (to_upper c =? c)%char) (ToUpper s) = true.
Proof.
  unfold ToUpper. induction s as [|c s IH]; cbn [Str.map Str.forallb];
    [reflexivity|].
  rewrite to_upper_idem, Ascii.eqb_refl, IH. reflexivity.
Qed.

(** An upper-cased text is still upper-cased once trimmed. *)
Lemma ToUpper_TrimSpace_ToUpper s :
  ToUpper (TrimSpace (ToUpper s)) = TrimSpace (ToUpper s).
Proof.
  apply map_fixed. apply TrimSpace_forallb. apply forallb_map_upper.
Qed.

End TrimFacts.
Import TrimFacts.

(** ** Fields and title case, on ASCII text *)

Module FieldsFacts.

(** [Fields] on ASCII text, where every white-space rune is one byte. *)
Fixpoint fields_ascii (s : string) (cur : string) : list string :=
  match s with
  | EmptyString => flush cur []
  | String c s1 =>
      if is_space c then flush cur (fields_ascii s1 EmptyString)
      else fields_ascii s1 (String c cur)
  end.

Lemma space_width_ascii c s :
  is_ascii c = true ->
  space_width (String c s) = if is_space c then 1 else 0.
Proof.
  intros Ha. unfold space_width. cbn [width_front].
  destruct (is_space c); [reflexivity|].
  destruct s as [|c2 [|c3 s]]; try reflexivity;
    rewrite (space2_ascii_lead c c2 Ha); try reflexivity.
  rewrite (space3_ascii_lead c c2 c3 Ha). reflexivity.
Qed.

Lemma fields_go_ascii s : forall cur,
  Str.forallb is_ascii s = true -> fields_go s 0 cur = fields_ascii s cur.
Proof.
  induction s as [|c s IH]; intros cur H; [reflexivity|].
  cbn [Str.forallb] in H. apply andb_true_iff in H as [Hc Hs].
  cbn [fields_go fields_ascii].
  change (width_front space2 space3 (String c s))
    with (space_width (String c s)).
  rewrite (space_width_ascii c s Hc).
  destruct (is_space c); rewrite IH by exact Hs; reflexivity.
Qed.

(** A word: not empty, of plain characters that satisfy [q]. *)
Definition word_of (q : ascii -> bool) (w : string) : Prop :=
  w <> "" /\ Str.forallb (fun c => plain c && q c) w = true.

Lemma rev_nonempty c s : Str.rev (String c s) <> "".
Proof. rewrite rev_cons. destruct (Str.rev s); discriminate. Qed.

(** The fields of a text are words of its characters. *)
Lemma fields_ascii_words q s : forall cur,
  Str.forallb (fun c => is_ascii c && (is_space c || q c)) s = true ->
  Str.forallb (fun c => plain c && q c) cur = true ->
  Forall (word_of q) (fields_ascii s cur).
Proof.
  assert (Hflush : forall cur k,
    Str.forallb (fun c => plain c && q c) cur = true ->
    Forall (word_of q) k -> Forall (word_of q) (flush cur k)).
  { intros cur k Hcur Hk. unfold flush. destruct cur as [|c cur];
      [exact Hk|]. cbn [is_empty]. constructor; [|exact Hk].
    split; [apply rev_nonempty|]. rewrite forallb_rev. exact Hcur. }
  induction s as [|c s IH]; intros cur Hs Hcur; cbn [fields_ascii].
  - apply Hflush; [exact Hcur | constructor].
  - cbn [Str.forallb] in Hs. apply andb_true_iff in Hs as [Hc Hs].
    apply andb_true_iff in Hc as [Ha Hq].
    destruct (is_space c) eqn:Esp.
    + apply Hflush; [exact Hcur|]. apply IH; [exact Hs | reflexivity].
    + apply IH; [exact Hs|]. cbn [Str.forallb]. cbn [orb] in Hq.
      assert (Hp : plain c = true) by (unfold plain; rewrite Ha, Esp;
                                       reflexivity).
      rewrite Hp, Hq, Hcur. reflexivity.
Qed.

Lemma word_plain_chars q w :
  word_of q w -> Str.forallb plain w = true.
Proof.
  intros [_ H]. revert H. apply forallb_impl. intros c Hc.
  apply andb_true_iff in Hc as [Hc _]. exact Hc.
Qed.

Lemma plain_ascii c : plain c = true -> is_ascii c = true.
Proof. unfold plain. intros H. apply andb_true_iff in H as [H _]. exact H. Qed.

(** Reading a word, and the space behind it. *)
Lemma fields_ascii_word w : forall cur rest,
  Str.forallb plain w = true ->
  fields_ascii (w ++ rest) cur = fields_ascii rest (Str.rev_append w cur).
Proof.
  induction w as [|c w IH]; intros cur rest H; [reflexivity|].
  cbn [Str.forallb] in H. apply andb_true_iff in H as [Hc Hw].
  cbn [String.append fields_ascii Str.rev_append].
  rewrite (plain_not_space c Hc). apply IH. exact Hw.
Qed.

Lemma flush_rev_word w k : w <> "" -> flush (Str.rev w) k = w :: k.
Proof.
  intros Hw. unfold flush. destruct (Str.rev w) as [|c r] eqn:E.
  - exfalso. apply Hw. rewrite <- (rev_involutive w), E. reflexivity.
  - cbn [is_empty]. rewrite <- E, rev_involutive. reflexivity.
Qed.

(** Words joined by single spaces are the fields of the text. *)
Lemma fields_ascii_join q ws :
  Forall (word_of q) ws -> fields_ascii (Join ws " ") "" = ws.
Proof.
  unfold Join. induction 1 as [|w ws Hw Hws IH]; [reflexivity|].
  pose proof (word_plain_chars q w Hw) as Hp. destruct Hw as [Hne _].
  cbn [String.concat]. destruct ws as [|w' ws].
  - rewrite <- (append_empty_r w) at 1.
    rewrite (fields_ascii_word w "" "" Hp). cbn [fields_ascii].
    apply flush_rev_word. exact Hne.
  - rewrite (fields_ascii_word w "" _ Hp).
    cbn [String.append fields_ascii]. replace (is_space " ") with true
      by reflexivity.
    change (Str.rev_append w "") with (Str.rev w).
    rewrite IH. apply flush_rev_word. exact Hne.
Qed.

Lemma join_forallb p ws :
  Forall (fun w => Str.forallb p w = true) ws -> p " "%char = true ->
  Str.forallb p (Join ws " ") = true.
Proof.
  unfold Join. intros H Hsp. induction H as [|w ws Hw Hws IH];
    [reflexivity|].
  cbn [String.concat]. destruct ws as [|w' ws]; [exact Hw|].
  rewrite forallb_app, Hw. cbn [String.append Str.forallb andb].
  rewrite Hsp. exact IH.
Qed.

Lemma join_ascii q ws :
  Forall (word_of q) ws -> Str.forallb is_ascii (Join ws " ") = true.
Proof.
  intros H. apply join_forallb; [|reflexivity].
  eapply Forall_impl; [|exact H]. intros w Hw.
  apply forallb_impl with (p := plain); [apply plain_ascii|].
  apply (word_plain_chars q w Hw).
Qed.

Lemma Fields_join q ws : Forall (word_of q) ws -> Fields (Join ws " ") = ws.
Proof.
  intros H. unfold Fields.
  rewrite fields_go_ascii by (apply (join_ascii q ws H)).
  apply (fields_ascii_join q ws H).
Qed.

(** Words joined by single spaces need no trimming. *)
Lemma TrimSpace_join q ws :
  Forall (word_of q) ws -> TrimSpace (Join ws " ") = Join ws " ".
Proof.
  intros H. destruct (Join ws " ") as [|c s] eqn:E; [reflexivity|].
  assert (Hhead : plain c = true).
  { destruct H as [|w ws [Hne Hw] Hws]; [discriminate E|].
    unfold Join in E. cbn [String.concat] in E.
    destruct w as [|c0 w]; [contradiction|].
    cbn [Str.forallb] in Hw. apply andb_true_iff in Hw as [Hc _].
    apply andb_true_iff in Hc as [Hc _].
    destruct ws; cbn [String.append] in E; injection E as <- _; exact Hc. }
  destruct (Str.rev (String c s)) as [|c' s'] eqn:Er.
  { exfalso. apply (rev_nonempty c s). exact Er. }
  assert (Hlast : plain c' = true).
  { rewrite <- E in Er. clear E Hhead. revert c' s' Er.
    unfold Join. induction H as [|w ws [Hne Hw] Hws IH]; intros c' s' Er;
      [discriminate Er|].
    cbn [String.concat] in Er.
    assert (Hrw : forall u c' s', Str.rev (w ++ u) = String c' s' ->
                    u = "" -> plain c' = true).
    { intros u c1 s1 Hr ->. rewrite append_empty_r in Hr.
      pose proof (f_equal (Str.forallb (fun c => plain c && q c)) Hr) as Hf.
      rewrite forallb_rev, Hw in Hf. cbn [Str.forallb] in Hf.
      symmetry in Hf. apply andb_true_iff in Hf as [Hf _].
      apply andb_true_iff in Hf as [Hf _]. exact Hf. }
    destruct ws as [|w' ws].
    - apply (Hrw "" c' s'); [rewrite append_empty_r; exact Er | reflexivity].
    - rewrite rev_app in Er.
      change (String " " (String.concat " " (w' :: ws)))
        with (" " ++ String.concat " " (w' :: ws))%string in Er.
      rewrite rev_app in Er.
      destruct (Str.rev (String.concat " " (w' :: ws))) as [|c1 s1] eqn:E1.
      + exfalso. inversion Hws as [|? ? [Hne' _] _]; subst.
        destruct w' as [|c0 w0]; [contradiction|].
        cbn [String.concat] in E1.
        destruct ws; cbn [String.append] in E1;
          exact (rev_nonempty _ _ E1).
      + cbn [String.append] in Er. injection Er as <- _.
        apply (IH c1 s1). reflexivity. }
  apply (TrimSpace_plain c s c' s' Hhead Hlast Er).
Qed.

End FieldsFacts.
Import FieldsFacts.

(** ** Replacing whole words *)

Module ReplaceFacts.

(** The text behind a prefix of [s] that equals [key] up to case, and the
    character in front of it. *)
Fixpoint fold_prefix (key : string) (prev : option ascii) (s : string)
  : option (option ascii * string) :=
  match key with
  | EmptyString => Some (prev, s)
  | String kc key' =>
      match s with
      | String c s' =>
          if eq_fold kc c then fold_prefix key' (Some c) s' else None
      | EmptyString => None
      end
  end.

Lemma rmatch_LitI {R : Type} key : forall prev s caps
    (k : option ascii -> string -> captures -> option R),
  rmatch (LitI key) prev s caps k
  = match fold_prefix key prev s with
    | Some (prev', s') => k prev' s' caps
    | None => None
    end.
Proof.
  induction key as [|kc key IH]; intros prev s caps k; [reflexivity|].
  cbn [LitI rmatch fold_prefix]. unfold ChrI. cbn [rmatch].
  destruct s as [|c s]; [reflexivity|].
  destruct (eq_fold kc c); [apply IH | reflexivity].
Qed.

Lemma match_here_word key prev s :
  match_here (Go.re_word key) prev s
  = if xorb (word_before prev) (word_after s) then
      match fold_prefix key prev s with
      | Some (prev', s') =>
          if xorb (word_before prev') (word_after s') then Some (s', [])
          else None
      | None => None
      end
    else None.
Proof.
  unfold match_here, Go.re_word. cbn [Seqs rmatch].
  destruct (xorb (word_before prev) (word_after s)); [|reflexivity].
  rewrite rmatch_LitI.
  destruct (fold_prefix key prev s) as [[prev' s']|]; reflexivity.
Qed.

Lemma letter_fold_word kc c :
  is_letter kc = true -> eq_fold kc c = true -> is_word c = true.
Proof.
  unfold eq_fold. intros Hk H. apply Ascii.eqb_eq in H.
  assert (Hl : is_lower (to_lower c) = true).
  { rewrite <- H. revert Hk.
    destruct kc as [[] [] [] [] [] [] [] []]; intros Hk;
      solve [discriminate Hk | reflexivity]. }
  revert Hl. clear.
  destruct c as [[] [] [] [] [] [] [] []]; intros Hl;
    solve [discriminate Hl | reflexivity].
Qed.

Lemma word_plain c : is_word c = true -> plain c = true.
Proof.
  destruct c as [[] [] [] [] [] [] [] []]; intros H;
    solve [discriminate H | reflexivity].
Qed.

Section OneKey.

Variable key : string.
Variable repl : string -> string.
Hypothesis key_letters : Str.forallb is_letter key = true.
Hypothesis key_nonempty : key <> "".

(** Behind a word character, a key matches the rest of the word up to its
    end and nothing else. *)
Lemma fold_prefix_word : forall key', Str.forallb is_letter key' = true ->
  forall w p rest,
    Str.forallb is_word w = true -> is_word p = true ->
    word_after rest = false ->
    match fold_prefix key' (Some p) (w ++ rest) with
    | Some (prev', s') =>
        if xorb (word_before prev') (word_after s') then Some (s', [])
        else None
    | None => None
    end
    = if EqualFold key' w then Some (rest, @nil (nat * string)) else None.
Proof.
  induction key' as [|kc key' IH]; intros Hk w p rest Hw Hp Hrest.
  - cbn [fold_prefix word_before]. rewrite Hp.
    destruct w as [|c w]; cbn [String.append EqualFold].
    + rewrite Hrest. reflexivity.
    + cbn [Str.forallb] in Hw. apply andb_true_iff in Hw as [Hc _].
      cbn [word_after]. rewrite Hc. reflexivity.
  - cbn [Str.forallb] in Hk. apply andb_true_iff in Hk as [Hkc Hk].
    destruct w as [|c w]; cbn [String.append EqualFold fold_prefix].
    + destruct rest as [|c rest]; [reflexivity|].
      cbn [word_after] in Hrest.
      destruct (eq_fold kc c) eqn:E; [|reflexivity].
      rewrite (letter_fold_word kc c Hkc E) in Hrest. discriminate.
    + cbn [Str.forallb] in Hw. apply andb_true_iff in Hw as [Hc Hw].
      destruct (eq_fold kc c); [|reflexivity]. cbn [andb].
      apply IH; assumption.
Qed.

(** At the start of a word the key matches when it equals the word up to
    case. *)
Lemma match_here_word_start w prev rest :
  w <> "" -> Str.forallb is_word w = true ->
  word_before prev = false -> word_after rest = false ->
  match_here (Go.re_word key) prev (w ++ rest)
  = if EqualFold key w then Some (rest, []) else None.
Proof.
  intros Hne Hw Hprev Hrest. rewrite match_here_word, Hprev.
  destruct w as [|c w]; [contradiction|]. cbn [String.append word_after].
  cbn [Str.forallb] in Hw. apply andb_true_iff in Hw as [Hc Hw].
  rewrite Hc. cbn [xorb].
  destruct key as [|kc key'] eqn:Ek; [contradiction|].
  cbn [Str.forallb] in key_letters.
  apply andb_true_iff in key_letters as [Hkc Hk].
  cbn [fold_prefix EqualFold].
  destruct (eq_fold kc c); [|reflexivity]. cbn [andb].
  apply fold_prefix_word; assumption.
Qed.

Lemma match_here_word_inside prev s :
  word_before prev = true -> word_after s = true ->
  match_here (Go.re_word key) prev s = None.
Proof.
  intros Hp Hs. rewrite match_here_word, Hp, Hs. reflexivity.
Qed.

Lemma match_here_word_other prev c s :
  is_word c = false ->
  match_here (Go.re_word key) prev (String c s) = None.
Proof.
  intros Hc. rewrite match_here_word.
  destruct (xorb _ _); [|reflexivity].
  destruct key as [|kc key'] eqn:Ek; [contradiction|].
  cbn [Str.forallb] in key_letters.
  apply andb_true_iff in key_letters as [Hkc _].
  cbn [fold_prefix].
  destruct (eq_fold kc c) eqn:E; [|reflexivity].
  rewrite (letter_fold_word kc c Hkc E) in Hc. discriminate.
Qed.

Fixpoint last_from (c : ascii) (w : string) : ascii :=
  match w with
  | String c' w' => last_from c' w'
  | EmptyString => c
  end.

Lemma replace_inside : forall w p rest,
  Str.forallb is_word w = true -> is_word p = true ->
  replace_go (Go.re_word key) repl (Some p) (w ++ rest) 0
  = (w ++ replace_go (Go.re_word key) repl (Some (last_from p w)) rest 0)
    %string.
Proof.
  induction w as [|c w IH]; intros p rest Hw Hp; [reflexivity|].
  cbn [Str.forallb] in Hw. apply andb_true_iff in Hw as [Hc Hw].
  cbn [String.append replace_go last_from].
  rewrite match_here_word_inside by (cbn; assumption).
  rewrite IH by assumption. reflexivity.
Qed.

Lemma replace_skip : forall u prev c rest,
  replace_go (Go.re_word key) repl prev (String c u ++ rest)
    (S (String.length u))
  = replace_go (Go.re_word key) repl (Some (last_from c u)) rest 0.
Proof.
  induction u as [|c' u IH]; intros prev c rest.
  - cbn [String.append replace_go String.length last_from].
    destruct rest; reflexivity.
  - cbn [String.append replace_go String.length last_from].
    apply (IH (Some c) c' rest).
Qed.

Lemma length_app s : forall u,
  String.length (s ++ u) = String.length s + String.length u.
Proof.
  induction s as [|c s IH]; intros u; cbn [String.append String.length];
    [reflexivity | rewrite IH; reflexivity].
Qed.

Lemma substring_app w : forall rest,
  substring 0 (String.length w) (w ++ rest) = w.
Proof.
  induction w as [|c w IH]; intros rest.
  - cbn [String.length]. destruct (""%string ++ rest)%string; reflexivity.
  - cbn [String.length String.append substring]. rewrite IH. reflexivity.
Qed.

Lemma taken_app w rest : taken (w ++ rest) rest = w.
Proof.
  unfold taken. rewrite length_app.
  replace (String.length w + String.length rest - String.length rest)
    with (String.length w) by lia.
  apply substring_app.
Qed.

(** One word of the text: replaced when it equals the key up to case,
    copied otherwise. *)
Lemma replace_word c w prev rest :
  Str.forallb is_word (String c w) = true ->
  word_before prev = false -> word_after rest = false ->
  replace_go (Go.re_word key) repl prev (String c w ++ rest) 0
  = ((if EqualFold key (String c w) then repl (String c w) else String c w)
     ++ replace_go (Go.re_word key) repl (Some (last_from c w)) rest 0)
    %string.
Proof.
  intros Hw Hprev Hrest.
  pose proof (match_here_word_start (String c w) prev rest
                ltac:(discriminate) Hw Hprev Hrest) as Hm.
  cbn [String.append] in Hm |- *. cbn [replace_go]. rewrite Hm.
  cbn [Str.forallb] in Hw. apply andb_true_iff in Hw as [Hc Hw'].
  destruct (EqualFold key (String c w)).
  - change (String c (w ++ rest)) with (String c w ++ rest)%string.
    rewrite taken_app, length_app.
    replace (String.length (String c w) + String.length rest
             - String.length rest) with (S (String.length w))
      by (cbn [String.length]; lia).
    f_equal.
    destruct w as [|c' w0].
    + cbn [String.append String.length last_from].
      destruct rest; reflexivity.
    + cbn [String.append String.length last_from].
      pose proof (replace_skip w0 (Some c) c' rest) as Hsk.
      cbn [String.append] in Hsk. exact Hsk.
  - rewrite (replace_inside w c rest Hw' Hc). reflexivity.
Qed.

Definition replace_one (w : string) : string :=
  if EqualFold key w then repl w else w.

(** A text of words and single spaces: every word on its own. *)
Lemma replace_join ws : Forall (word_of is_word) ws ->
  forall prev, word_before prev = false ->
    replace_go (Go.re_word key) repl prev (Join ws " ") 0
    = Join (List.map replace_one ws) " ".
Proof.
  unfold Join. induction 1 as [|w ws Hw Hws IH]; intros prev Hprev;
    [reflexivity|].
  destruct Hw as [Hne Hw].
  assert (Hw' : Str.forallb is_word w = true).
  { revert Hw. apply forallb_impl. intros c Hc.
    apply andb_true_iff in Hc as [_ Hc]. exact Hc. }
  destruct w as [|c w]; [contradiction|].
  cbn [String.concat List.map]. destruct ws as [|w' ws].
  - cbn [List.map]. rewrite <- (append_empty_r (String c w)) at 1.
    rewrite (replace_word c w prev "" Hw' Hprev eq_refl).
    cbn [replace_go]. rewrite append_empty_r. reflexivity.
  - cbn [List.map] in IH |- *.
    rewrite (replace_word c w prev (" " ++ String.concat " " (w' :: ws))
               Hw' Hprev eq_refl).
    cbn [String.append replace_go].
    rewrite match_here_word_other by reflexivity.
    rewrite (IH (Some " "%char) eq_refl). reflexivity.
Qed.

End OneKey.

End ReplaceFacts.
Import ReplaceFacts.

(** ** The tables, in any iteration order *)

Module TableFacts.
Import Go.

Lemma existsb_Permutation {A : Type} (f : A -> bool) (l l' : list A) :
  Permutation l l' -> existsb f l = existsb f l'.
Proof.
  induction 1 as [|x l l' _ IH|x y l|l l' l'' _ IH1 _ IH2]; simpl.
  - reflexivity.
  - rewrite IH. reflexivity.
  - destruct (f x), (f y); reflexivity.
  - congruence.
Qed.

Lemma has_key_existsb (m : table) key :
  has_key m key = existsb (fun e => (fst e =? key)%string) m.
Proof.
  unfold has_key. induction m as [|[k v] m IH]; simpl; [reflexivity|].
  destruct (k =? key)%string; [reflexivity | exact IH].
Qed.

Lemma has_key_Permutation (m m' : table) key :
  Permutation m m' -> has_key m key = has_key m' key.
Proof.
  intros H. rewrite !has_key_existsb. apply existsb_Permutation. exact H.
Qed.

Lemma has_key_In (m : table) key :
  has_key m key = true <-> In key (List.map fst m).
Proof.
  rewrite has_key_existsb, existsb_exists. split.
  - intros (e & He & Hk). apply String.eqb_eq in Hk. subst key.
    apply in_map. exact He.
  - intros H. apply in_map_iff in H as (e & <- & He).
    exists e. split; [exact He | apply String.eqb_refl].
Qed.

(** A search that at most one entry satisfies finds the same entry in
    every order. *)
Lemma find_Permutation {A : Type} (f : A -> bool) (l l' : list A) :
  Permutation l l' ->
  (forall x y, In x l' -> In y l' -> f x = true -> f y = true -> x = y) ->
  find f l = find f l'.
Proof.
  intros HP Hu.
  destruct (find f l) as [x|] eqn:E1; destruct (find f l') as [y|] eqn:E2.
  - apply find_some in E1 as [I1 F1]. apply find_some in E2 as [I2 F2].
    f_equal. apply Hu; auto. eapply Permutation_in; eauto.
  - apply find_some in E1 as [I1 F1].
    rewrite (find_none _ _ E2 x) in F1; [discriminate|].
    eapply Permutation_in; eauto.
  - apply find_some in E2 as [I2 F2].
    rewrite (find_none _ _ E1 y) in F2; [discriminate|].
    eapply Permutation_in; [apply Permutation_sym|]; eauto.
  - reflexivity.
Qed.

Definition entry_eqb (x y : string * string) : bool :=
  (fst x =? fst y)%string && (snd x =? snd y)%string.

Lemma entry_eqb_eq x y : entry_eqb x y = true -> x = y.
Proof.
  destruct x, y. unfold entry_eqb. simpl. intros H.
  apply andb_true_iff in H as [H1 H2].
  apply String.eqb_eq in H1, H2. congruence.
Qed.

(** No two states have names that are equal up to case. *)
Lemma state_names_distinct x y :
  In x getStateAbbreviations -> In y getStateAbbreviations ->
  ToLower (snd x) = ToLower (snd y) -> x = y.
Proof.
  intros Hx Hy H.
  assert (Hall : List.forallb (fun x => List.forallb (fun y =>
            implb (ToLower (snd x) =? ToLower (snd y))%string
                  (entry_eqb x y)) getStateAbbreviations)
            getStateAbbreviations = true) by (vm_compute; reflexivity).
  rewrite forallb_forall in Hall. specialize (Hall x Hx).
  rewrite forallb_forall in Hall. specialize (Hall y Hy).
  apply String.eqb_eq in H. rewrite H in Hall. apply entry_eqb_eq.
  exact Hall.
Qed.

Lemma isState_tables av s :
  tables_of av -> isState av s = isState NewAddressValidator s.
Proof.
  intros (HS & _ & _). unfold isState. cbn [stateAbbreviations
    NewAddressValidator].
  rewrite (has_key_Permutation _ _ _ HS).
  rewrite (existsb_Permutation _ _ _ HS). reflexivity.
Qed.

Lemma isValidState_tables av s :
  tables_of av -> isValidState av s = isValidState NewAddressValidator s.
Proof.
  intros (HS & _ & _). unfold isValidState.
  apply has_key_Permutation. exact HS.
Qed.

Lemma tables_of_New : tables_of NewAddressValidator.
Proof. repeat split; apply Permutation_refl. Qed.

(** [standardizeState] does not depend on the iteration order. *)
Lemma standardizeState_tables av s :
  tables_of av ->
  standardizeState av s = standardizeState NewAddressValidator s.
Proof.
  intros (HS & _ & _). unfold standardizeState.
  cbn [stateAbbreviations NewAddressValidator].
  rewrite (has_key_Permutation _ _ _ HS).
  rewrite (find_Permutation _ _ _ HS); [reflexivity|].
  intros [a1 f1] [a2 f2] I1 I2 F1 F2.
  apply EqualFold_true in F1, F2.
  apply state_names_distinct; auto. cbn [snd]. congruence.
Qed.

End TableFacts.
Import TableFacts.

Module GoFacts.
Import Go.

(** The loops of the fallback parser touch neither the street number nor
    the street name, and they stay inside the slice. *)
Definition same_street (a r : ValidatedAddress) : Prop :=
  StreetNumber r = StreetNumber a /\ StreetName r = StreetName a.

Lemma state_loop_ok av parts : forall rest i result,
  i + List.length rest = List.length parts ->
  exists r, state_loop av parts i rest result = Ok r /\ same_street result r.
Proof.
  induction rest as [|part rest IH]; intros i result Hlen; simpl in *.
  - exists result. repeat split.
  - destruct (isState av part).
    + rewrite slice_to_le by lia.
      destruct (0 <? i)%nat; simpl;
        (destruct (Nat.ltb_spec i (List.length parts - 1));
         [ destruct (index_lt parts (i + 1)) as (z & -> & _); [lia|]; simpl;
           destruct (isZipCode z); eexists; split; try reflexivity;
           repeat split
         | eexists; split; try reflexivity; repeat split ]).
    + apply IH. lia.
Qed.

Lemma zip_loop_ok av parts : forall n result,
  n <= List.length parts ->
  exists r, zip_loop av parts n result = Ok r /\ same_street result r.
Proof.
  induction n as [|i IH]; intros result Hn; simpl.
  - exists result. repeat split.
  - destruct (index_lt parts i) as (part & -> & _); [lia|]. simpl.
    destruct (isZipCode part).
    + destruct (Nat.ltb_spec 0 i).
      * destruct (index_lt parts (i - 1)) as (prev & -> & _); [lia|]. simpl.
        destruct (isState av prev).
        -- destruct (1 <? i)%nat.
           ++ rewrite slice_to_le by lia. simpl.
              eexists; split; try reflexivity; repeat split.
           ++ eexists; split; try reflexivity; repeat split.
        -- eexists; split; try reflexivity; repeat split.
      * eexists; split; try reflexivity; repeat split.
    + apply IH. lia.
Qed.

Lemma parsePartialAddress_ok av address :
  exists r, parsePartialAddress av address = Ok r.
Proof.
  unfold parsePartialAddress.
  destruct (Nat.ltb_spec (List.length (Fields address)) 2) as [|H2].
  - eexists; reflexivity.
  - destruct (index_lt (Fields address) 0) as (first & -> & _); [lia|].
    cbn [bind].
    destruct (MatchString re_leading_digits first).
    + rewrite slice_from_le by lia. cbn [bind].
      destruct (state_loop_ok av (skipn 1 (Fields address))
                  (skipn 1 (Fields address)) 0
                  (with_StreetNumber first emptyAddress))
        as (r1 & -> & _); [reflexivity|]. cbn [bind].
      destruct (negb (StreetNumber r1 =? "")%string
                && (State r1 =? "")%string).
      * destruct (zip_loop_ok av (skipn 1 (Fields address))
                    (List.length (skipn 1 (Fields address))) r1)
          as (r2 & -> & _); [lia|]. cbn [bind]. eexists; reflexivity.
      * cbn [bind]. eexists; reflexivity.
    + cbn [bind].
      destruct (state_loop_ok av (Fields address) (Fields address) 0
                  emptyAddress) as (r1 & -> & _); [reflexivity|]. cbn [bind].
      destruct (negb (StreetNumber r1 =? "")%string
                && (State r1 =? "")%string).
      * destruct (zip_loop_ok av (Fields address)
                    (List.length (Fields address)) r1)
          as (r2 & -> & _); [lia|]. cbn [bind]. eexists; reflexivity.
      * cbn [bind]. eexists; reflexivity.
Qed.

Lemma parseFullAddress_ok s matches :
  FindStringSubmatch re_full 8 s = Some matches ->
  exists a, parseFullAddress matches = Ok (Some a).
Proof.
  unfold FindStringSubmatch.
  destruct (search re_full None s) as [[[m s'] caps]|]; [|discriminate].
  intros H. injection H as <-. simpl. eexists. reflexivity.
Qed.

Lemma parseSimpleAddress_ok s matches :
  FindStringSubmatch re_simple 6 s = Some matches ->
  exists a, parseSimpleAddress matches = Ok (Some a).
Proof.
  unfold FindStringSubmatch.
  destruct (search re_simple None s) as [[[m s'] caps]|]; [|discriminate].
  intros H. injection H as <-. simpl. eexists. reflexivity.
Qed.

Lemma parseAddress_ok av address :
  exists r, parseAddress av address = Ok r.
Proof.
  unfold parseAddress.
  destruct (FindStringSubmatch re_full 8 address) as [m|] eqn:E1.
  - destruct (parseFullAddress_ok _ _ E1) as (a & ->). eexists; reflexivity.
  - destruct (FindStringSubmatch re_simple 6 address) as [m|] eqn:E2.
    + destruct (parseSimpleAddress_ok _ _ E2) as (a & ->).
      eexists; reflexivity.
    + apply parsePartialAddress_ok.
Qed.

(** The classifier answers with one of the three constants of models.go. *)
Definition is_status (s : string) : Prop :=
  s = StatusValid \/ s = StatusCorrected \/ s = StatusUnverifiable.

Lemma validateComponents_status av addr :
  is_status (status (validateComponents av addr)).
Proof.
  unfold validateComponents, is_status.
  destruct addr as [addr|]; simpl; [|auto].
  destruct (2 <? List.length (missing_components av addr))%nat; simpl;
    [auto|].
  destruct (0 <? List.length (missing_components av addr))%nat; simpl; auto.
Qed.

(** What the engine answers when cleaning or parsing fails. *)
Definition failure (now : Z) (address msg : string) : AddressResponse :=
  mkAddressResponse StatusUnverifiable address None msg now.

Lemma pipeline_cases standardize validate now av address :
  (cleanAddress address = ""
   /\ pipeline standardize validate now av address
      = Ok (failure now address
              "Address is empty or contains only invalid characters", None))
  \/ (cleanAddress address <> ""
      /\ parseAddress av (cleanAddress address) = Ok None
      /\ pipeline standardize validate now av address
         = Ok (failure now address "Unable to parse address components",
               None))
  \/ (exists p,
        cleanAddress address <> ""
        /\ parseAddress av (cleanAddress address) = Ok (Some p)
        /\ pipeline standardize validate now av address
           = Ok (mkAddressResponse
                   (status (validate av (standardize av (Some p))))
                   address (standardize av (Some p))
                   (message (validate av (standardize av (Some p)))) now,
                 None)).
Proof.
  unfold pipeline.
  destruct (String.eqb_spec (cleanAddress address) "") as [E|E].
  - left. split; [exact E | reflexivity].
  - right.
    destruct (parseAddress_ok av (cleanAddress address)) as ([p|] & Hp);
      rewrite Hp; simpl.
    + right. exists p. repeat split; assumption.
    + left. repeat split; assumption.
Qed.

Lemma pipeline_fails now av address :
  cleanAddress address = ""
  \/ parseAddress av (cleanAddress address) = Ok None ->
  exists msg, forall standardize validate,
    pipeline standardize validate now av address
    = Ok (failure now address msg, None).
Proof.
  intros H. unfold pipeline.
  destruct (String.eqb_spec (cleanAddress address) "") as [E|E].
  - eexists. intros. reflexivity.
  - destruct H as [H|H]; [contradiction|]. rewrite H.
    eexists. intros. reflexivity.
Qed.

End GoFacts.

(** ** Standardizing twice *)

Module IdemFacts.
Import Go.

(** What [toTitleCase] does to one word. *)
Definition cap (word : string) : string :=
  match word with
  | String c rest => String (to_upper c) rest
  | EmptyString => word
  end.

(** What a table does to one word: the entries one after the other. *)
Definition expand (m : table) (w : string) : string :=
  fold_left (fun w e => if EqualFold (fst e) w then snd e else w) m w.

(** The same by one search, for a table in which no two keys are equal up
    to case and no replacement is another key. *)
Definition lookup_fold (m : table) (w : string) : string :=
  match find (fun e => EqualFold (fst e) w) m with
  | Some e => snd e
  | None => w
  end.

Definition entry_ok (e : string * string) : bool :=
  negb (is_empty (fst e)) && Str.forallb is_letter (fst e)
  && negb (is_empty (snd e)) && Str.forallb is_word (snd e).

Definition table_ok (m : table) : bool :=
  List.forallb (fun e1 => List.forallb (fun e2 =>
      implb (EqualFold (fst e2) (snd e1)) (snd e2 =? snd e1)%string
      && implb (EqualFold (fst e1) (fst e2)) (entry_eqb e1 e2)) m) m.

Lemma table_ok_spec m e1 e2 :
  table_ok m = true -> In e1 m -> In e2 m ->
  (EqualFold (fst e2) (snd e1) = true -> snd e2 = snd e1)
  /\ (EqualFold (fst e1) (fst e2) = true -> e1 = e2).
Proof.
  unfold table_ok. intros H I1 I2. rewrite forallb_forall in H.
  specialize (H e1 I1). rewrite forallb_forall in H. specialize (H e2 I2).
  apply andb_true_iff in H as [H1 H2]. split; intros E.
  - rewrite E in H1. apply String.eqb_eq. exact H1.
  - rewrite E in H2. apply entry_eqb_eq. exact H2.
Qed.

Lemma expand_stable m T e0 :
  table_ok T = true -> incl m T -> In e0 T -> expand m (snd e0) = snd e0.
Proof.
  intros HT. unfold expand. induction m as [|e m IH]; intros Hi H0;
    [reflexivity|].
  cbn [fold_left].
  assert (He : In e T) by (apply Hi; left; reflexivity).
  assert (Hm : incl m T) by (intros x Hx; apply Hi; right; exact Hx).
  destruct (EqualFold (fst e) (snd e0)) eqn:E.
  - rewrite (proj1 (table_ok_spec T e0 e HT H0 He) E). apply IH; assumption.
  - apply IH; assumption.
Qed.

Lemma expand_lookup T w :
  table_ok T = true ->
  forall m, incl m T ->
    (forall e, In e T -> EqualFold (fst e) w = true -> In e m) ->
    expand m w = lookup_fold T w.
Proof.
  intros HT. induction m as [|e m IH]; intros Hi Hall.
  - unfold lookup_fold.
    destruct (find _ T) as [e|] eqn:Ef; [|reflexivity].
    apply find_some in Ef as [I F]. destruct (Hall e I F).
  - assert (He : In e T) by (apply Hi; left; reflexivity).
    assert (Hm : incl m T) by (intros x Hx; apply Hi; right; exact Hx).
    unfold expand. cbn [fold_left].
    destruct (EqualFold (fst e) w) eqn:E.
    + fold (expand m (snd e)). rewrite (expand_stable m T e HT Hm He).
      unfold lookup_fold.
      destruct (find _ T) as [e'|] eqn:Ef.
      * apply find_some in Ef as [I F].
        assert (EE : EqualFold (fst e) (fst e') = true).
        { apply EqualFold_true. apply EqualFold_true in E, F. congruence. }
        rewrite (proj2 (table_ok_spec T e e' HT He I) EE). reflexivity.
      * rewrite (find_none _ _ Ef e He) in E. discriminate.
    + fold (expand m w). apply IH; [exact Hm|].
      intros e' I F. destruct (Hall e' I F) as [<- | H]; [|exact H].
      rewrite F in E. discriminate.
Qed.

Lemma expand_Permutation m T w :
  table_ok T = true -> Permutation m T -> expand m w = lookup_fold T w.
Proof.
  intros HT HP. apply expand_lookup; [exact HT | |].
  - intros e He. eapply Permutation_in; eauto.
  - intros e He _. eapply Permutation_in; [apply Permutation_sym|]; eauto.
Qed.

Lemma tables_ok :
  table_ok getStreetSuffixes = true
  /\ table_ok getCommonMisspellings = true
  /\ List.forallb entry_ok getStreetSuffixes = true
  /\ List.forallb entry_ok getCommonMisspellings = true.
Proof. repeat split; vm_compute; reflexivity. Qed.

Lemma forallb_Permutation {A : Type} (f : A -> bool) (l l' : list A) :
  Permutation l l' -> List.forallb f l = List.forallb f l'.
Proof.
  induction 1 as [|x l l' _ IH|x y l|l l' l'' _ IH1 _ IH2]; cbn [List.forallb].
  - reflexivity.
  - rewrite IH. reflexivity.
  - destruct (f x), (f y); reflexivity.
  - congruence.
Qed.

(** What the two tables do to one word, in any order. *)
Definition step (w : string) : string :=
  lookup_fold getCommonMisspellings (lookup_fold getStreetSuffixes w).

Lemma map_app f s : forall u,
  Str.map f (s ++ u)%string = (Str.map f s ++ Str.map f u)%string.
Proof.
  induction s as [|c s IH]; intros u; cbn [String.append Str.map];
    [reflexivity | rewrite IH; reflexivity].
Qed.

Lemma ToLower_join ws :
  ToLower (Join ws " ") = Join (List.map ToLower ws) " ".
Proof.
  unfold ToLower, Join. induction ws as [|w ws IH]; [reflexivity|].
  cbn [String.concat List.map]. destruct ws as [|w' ws]; [reflexivity|].
  rewrite map_app. cbn [List.map] in IH |- *. f_equal.
  cbn [String.append Str.map]. f_equal. exact IH.
Qed.

Lemma forallb_map p f s :
  Str.forallb p (Str.map f s) = Str.forallb (fun c => p (f c)) s.
Proof.
  induction s as [|c s IH]; cbn [Str.map Str.forallb];
    [reflexivity | rewrite IH; reflexivity].
Qed.

(** A lower-case character. *)
Definition lowchar (c : ascii) : bool := (to_lower c =? c)%char.

Lemma lower_city_char c :
  is_ascii c = true ->
  is_ascii (to_lower c) && (is_space (to_lower c) || lowchar (to_lower c))
  = true.
Proof.
  destruct c as [[] [] [] [] [] [] [] []]; intros H;
    solve [discriminate H | reflexivity].
Qed.

Lemma lower_upper c : (to_lower c =? c)%char = true ->
  to_lower (to_upper c) = c.
Proof.
  destruct c as [[] [] [] [] [] [] [] []]; intros H;
    solve [discriminate H | reflexivity].
Qed.

Lemma upper_plain_char c : plain c = true -> plain (to_upper c) = true.
Proof.
  destruct c as [[] [] [] [] [] [] [] []]; intros H;
    solve [discriminate H | reflexivity].
Qed.

Lemma toTitleCase_cap s :
  toTitleCase s = Join (List.map cap (Fields (ToLower s))) " ".
Proof. reflexivity. Qed.

Lemma lower_fixed q w :
  (forall c, q c = true -> (to_lower c =? c)%char = true) ->
  word_of q w -> ToLower w = w.
Proof.
  intros Hq [_ Hw]. apply map_fixed. revert Hw. apply forallb_impl.
  intros c Hc. apply andb_true_iff in Hc as [_ Hc]. apply Hq. exact Hc.
Qed.

Lemma ToLower_cap w : ToLower w = w -> ToLower (cap w) = w.
Proof.
  destruct w as [|c w]; [reflexivity|]. unfold ToLower.
  cbn [cap Str.map]. intros H. injection H as Hc Hw.
  rewrite Hw. f_equal. apply lower_upper. rewrite Hc. apply Ascii.eqb_refl.
Qed.

Lemma cap_plain w : word_of lowchar w -> word_of (fun _ => true) (cap w).
Proof.
  intros [Hne Hw]. destruct w as [|c w]; [contradiction|].
  split; [discriminate|]. cbn [cap Str.forallb] in *.
  apply andb_true_iff in Hw as [Hc Hw]. apply andb_true_iff. split.
  - apply andb_true_iff in Hc as [Hp _].
    rewrite (upper_plain_char c Hp). reflexivity.
  - revert Hw. apply forallb_impl. intros x Hx.
    apply andb_true_iff in Hx as [Hp _]. rewrite Hp. reflexivity.
Qed.

Lemma city_words s :
  Str.forallb is_ascii s = true ->
  Forall (word_of lowchar) (Fields (ToLower (TrimSpace s))).
Proof.
  intros H. apply (TrimSpace_forallb _ s) in H.
  assert (Hl : Str.forallb
                 (fun c => is_ascii c && (is_space c || lowchar c))
                 (ToLower (TrimSpace s)) = true).
  { unfold ToLower. rewrite forallb_map. revert H. apply forallb_impl.
    apply lower_city_char. }
  unfold Fields. rewrite fields_go_ascii.
  - apply fields_ascii_words; [exact Hl | reflexivity].
  - revert Hl. apply forallb_impl. intros c Hc.
    apply andb_true_iff in Hc as [Hc _]. exact Hc.
Qed.

(** One word, standardized twice. *)
Lemma step_idem w :
  ToLower w = w -> step (cap (ToLower (step (cap w)))) = step (cap w).
Proof.
  intros Hw.
  assert (HS : List.forallb (fun e =>
            (step (cap (ToLower (lookup_fold getCommonMisspellings (snd e))))
             =? lookup_fold getCommonMisspellings (snd e))%string)
            getStreetSuffixes = true) by (vm_compute; reflexivity).
  assert (HM : List.forallb (fun e =>
            (step (cap (ToLower (snd e))) =? snd e)%string)
            getCommonMisspellings = true) by (vm_compute; reflexivity).
  rewrite forallb_forall in HS, HM.
  unfold step at 2 3. unfold lookup_fold at 2 4.
  destruct (find _ getStreetSuffixes) as [e|] eqn:E1.
  - apply find_some in E1 as [I1 _]. apply String.eqb_eq.
    apply (HS e I1).
  - unfold lookup_fold at 1 2.
    destruct (find _ getCommonMisspellings) as [e|] eqn:E2.
    + apply find_some in E2 as [I2 _]. apply String.eqb_eq.
      apply (HM e I2).
    + rewrite (ToLower_cap w Hw). unfold step, lookup_fold.
      rewrite E1, E2. reflexivity.
Qed.

(** The city, standardized twice. *)
Lemma standardizeCity_idem s :
  Str.forallb is_ascii s = true ->
  standardizeCity (standardizeCity s) = standardizeCity s.
Proof.
  intros Hs. pose proof (city_words s Hs) as Hws.
  unfold standardizeCity. rewrite !toTitleCase_cap.
  set (ws := Fields (ToLower (TrimSpace s))) in *.
  assert (Hc : Forall (word_of (fun _ => true)) (List.map cap ws)).
  { apply Forall_map. eapply Forall_impl; [|exact Hws]. apply cap_plain. }
  rewrite (TrimSpace_join _ _ Hc), ToLower_join, map_map.
  assert (Hm : List.map (fun w => ToLower (cap w)) ws = ws).
  { rewrite <- (map_id ws) at 2. apply map_ext_in. intros w Hw.
    apply ToLower_cap. rewrite Forall_forall in Hws.
    apply (lower_fixed lowchar w (fun c H => H) (Hws w Hw)). }
  rewrite Hm. rewrite (Fields_join lowchar ws Hws). reflexivity.
Qed.

(** The state, standardized twice. *)
Lemma standardizeState_idem av1 av2 s :
  tables_of av1 -> tables_of av2 ->
  standardizeState av2 (standardizeState av1 s) = standardizeState av1 s.
Proof.
  intros H1 H2.
  rewrite (standardizeState_tables av1 s H1),
    (standardizeState_tables av2 _ H2).
  assert (Hu : forall u, TrimSpace (ToUpper u) = u ->
            standardizeState NewAddressValidator u
            = if has_key getStateAbbreviations u then u
              else match find (fun '(_, fullName) => EqualFold u fullName)
                           getStateAbbreviations with
                   | Some (abbrev, _) => abbrev
                   | None => u
                   end).
  { intros u Eu. unfold standardizeState.
    cbn [stateAbbreviations NewAddressValidator]. rewrite Eu. reflexivity. }
  assert (Htrim : TrimSpace (ToUpper (TrimSpace (ToUpper s)))
                  = TrimSpace (ToUpper s)).
  { rewrite ToUpper_TrimSpace_ToUpper. apply TrimSpace_idem. }
  unfold standardizeState at 2 3.
  cbn [stateAbbreviations NewAddressValidator].
  destruct (has_key getStateAbbreviations (TrimSpace (ToUpper s))) eqn:Ek.
  - rewrite (Hu _ Htrim), Ek. reflexivity.
  - destruct (find _ getStateAbbreviations) as [[abbrev fullName]|] eqn:Ef.
    + apply find_some in Ef as [Hin _].
      assert (Hall : List.forallb (fun e =>
                (standardizeState NewAddressValidator (fst e) =? fst e)%string)
                getStateAbbreviations = true) by (vm_compute; reflexivity).
      rewrite forallb_forall in Hall. apply String.eqb_eq.
      apply (Hall _ Hin).
    + rewrite (Hu _ Htrim), Ek, Ef. reflexivity.
Qed.

(** The full address is a function of the other fields. *)
Definition full_of (number name unit city state zip plus4 : string)
  : string :=
  buildFullAddress
    (mkValidatedAddress number name unit city state zip plus4 "" "").

Definition std_field (f : string -> string) (x : string) : string :=
  if negb (x =? "")%string then f x else x.

Lemma standardizeAddress_fields av p :
  standardizeAddress av (Some p)
  = Some (mkValidatedAddress (StreetNumber p)
            (std_field (standardizeStreetName av) (StreetName p))
            (Unit p)
            (std_field standardizeCity (City p))
            (std_field (standardizeState av) (State p))
            (ZipCode p) (ZipPlus4 p) (County p)
            (full_of (StreetNumber p)
               (std_field (standardizeStreetName av) (StreetName p))
               (Unit p)
               (std_field standardizeCity (City p))
               (std_field (standardizeState av) (State p))
               (ZipCode p) (ZipPlus4 p))).
Proof.
  destruct p as [num name unit city state zip zip4 county full].
  unfold standardizeAddress, std_field.
  cbn [StreetNumber StreetName Unit City State ZipCode ZipPlus4 County].
  destruct (negb (name =? "")%string);
    unfold with_StreetName;
    cbn [StreetNumber StreetName Unit City State ZipCode ZipPlus4 County
         FullAddress];
    (destruct (negb (city =? "")%string);
     unfold with_City;
     cbn [StreetNumber StreetName Unit City State ZipCode ZipPlus4 County
          FullAddress];
     (destruct (negb (state =? "")%string); reflexivity)).
Qed.

Lemma std_field_twice (f g : string -> string) x :
  g (f x) = f x -> std_field g (std_field f x) = std_field f x.
Proof.
  intros H. unfold std_field.
  destruct (String.eqb_spec x "") as [->|Hx]; cbn [negb]; [reflexivity|].
  destruct (String.eqb_spec (f x) "") as [E|E]; cbn [negb];
    [reflexivity | exact H].
Qed.

End IdemFacts.

(** ** The fallback parser *)

Module ParserFacts.
Import Go GoFacts.

Lemma leading_digit first :
  MatchString re_leading_digits first = true ->
  exists d rest, first = String d rest /\ is_digit d = true.
Proof.
  unfold MatchString, re_leading_digits. rewrite search_Bol.
  destruct first as [|d rest]; [discriminate|].
  unfold match_here. cbn [rmatch Plus].
  destruct (is_digit d) eqn:E; [|discriminate].
  intros _. exists d, rest. split; [reflexivity | exact E].
Qed.

Lemma digit_plain d : is_digit d = true -> plain d = true.
Proof.
  destruct d as [[] [] [] [] [] [] [] []]; intros H;
    solve [discriminate H | reflexivity].
Qed.

Lemma digit_upper d : is_digit d = true -> to_upper d = d.
Proof.
  destruct d as [[] [] [] [] [] [] [] []]; intros H;
    solve [discriminate H | reflexivity].
Qed.

(** No state and no state name starts with a digit. *)
Lemma digit_token_not_state av first :
  tables_of av ->
  MatchString re_leading_digits first = true -> isState av first = false.
Proof.
  intros Hav H. rewrite (isState_tables av first Hav).
  destruct (leading_digit first H) as (d & rest & -> & Hd).
  unfold isState.
  destruct (TrimSpace_head d rest (digit_plain d Hd)) as (rest' & ->).
  unfold ToUpper. cbn [Str.map]. rewrite (digit_upper d Hd).
  destruct d as [[] [] [] [] [] [] [] []]; try discriminate Hd; reflexivity.
Qed.

Lemma isState_nonempty av tok :
  tables_of av -> isState av tok = true -> ToUpper tok <> "".
Proof.
  intros Hav H. rewrite (isState_tables av tok Hav) in H.
  destruct tok; [discriminate H | discriminate].
Qed.

Lemma existsb_split {A : Type} (f : A -> bool) (l : list A) :
  existsb f l = true ->
  exists before x after,
    l = before ++ x :: after
    /\ List.forallb (fun y => negb (f y)) before = true /\ f x = true.
Proof.
  induction l as [|a l IH]; simpl; [discriminate|].
  destruct (f a) eqn:E.
  - intros _. exists [], a, l. repeat split. exact E.
  - intros H. destruct (IH H) as (before & x & after & -> & Hb & Hx).
    exists (a :: before), x, after. simpl. rewrite E, Hb. repeat split.
    exact Hx.
Qed.

Lemma skipn_S_tl {A : Type} (l : list A) i x rest :
  skipn i l = x :: rest -> skipn (S i) l = rest.
Proof.
  revert l. induction i as [|i IH]; intros [|a l] H; simpl in *;
    try discriminate.
  - injection H as _ <-. reflexivity.
  - apply IH. destruct i; exact H.
Qed.

Lemma skipn_cons_length {A : Type} (l : list A) i x rest :
  skipn i l = x :: rest -> List.length l = i + S (List.length rest).
Proof.
  intros H. pose proof (f_equal (@List.length A) H) as HL.
  rewrite length_skipn in HL. cbn [List.length] in HL.
  assert (i < List.length l).
  { destruct (Nat.lt_ge_cases i (List.length l)) as [|Hge]; [assumption|].
    rewrite skipn_all2 in H by exact Hge. discriminate. }
  lia.
Qed.

Lemma state_loop_none av parts : forall rest i result,
  List.forallb (fun q => negb (isState av q)) rest = true ->
  state_loop av parts i rest result = Ok result.
Proof.
  induction rest as [|part rest IH]; intros i result H; simpl in *;
    [reflexivity|].
  apply andb_true_iff in H as [H1 H2]. apply negb_true_iff in H1.
  rewrite H1. apply IH. exact H2.
Qed.

(** The first loop stops at the first state: the state is that token in
    upper case, the city is what stands in front of it, the ZIP is the
    token behind it when it has the shape of one. *)
Lemma state_loop_found av parts tok after : forall before i result,
  skipn i parts = before ++ tok :: after ->
  List.forallb (fun q => negb (isState av q)) before = true ->
  isState av tok = true ->
  exists r,
    state_loop av parts i (before ++ tok :: after) result = Ok r
    /\ State r = ToUpper tok
    /\ StreetNumber r = StreetNumber result
    /\ StreetName r = StreetName result
    /\ City r = (if (0 <? i + List.length before)%nat
                 then Join (firstn (i + List.length before) parts) " "
                 else City result)
    /\ ZipCode r = match after with
                   | z :: _ => if isZipCode z then z else ZipCode result
                   | [] => ZipCode result
                   end.
Proof.
  induction before as [|q before IH]; intros i result Hskip Hb Htok.
  - cbn [app] in *. cbn [state_loop]. rewrite Htok.
    pose proof (skipn_cons_length _ _ _ _ Hskip) as HL.
    rewrite slice_to_le by lia. cbn [List.length]. rewrite Nat.add_0_r.
    assert (Hnext : nth_error parts (i + 1) = nth_error after 0).
    { rewrite <- (nth_error_skipn i parts 1), Hskip. reflexivity. }
    destruct (0 <? i)%nat; cbn [bind];
      (destruct after as [|z after];
       [ destruct (Nat.ltb_spec i (List.length parts - 1));
         [cbn [List.length] in HL; lia|];
         eexists; split; [reflexivity|]; repeat split
       | destruct (Nat.ltb_spec i (List.length parts - 1));
         [|cbn [List.length] in HL; lia];
         unfold index; rewrite Hnext; cbn [nth_error bind];
         destruct (isZipCode z); eexists; split; try reflexivity;
         repeat split ]).
  - cbn [app] in *. cbn [List.forallb] in Hb.
    apply andb_true_iff in Hb as [Hq Hb]. apply negb_true_iff in Hq.
    cbn [state_loop]. rewrite Hq.
    destruct (IH (S i) result (skipn_S_tl _ _ _ _ Hskip) Hb Htok)
      as (r & Hr & HS & HN & HM & HC & HZ).
    exists r. split; [exact Hr|]. repeat split; try assumption.
    rewrite HC. cbn [List.length].
    replace (i + S (List.length before)) with (S i + List.length before)
      by lia.
    reflexivity.
Qed.

(** The tokens the loops of [parsePartialAddress] run over: all of them,
    or all but the street number. *)
Definition remaining_parts (address : string) : list string :=
  match Fields address with
  | first :: tail =>
      if MatchString re_leading_digits first then tail
      else first :: tail
  | [] => []
  end.

(** [parsePartialAddress], loop by loop. *)
Lemma parsePartialAddress_steps av address r :
  parsePartialAddress av address = Ok (Some r) ->
  exists r0 r1 r2,
    StreetName r0 = "" /\ City r0 = "" /\ State r0 = ""
    /\ state_loop av (remaining_parts address) 0 (remaining_parts address) r0
       = Ok r1
    /\ (if negb (StreetNumber r1 =? "")%string && (State r1 =? "")%string
        then zip_loop av (remaining_parts address)
               (List.length (remaining_parts address)) r1
        else Ok r1) = Ok r2
    /\ r = (if negb (StreetNumber r2 =? "")%string
               && (City r2 =? "")%string && (State r2 =? "")%string
            then with_StreetName (Join (remaining_parts address) " ") r2
            else r2).
Proof.
  unfold parsePartialAddress, remaining_parts.
  destruct (Fields address) as [|first [|second tail]]; try discriminate.
  cbn [List.length Nat.ltb Nat.leb index nth_error bind].
  destruct (MatchString re_leading_digits first).
  - cbn [slice_from List.length Nat.leb skipn bind].
    set (parts := second :: tail). set (r0 := with_StreetNumber first _).
    destruct (state_loop av parts 0 parts r0) as [r1|] eqn:E1;
      [|discriminate]. cbn [bind].
    match goal with |- context [bind ?m _] => destruct m as [r2|] eqn:E2 end;
      [|discriminate]. cbn [bind]. intros H. injection H as <-.
    exists r0, r1, r2. repeat split; assumption.
  - cbn [bind].
    set (parts := first :: second :: tail).
    destruct (state_loop av parts 0 parts emptyAddress) as [r1|] eqn:E1;
      [|discriminate]. cbn [bind].
    match goal with |- context [bind ?m _] => destruct m as [r2|] eqn:E2 end;
      [|discriminate]. cbn [bind]. intros H. injection H as <-.
    exists emptyAddress, r1, r2. repeat split; assumption.
Qed.

(** What the fallback parser returns when a token is a state. *)
Lemma parsePartialAddress_state av address r before tok after :
  tables_of av ->
  parsePartialAddress av address = Ok (Some r) ->
  remaining_parts address = before ++ tok :: after ->
  List.forallb (fun q => negb (isState av q)) before = true ->
  isState av tok = true ->
  State r = ToUpper tok /\ State r <> "" /\ StreetName r = ""
  /\ City r = match before with [] => "" | _ => Join before " " end.
Proof.
  intros Hav Hp Hrem Hb Htok.
  destruct (parsePartialAddress_steps av address r Hp)
    as (r0 & r1 & r2 & HN0 & HC0 & HS0 & H1 & H2 & ->).
  rewrite Hrem in H1.
  destruct (state_loop_found av (before ++ tok :: after) tok after before 0
              r0 eq_refl Hb Htok)
    as (r1' & Hr1 & HS & _ & HN & HC & _).
  rewrite Hr1 in H1. injection H1 as <-.
  pose proof (isState_nonempty av tok Hav Htok) as Hne.
  assert (HSe : (State r1' =? "")%string = false)
    by (apply String.eqb_neq; rewrite HS; exact Hne).
  rewrite HSe, andb_false_r in H2. injection H2 as <-.
  rewrite HSe, andb_false_r.
  repeat split.
  - exact HS.
  - rewrite HS. exact Hne.
  - rewrite HN. exact HN0.
  - rewrite HC. cbn [Nat.add]. destruct before as [|q before].
    + cbn [List.length Nat.ltb Nat.leb]. exact HC0.
    + cbn [List.length Nat.ltb Nat.leb].
      replace (firstn (S (List.length before)) ((q :: before) ++ tok :: after))
        with (q :: before); [reflexivity|].
      change (S (List.length before)) with (List.length (q :: before)).
      rewrite firstn_app, firstn_all, Nat.sub_diag.
      cbn [firstn]. rewrite app_nil_r. reflexivity.
Qed.

(** A result of the fallback parser has no street name unless it has
    neither city nor state. *)
Lemma parsePartialAddress_street av address r :
  parsePartialAddress av address = Ok (Some r) ->
  StreetName r = "" \/ (City r = "" /\ State r = "").
Proof.
  intros Hp.
  destruct (parsePartialAddress_steps av address r Hp)
    as (r0 & r1 & r2 & HN0 & _ & _ & H1 & H2 & ->).
  destruct (state_loop_ok av (remaining_parts address)
              (remaining_parts address) 0 r0 eq_refl)
    as (r1' & Hr1 & _ & HN1).
  rewrite Hr1 in H1. injection H1 as ->.
  assert (HN2 : StreetName r2 = "").
  { destruct (negb (StreetNumber r1 =? "")%string
              && (State r1 =? "")%string).
    - destruct (zip_loop_ok av (remaining_parts address)
                  (List.length (remaining_parts address)) r1 (le_n _))
        as (r2' & Hr2 & _ & HN2).
      rewrite Hr2 in H2. injection H2 as ->. congruence.
    - injection H2 as <-. congruence. }
  destruct (negb (StreetNumber r2 =? "")%string) eqn:E0; cbn [andb];
    [|left; exact HN2].
  destruct (String.eqb_spec (City r2) ""); cbn [andb]; [|left; exact HN2].
  destruct (String.eqb_spec (State r2) ""); [|left; exact HN2].
  right. split; assumption.
Qed.

Lemma state_loop_tables av parts : tables_of av ->
  forall rest i result,
    state_loop av parts i rest result
    = state_loop NewAddressValidator parts i rest result.
Proof.
  intros Hav. induction rest as [|part rest IH]; intros i result;
    cbn [state_loop]; [reflexivity|].
  rewrite (isState_tables av part Hav).
  destruct (isState NewAddressValidator part); [reflexivity | apply IH].
Qed.

Lemma zip_loop_tables av parts : tables_of av ->
  forall n result,
    zip_loop av parts n result = zip_loop NewAddressValidator parts n result.
Proof.
  intros Hav. induction n as [|i IH]; intros result; cbn [zip_loop];
    [reflexivity|].
  destruct (index parts i) as [part|]; cbn [bind]; [|reflexivity].
  destruct (isZipCode part); [|apply IH].
  destruct (0 <? i)%nat; [|reflexivity].
  destruct (index parts (i - 1)) as [prev|]; cbn [bind]; [|reflexivity].
  rewrite (isState_tables av prev Hav). reflexivity.
Qed.

(** Parsing does not depend on the iteration order. *)
Lemma parseAddress_tables av address :
  tables_of av ->
  parseAddress av address = parseAddress NewAddressValidator address.
Proof.
  intros Hav. unfold parseAddress.
  destruct (FindStringSubmatch re_full 8 address); [reflexivity|].
  destruct (FindStringSubmatch re_simple 6 address); [reflexivity|].
  unfold parsePartialAddress.
  destruct (List.length (Fields address) <? 2)%nat; [reflexivity|].
  destruct (index (Fields address) 0) as [first|]; cbn [bind];
    [|reflexivity].
  match goal with |- bind ?m _ = bind ?m _ =>
    destruct m as [[result parts]|] end; cbn [bind]; [|reflexivity].
  rewrite (state_loop_tables av parts Hav).
  destruct (state_loop NewAddressValidator parts 0 parts result) as [r1|];
    cbn [bind]; [|reflexivity].
  destruct (negb (StreetNumber r1 =? "")%string && (State r1 =? "")%string);
    [|reflexivity].
  rewrite (zip_loop_tables av parts Hav). reflexivity.
Qed.

(** A text that no entry of a table changes is not changed by the table,
    in any order. *)
Lemma replace_words_noop (m m' : table) s :
  Permutation m m' ->
  List.forallb (fun e => (ReplaceAllString (re_word (fst e)) s (snd e) =? s)
                         %string) m' = true ->
  replace_words m s = s.
Proof.
  intros HP Hall. rewrite forallb_forall in Hall.
  assert (H : forall e, In e m ->
            ReplaceAllString (re_word (fst e)) s (snd e) = s).
  { intros e He. apply String.eqb_eq. apply Hall.
    eapply Permutation_in; eauto. }
  clear HP Hall. unfold replace_words.
  induction m as [|[k f] m IH]; cbn [fold_left]; [reflexivity|].
  pose proof (H (k, f) (or_introl eq_refl)) as Hk. cbn [fst snd] in Hk.
  rewrite Hk. apply IH. intros e He. apply H. right. exact He.
Qed.

End ParserFacts.

(** ** The counting classifier *)

Module ClassifierFacts.
Import Go.

(** [n] digits at the head of [s], and what follows them. *)
Fixpoint digits (n : nat) (s : string) : option string :=
  match n with
  | 0 => Some s
  | S m =>
      match s with
      | String c s' => if is_digit c then digits m s' else None
      | EmptyString => None
      end
  end.

(** Five digits, and then nothing or a hyphen and four digits. *)
Definition spec_zip (s : string) : bool :=
  match digits 5 s with
  | Some EmptyString => true
  | Some (String c t) =>
      ("-" =? c)%char
      && match digits 4 t with Some EmptyString => true | _ => false end
  | None => false
  end.

Ltac zip_step :=
  match goal with
  | |- context [match ?s with EmptyString => _ | String _ _ => _ end] =>
      is_var s; destruct s
  | |- context [if is_digit ?c then _ else _] => destruct (is_digit c)
  | |- context [if Ascii.eqb ?a ?c then _ else _] => destruct (Ascii.eqb a c)
  | |- context [Ascii.eqb ?a ?c && _] => destruct (Ascii.eqb a c)
  end; cbn [rmatch digits andb]; try reflexivity.

(** The pattern [^\d{5}(-\d{4})?$] accepts exactly these texts. *)
Lemma isZipCode_spec s : isZipCode s = spec_zip s.
Proof.
  unfold isZipCode, MatchString, re_zip. cbn [Seqs]. rewrite search_Bol.
  unfold match_here, spec_zip, Chr. cbn [rmatch Rep digits].
  repeat zip_step.
Qed.

(** The known set: the 51 two-letter codes. *)
Definition known_states : list string := List.map fst getStateAbbreviations.

Lemma known_states_51 : List.length known_states = 51.
Proof. reflexivity. Qed.

Definition in_known (s : string) : bool := existsb (String.eqb s) known_states.

Lemma has_key_known s : has_key getStateAbbreviations s = in_known s.
Proof.
  rewrite TableFacts.has_key_existsb. unfold in_known, known_states.
  induction getStateAbbreviations as [|[k v] m IH]; cbn [existsb List.map fst];
    [reflexivity|].
  rewrite IH, (String.eqb_sym k s). reflexivity.
Qed.

(** The classifier as the specification words it: the components that are
    missing or invalid, their number, and the decision table. *)
Definition spec_issues (a : ValidatedAddress) : list string :=
  (if (StreetNumber a =? "")%string then ["street number"] else [])
  ++ (if (StreetName a =? "")%string then ["street name"] else [])
  ++ (if (City a =? "")%string then ["city"] else [])
  ++ (if (State a =? "")%string then ["state"]
      else if in_known (State a) then [] else ["valid state"])
  ++ (if (ZipCode a =? "")%string then ["ZIP code"]
      else if spec_zip (ZipCode a) then [] else ["valid ZIP code"]).

Definition one_if (b : bool) : nat := if b then 1 else 0.

Definition spec_count (a : ValidatedAddress) : nat :=
  one_if (StreetNumber a =? "")%string
  + one_if (StreetName a =? "")%string
  + one_if (City a =? "")%string
  + one_if (State a =? "")%string
  + one_if (ZipCode a =? "")%string
  + one_if (negb (State a =? "")%string && negb (in_known (State a)))
  + one_if (negb (ZipCode a =? "")%string && negb (spec_zip (ZipCode a))).

Definition spec_classify (a : ValidatedAddress) : validationResult :=
  let n := spec_count a in
  let list := Join (spec_issues a) ", " in
  if (n =? 0)%nat then
    mkValidationResult "valid" "Address is valid and standardized"
  else if (n <=? 2)%nat then
    mkValidationResult "corrected"
      ("Address standardized but missing: " ++ list)
  else
    mkValidationResult "unverifiable"
      ("Missing critical components: " ++ list).

Lemma spec_issues_count a : List.length (spec_issues a) = spec_count a.
Proof.
  unfold spec_issues, spec_count, one_if.
  destruct (StreetNumber a =? "")%string, (StreetName a =? "")%string,
    (City a =? "")%string, (State a =? "")%string, (in_known (State a)),
    (ZipCode a =? "")%string, (spec_zip (ZipCode a)); reflexivity.
Qed.

Lemma missing_components_spec av a :
  tables_of av -> ToUpper (State a) = State a ->
  missing_components av a = spec_issues a.
Proof.
  intros Hav Hup. unfold missing_components, spec_issues, isValidZipCode.
  rewrite (TableFacts.isValidState_tables av _ Hav). unfold isValidState.
  cbn [stateAbbreviations NewAddressValidator].
  rewrite Hup, has_key_known, isZipCode_spec.
  destruct (StreetNumber a =? "")%string, (StreetName a =? "")%string,
    (City a =? "")%string, (State a =? "")%string, (in_known (State a)),
    (ZipCode a =? "")%string, (spec_zip (ZipCode a)); reflexivity.
Qed.

Lemma validateComponents_spec av a :
  tables_of av -> ToUpper (State a) = State a ->
  validateComponents av (Some a) = spec_classify a.
Proof.
  intros Hav Hup. unfold validateComponents, spec_classify.
  rewrite (missing_components_spec av a Hav Hup), spec_issues_count.
  unfold StatusUnverifiable, StatusCorrected, StatusValid.
  destruct (spec_count a) as [|[|[|n]]]; reflexivity.
Qed.

(** The Standardizer hands over states in upper case. *)
Lemma standardizeState_upper av s :
  tables_of av -> ToUpper (standardizeState av s) = standardizeState av s.
Proof.
  intros Hav. rewrite (TableFacts.standardizeState_tables av s Hav).
  unfold standardizeState. cbn [stateAbbreviations NewAddressValidator].
  destruct (has_key _ _); [apply ToUpper_TrimSpace_ToUpper|].
  destruct (find _ getStateAbbreviations) as [[abbrev fullName]|] eqn:Ef;
    [|apply ToUpper_TrimSpace_ToUpper].
  apply find_some in Ef as [Hin _].
  assert (Hall : List.forallb (fun e => (ToUpper (fst e) =? fst e)%string)
                   getStateAbbreviations = true) by (vm_compute; reflexivity).
  rewrite forallb_forall in Hall. apply (Hall _) in Hin.
  apply String.eqb_eq in Hin. exact Hin.
Qed.

Lemma standardizeAddress_upper av p a :
  tables_of av ->
  standardizeAddress av (Some p) = Some a -> ToUpper (State a) = State a.
Proof.
  intros Hav H. unfold standardizeAddress in H. injection H as <-.
  cbn [State with_FullAddress].
  match goal with
  |- context [if negb (State ?x =? "")%string then _ else _] =>
    destruct (String.eqb_spec (State x) "") as [E|E]; cbn [negb]
  end.
  - rewrite E. reflexivity.
  - cbn [State with_State]. apply standardizeState_upper. exact Hav.
Qed.

End ClassifierFacts.

Module TSFacts.
Import TS.

Lemma extractZipCode_loop_ok parts : forall n,
  n <= List.length parts -> exists r, extractZipCode_loop parts n = Ok r.
Proof.
  induction n as [|i IH]; intros Hn; simpl.
  - eexists; reflexivity.
  - destruct (index_lt parts i) as (part & -> & _); [lia|]. cbn [bind].
    destruct (search zipPattern None part) as [[[m s'] caps]|].
    + eexists; reflexivity.
    + apply IH. lia.
Qed.

Lemma extractState_loop_ok parts : forall n,
  n <= List.length parts -> exists r, extractState_loop parts n = Ok r.
Proof.
  induction n as [|i IH]; intros Hn; simpl.
  - eexists; reflexivity.
  - destruct (index_lt parts i) as (part & -> & _); [lia|]. cbn [bind].
    match goal with |- context [if ?c then _ else _] => destruct c end.
    + eexists; reflexivity.
    + apply IH. lia.
Qed.

Lemma extractStreetNumber_ok parts :
  exists r, extractStreetNumber parts = Ok r.
Proof.
  unfold extractStreetNumber. destruct parts as [|first rest].
  - eexists; reflexivity.
  - destruct (MatchString numberPattern first); [|eexists; reflexivity].
    destruct (or_null (Some first)); eexists; reflexivity.
Qed.

Lemma streetAndCity_ok streetNumber parts :
  exists r, streetAndCity streetNumber parts = Ok r.
Proof.
  unfold streetAndCity.
  destruct (0 <? List.length parts)%nat; [|eexists; reflexivity].
  destruct (Nat.leb_spec 2 (List.length parts)).
  - destruct (index_lt parts (List.length parts - 1)) as (q & -> & _);
      [lia|]. cbn [bind].
    destruct (includes (keys streetAbbreviations) (toLowerCase q)).
    + eexists; reflexivity.
    + destruct (pop parts). eexists; reflexivity.
  - destruct (negb (absent streetNumber)); [eexists; reflexivity|].
    destruct (MatchString streetIndicators (Join parts " "));
      eexists; reflexivity.
Qed.

Lemma split_go_length s : forall cur, 1 <= List.length (split_go s cur).
Proof.
  induction s as [|c s IH]; intros cur; simpl.
  - lia.
  - destruct (c =? " ")%char; simpl; [lia | apply IH].
Qed.

Lemma expandStreetType_ok streetName :
  exists r, expandStreetType streetName = Ok r.
Proof.
  unfold expandStreetType.
  pose proof (split_go_length streetName EmptyString) as H.
  fold (split streetName) in H.
  destruct (index_lt (split streetName) (List.length (split streetName) - 1))
    as (w & -> & _); [lia|]. cbn [bind].
  destruct (get_truthy streetAbbreviations (toLowerCase w));
    eexists; reflexivity.
Qed.

(** The status and the confidence of a result, from the components that
    were found and the correction notes. *)
Definition status_of (parsed : ValidatedAddress) (corrections : list string)
  : string :=
  let status :=
    if (0 <? List.length corrections)%nat then "corrected" else "valid" in
  if PrimFloat.ltb (calculateConfidence parsed corrections) 0.3%float
     || (absent (streetName parsed) && absent (city parsed))
  then "unverifiable" else status.

Definition rounded (confidence : float) : float :=
  PrimFloat.div (Math_round (PrimFloat.mul confidence 100%float)) 100%float.

Definition without_formatted (v : ValidatedAddress) : ValidatedAddress :=
  mkValidatedAddress (streetNumber v) (streetName v) (city v) (state v)
    (zipCode v) "".

Definition notes (r : AddressValidationResult) : list string :=
  match corrections r with Some l => l | None => [] end.

(** The two ways [validateAddress] ends. *)
Lemma validateAddress_cases address :
  (tokens address = []
   /\ validateAddress address
      = Ok (mkResult "unverifiable" 0.0%float address None
              (Some ["Empty or invalid address provided"])))
  \/ (tokens address <> []
      /\ exists r v,
           validateAddress address = Ok r
           /\ validated r = Some v
           /\ original r = address
           /\ List.length (notes r) <= 2
           /\ status r = status_of (without_formatted v) (notes r)
           /\ confidence r
              = rounded (calculateConfidence (without_formatted v) (notes r))).
Proof.
  unfold validateAddress.
  destruct (tokens address) as [|t0 ts] eqn:Et.
  - left. split; reflexivity.
  - right. split; [discriminate|].
    cbn [List.length Nat.eqb].
    destruct (extractZipCode_loop_ok (t0 :: ts) (List.length (t0 :: ts)))
      as ([zip p1] & Hz); [lia|].
    unfold extractZipCode. rewrite Hz. cbn [bind].
    destruct (extractState_loop_ok p1 (List.length p1)) as ([st p2] & Hs);
      [lia|].
    unfold extractState. rewrite Hs. cbn [bind].
    destruct (extractStreetNumber_ok p2) as ([num p3] & ->). cbn [bind].
    destruct (streetAndCity_ok num p3) as ([name cty] & ->). cbn [bind].
    assert (Hfin : forall name' cty' corr,
      List.length corr <= 2 ->
      exists r v,
        Ok (mkResult
              (if PrimFloat.ltb
                    (calculateConfidence
                       (mkValidatedAddress num name' cty' st zip "") corr)
                    0.3%float
                  || (absent name' && absent cty')
               then "unverifiable"
               else if (0 <? List.length corr)%nat then "corrected"
                    else "valid")
              (PrimFloat.div
                 (Math_round
                    (PrimFloat.mul
                       (calculateConfidence
                          (mkValidatedAddress num name' cty' st zip "") corr)
                       100%float)) 100%float)
              address
              (Some (mkValidatedAddress num name' cty' st zip
                       (Join (street_clause num name' ++ city_clause cty'
                              ++ state_clause st zip) ", ")))
              (if (0 <? List.length corr)%nat then Some corr else None))
        = Ok r
        /\ validated r = Some v /\ original r = address
        /\ List.length (notes r) <= 2
        /\ status r = status_of (without_formatted v) (notes r)
        /\ confidence r
           = rounded (calculateConfidence (without_formatted v) (notes r))).
    { intros name' cty' corr Hc. eexists. eexists. split; [reflexivity|].
      unfold notes, status_of, rounded, without_formatted.
      cbn [validated original corrections status confidence streetNumber
           streetName city state zipCode].
      destruct corr as [|c0 corr];
        cbn [List.length Nat.ltb Nat.leb]; repeat split; try lia.
      cbn in Hc. lia. }
    destruct (negb (absent name)) eqn:En.
    + destruct name as [name|]; [|discriminate En].
      destruct (expandDirections name) as [dname dcorr]. cbn [fst snd].
      destruct dcorr.
      * destruct (expandStreetType_ok dname) as ([sname scorr] & ->).
        cbn [bind fst snd]. destruct scorr; cbn [bind].
        -- apply Hfin. cbn. lia.
        -- apply Hfin. cbn. lia.
      * destruct (expandStreetType_ok name) as ([sname scorr] & ->).
        cbn [bind fst snd]. destruct scorr; cbn [bind].
        -- apply Hfin. cbn. lia.
        -- apply Hfin. cbn. lia.
    + cbn [bind]. apply Hfin. cbn. lia.
Qed.

(** The confidence in exact decimal arithmetic, in hundredths: 90 less
    the deductions, between 10 and 100. *)
Definition spec_hundredths (v : ValidatedAddress) (n : nat) : Z :=
  Z.max 10
    (Z.min 100
       (90 - (if absent (streetNumber v) then 20 else 0)
        - (if absent (streetName v) then 30 else 0)
        - (if absent (city v) then 20 else 0)
        - (if absent_value (state v) then 20 else 0)
        - (if absent (zipCode v) then 10 else 0)
        - 5 * Z.of_nat n))%Z.

(** The number [k / 100], to two decimal places. *)
Definition hundredths (k : Z) : float :=
  PrimFloat.div (PrimFloat.of_uint63 (Uint63.of_Z k)) 100%float.

(** The binary arithmetic of [calculateConfidence] against the decimal
    one, for at most two correction notes: the rounded confidence is the
    decimal one, and the comparison with 0.3 agrees with the decimal one
    except where the decimal confidence is 0.3 itself. *)
Lemma confidence_table (v : ValidatedAddress) (corr : list string) :
  List.length corr <= 2 ->
  rounded (calculateConfidence v corr)
  = hundredths (spec_hundredths v (List.length corr))
  /\ ((spec_hundredths v (List.length corr) < 30)%Z ->
      PrimFloat.ltb (calculateConfidence v corr) 0.3%float = true)
  /\ ((30 < spec_hundredths v (List.length corr))%Z ->
      PrimFloat.ltb (calculateConfidence v corr) 0.3%float = false).
Proof.
  intros Hn. destruct v as [num name cty st zip fmt].
  unfold calculateConfidence, spec_hundredths, rounded, hundredths.
  cbn [streetNumber streetName city state zipCode].
  destruct (absent num), (absent name), (absent cty), (absent_value st),
    (absent zip);
    (destruct corr as [|c0 [|c1 [|c2 corr]]];
     [ | | | cbn [List.length] in Hn; lia ]);
    vm_compute; (split; [reflexivity|]); split; intros H;
    solve [reflexivity | discriminate H].
Qed.

End TSFacts.

(** ** The Cleaner *)

Module CleanerFacts.
Import Go.

(** The characters that the Cleaner lets through: word characters
    (letters, digits and the underscore), the space, and [- . # / ,]. *)
Definition cleaned_char (c : ascii) : bool :=
  is_word c || (c =? " ")%char || (c =? "-")%char || (c =? ".")%char
  || (c =? "#")%char || (c =? "/")%char || (c =? ",")%char.

Lemma allowed_cleaned c :
  allowed c && (negb (re_space c) || (c =? " ")%char) = true ->
  cleaned_char c = true.
Proof.
  destruct c as [[] [] [] [] [] [] [] []]; vm_compute; intros H;
    solve [reflexivity | discriminate H].
Qed.

Lemma cleaned_char_ascii c : cleaned_char c = true -> is_ascii c = true.
Proof.
  destruct c as [[] [] [] [] [] [] [] []]; vm_compute; intros H;
    solve [reflexivity | discriminate H].
Qed.

Lemma cleanAddress_chars address :
  Str.forallb cleaned_char (cleanAddress address) = true.
Proof.
  unfold cleanAddress.
  destruct (500 <? String.length address)%nat; [reflexivity|].
  destruct (TrimSpace address =? "")%string; [reflexivity|].
  match goal with |- context [if ?c then _ else _] => destruct c end;
    [reflexivity|].
  unfold ReplaceAllString at 1. unfold ReplaceAll at 1.
  unfold re_disallowed. rewrite replace_Cls_empty.
  apply forallb_impl with
    (p := fun c => negb (negb (allowed c))
                   && (negb (re_space c) || (c =? " ")%char)).
  - intros c H. apply allowed_cleaned. rewrite negb_involutive in H.
    exact H.
  - apply forallb_and.
    + apply forallb_filter_self.
    + apply forallb_filter. apply replace_Plus_space.
Qed.

(** Nothing but ASCII leaves the Cleaner. *)
Lemma cleanAddress_ascii address :
  Str.forallb is_ascii (cleanAddress address) = true.
Proof.
  apply forallb_impl with (p := cleaned_char).
  - apply cleaned_char_ascii.
  - apply cleanAddress_chars.
Qed.

Lemma cleanAddress_long address :
  500 < String.length address -> cleanAddress address = "".
Proof.
  intros H. unfold cleanAddress.
  destruct (Nat.ltb_spec 500 (String.length address)); [reflexivity | lia].
Qed.

Lemma cleanAddress_trimmed address :
  cleanAddress address = ""
  \/ 5 <= String.length (TrimSpace (cleanAddress address)).
Proof.
  unfold cleanAddress.
  destruct (500 <? String.length address)%nat; [left; reflexivity|].
  destruct (TrimSpace address =? "")%string; [left; reflexivity|].
  match goal with |- context [if (?n <? 5)%nat then _ else _] =>
    destruct (Nat.ltb_spec n 5) end; [left; reflexivity | right; assumption].
Qed.

(** The invariant of CleanedText as the specification words it: empty,
    or at least five characters once trimmed, every run of white space
    inside being one space, and nothing but letters, digits, white space
    and [- . # / ,]. *)
Definition stated_char (c : ascii) : bool :=
  is_letter c || is_digit c || is_space c || (c =? "-")%char
  || (c =? ".")%char || (c =? "#")%char || (c =? "/")%char
  || (c =? ",")%char.

Fixpoint single_spaced (s : string) : bool :=
  match s with
  | String c s' =>
      (if is_space c
       then (c =? " ")%char
            && match s' with
               | String c' _ => negb (is_space c')
               | EmptyString => true
               end
       else true)
      && single_spaced s'
  | EmptyString => true
  end.

Definition stated_invariant (out : string) : bool :=
  is_empty out
  || ((5 <=? String.length (TrimSpace out))%nat
      && single_spaced (TrimSpace out)
      && Str.forallb stated_char out).

End CleanerFacts.

(** ** What the matcher accepts

    The ways a pattern can match, as a relation between the position in
    front of the match and the position behind it; the matcher finds a
    match exactly when there is one. *)

Module MatchFacts.

(** [p]* from [(prev, s)] to [(prev', s')]. *)
Fixpoint star_path (p : ascii -> bool) (prev : option ascii) (s : string)
    (prev' : option ascii) (s' : string) : Prop :=
  (prev' = prev /\ s' = s)
  \/ match s with
     | String c t => p c = true /\ star_path p (Some c) t prev' s'
     | EmptyString => False
     end.

(** [r] matches from [(prev, s)] to [(prev', s')]. *)
Fixpoint acc (r : regex) (prev : option ascii) (s : string)
    (prev' : option ascii) (s' : string) : Prop :=
  match r with
  | Eps => prev' = prev /\ s' = s
  | Cls p => exists c, s = String c s' /\ p c = true /\ prev' = Some c
  | Seq r1 r2 =>
      exists pm sm, acc r1 prev s pm sm /\ acc r2 pm sm prev' s'
  | Alt r1 r2 => acc r1 prev s prev' s' \/ acc r2 prev s prev' s'
  | Opt r1 => acc r1 prev s prev' s' \/ (prev' = prev /\ s' = s)
  | Star p => star_path p prev s prev' s'
  | StarLazy p => star_path p prev s prev' s'
  | Grp _ r1 => acc r1 prev s prev' s'
  | Bol => prev = None /\ prev' = prev /\ s' = s
  | Eol => s = "" /\ prev' = prev /\ s' = s
  | Wb => xorb (word_before prev) (word_after s) = true
          /\ prev' = prev /\ s' = s
  end.

(** The same with the groups: [caps] are the groups in front of the match,
    [caps'] those behind it. *)
Fixpoint sem (r : regex) (prev : option ascii) (s : string) (caps : captures)
    (prev' : option ascii) (s' : string) (caps' : captures) : Prop :=
  match r with
  | Seq r1 r2 =>
      exists pm sm cm,
        sem r1 prev s caps pm sm cm /\ sem r2 pm sm cm prev' s' caps'
  | Alt r1 r2 =>
      sem r1 prev s caps prev' s' caps' \/ sem r2 prev s caps prev' s' caps'
  | Opt r1 =>
      sem r1 prev s caps prev' s' caps'
      \/ (prev' = prev /\ s' = s /\ caps' = caps)
  | Grp n r1 =>
      exists cm,
        sem r1 prev s caps prev' s' cm /\ caps' = (n, taken s s') :: cm
  | _ => acc r prev s prev' s' /\ caps' = caps
  end.

Lemma star_greedy_sound {R : Type} p (k : option ascii -> string -> option R)
    x : forall s prev,
  star_greedy p prev s k = Some x ->
  exists prev' s', star_path p prev s prev' s' /\ k prev' s' = Some x.
Proof.
  induction s as [|c t IH]; intros prev H; cbn in H.
  - exists prev, "". split; [left; auto | exact H].
  - destruct (p c) eqn:Ep.
    + destruct (star_greedy p (Some c) t k) as [y|] eqn:E.
      * injection H as ->.
        destruct (IH _ E) as (prev' & s' & Hp & Hk).
        exists prev', s'. split; [right; auto | exact Hk].
      * exists prev, (String c t). split; [left; auto | exact H].
    + exists prev, (String c t). split; [left; auto | exact H].
Qed.

Lemma star_lazy_sound {R : Type} p (k : option ascii -> string -> option R)
    x : forall s prev,
  star_lazy p prev s k = Some x ->
  exists prev' s', star_path p prev s prev' s' /\ k prev' s' = Some x.
Proof.
  induction s as [|c t IH]; intros prev H; cbn in H.
  - destruct (k prev "") as [y|] eqn:E; [|discriminate H].
    exists prev, "". split; [left; auto | congruence].
  - destruct (k prev (String c t)) as [y|] eqn:E.
    + exists prev, (String c t). split; [left; auto | congruence].
    + destruct (p c) eqn:Ep; [|discriminate H].
      destruct (IH _ H) as (prev' & s' & Hp & Hk).
      exists prev', s'. split; [right; auto | exact Hk].
Qed.

(** Soundness: a result of the matcher comes from a way to match. *)
Lemma rmatch_sound {R : Type} r : forall prev s caps
    (k : option ascii -> string -> captures -> option R) x,
  rmatch r prev s caps k = Some x ->
  exists prev' s' caps',
    sem r prev s caps prev' s' caps' /\ k prev' s' caps' = Some x.
Proof.
  induction r as [|p|r1 IH1 r2 IH2|r1 IH1 r2 IH2|r1 IH1|p|p|n r1 IH1| | |];
    intros prev s caps k x H; cbn [rmatch] in H.
  - exists prev, s, caps. cbn. auto.
  - destruct s as [|c t]; [discriminate H|].
    destruct (p c) eqn:Ep; [|discriminate H].
    exists (Some c), t, caps. cbn. split; [|exact H].
    split; [exists c; auto | reflexivity].
  - destruct (IH1 _ _ _ _ _ H) as (pm & sm & cm & H1 & H2).
    destruct (IH2 _ _ _ _ _ H2) as (prev' & s' & caps' & H3 & H4).
    exists prev', s', caps'. split; [|exact H4].
    cbn. exists pm, sm, cm. auto.
  - destruct (rmatch r1 prev s caps k) as [y|] eqn:E.
    + injection H as ->.
      destruct (IH1 _ _ _ _ _ E) as (prev' & s' & caps' & H1 & H2).
      exists prev', s', caps'. cbn. auto.
    + destruct (IH2 _ _ _ _ _ H) as (prev' & s' & caps' & H1 & H2).
      exists prev', s', caps'. cbn. auto.
  - destruct (rmatch r1 prev s caps k) as [y|] eqn:E.
    + injection H as ->.
      destruct (IH1 _ _ _ _ _ E) as (prev' & s' & caps' & H1 & H2).
      exists prev', s', caps'. cbn. auto.
    + exists prev, s, caps. cbn. auto.
  - destruct (star_greedy_sound _ _ _ _ _ H) as (prev' & s' & Hp & Hk).
    exists prev', s', caps. cbn. auto.
  - destruct (star_lazy_sound _ _ _ _ _ H) as (prev' & s' & Hp & Hk).
    exists prev', s', caps. cbn. auto.
  - destruct (IH1 _ _ _ _ _ H) as (prev' & s' & cm & H1 & H2).
    exists prev', s', ((n, taken s s') :: cm). cbn. split; [|exact H2].
    exists cm. auto.
  - destruct prev; [discriminate H|]. exists None, s, caps. cbn. auto.
  - destruct s; [|discriminate H]. exists prev, "", caps. cbn. auto.
  - destruct (xorb _ _) eqn:E; [|discriminate H].
    exists prev, s, caps. cbn. auto.
Qed.

Lemma sem_acc r : forall prev s caps prev' s' caps',
  sem r prev s caps prev' s' caps' -> acc r prev s prev' s'.
Proof.
  induction r as [|p|r1 IH1 r2 IH2|r1 IH1 r2 IH2|r1 IH1|p|p|n r1 IH1| | |];
    intros prev s caps prev' s' caps' H; cbn [sem] in H;
    try (destruct H as [H _]; exact H).
  - destruct H as (pm & sm & cm & H1 & H2). cbn.
    exists pm, sm. split; [eapply IH1 | eapply IH2]; eassumption.
  - cbn. destruct H as [H|H]; [left; eapply IH1 | right; eapply IH2];
      eassumption.
  - cbn. destruct H as [H|(-> & -> & _)]; [left; eapply IH1; eassumption|].
    right. auto.
  - destruct H as (cm & H & _). cbn. eapply IH1; eassumption.
Qed.

Lemma star_greedy_complete {R : Type} p
    (k : option ascii -> string -> option R) prev' s' x :
  k prev' s' = Some x ->
  forall s prev, star_path p prev s prev' s' ->
    exists y, star_greedy p prev s k = Some y.
Proof.
  intros Hk. induction s as [|c t IH]; intros prev H; cbn in H |- *.
  - destruct H as [(-> & ->) | []]. eauto.
  - destruct H as [(-> & ->) | (Ep & H)].
    + destruct (p c); [|eauto].
      destruct (star_greedy p (Some c) t k); eauto.
    + rewrite Ep. destruct (IH _ H) as (y & ->). eauto.
Qed.

Lemma star_lazy_complete {R : Type} p
    (k : option ascii -> string -> option R) prev' s' x :
  k prev' s' = Some x ->
  forall s prev, star_path p prev s prev' s' ->
    exists y, star_lazy p prev s k = Some y.
Proof.
  intros Hk. induction s as [|c t IH]; intros prev H; cbn in H |- *.
  - destruct H as [(-> & ->) | []]. rewrite Hk. eauto.
  - destruct (k prev (String c t)) as [y|] eqn:E; [eauto|].
    destruct H as [(-> & ->) | (Ep & H)]; [congruence|].
    rewrite Ep. apply IH. exact H.
Qed.

(** Completeness: where there is a way to match that the continuation
    accepts, the matcher finds a match. *)
Lemma rmatch_complete {R : Type} r : forall prev s prev' s'
    (k : option ascii -> string -> captures -> option R),
  acc r prev s prev' s' ->
  (forall caps', exists x, k prev' s' caps' = Some x) ->
  forall caps, exists y, rmatch r prev s caps k = Some y.
Proof.
  induction r as [|p|r1 IH1 r2 IH2|r1 IH1 r2 IH2|r1 IH1|p|p|n r1 IH1| | |];
    intros prev s prev' s' k H Hk caps; cbn [acc] in H; cbn [rmatch].
  - destruct H as (-> & ->). apply Hk.
  - destruct H as (c & -> & Ep & ->). rewrite Ep. apply Hk.
  - destruct H as (pm & sm & H1 & H2).
    apply (IH1 _ _ _ _ _ H1). intros cm.
    apply (IH2 _ _ _ _ _ H2 Hk).
  - destruct (rmatch r1 prev s caps k) as [y|] eqn:E; [eauto|].
    destruct H as [H|H].
    + destruct (IH1 _ _ _ _ _ H Hk caps) as (y & Hy). congruence.
    + apply (IH2 _ _ _ _ _ H Hk).
  - destruct (rmatch r1 prev s caps k) as [y|] eqn:E; [eauto|].
    destruct H as [H|(-> & ->)].
    + destruct (IH1 _ _ _ _ _ H Hk caps) as (y & Hy). congruence.
    + apply Hk.
  - destruct (Hk caps) as (x & Hx).
    eapply star_greedy_complete; [exact Hx | exact H].
  - destruct (Hk caps) as (x & Hx).
    eapply star_lazy_complete; [exact Hx | exact H].
  - apply (IH1 _ _ _ _ _ H). intros cm. apply Hk.
  - destruct H as (-> & -> & ->). apply Hk.
  - destruct H as (-> & -> & ->). apply Hk.
  - destruct H as (E & -> & ->). rewrite E. apply Hk.
Qed.

(** A pattern that begins with [^] matches the text exactly when there is
    a way to match it from the beginning. *)
Lemma match_here_acc r prev s :
  (exists s' caps, match_here r prev s = Some (s', caps))
  <-> (exists prev' s', acc r prev s prev' s').
Proof.
  unfold match_here. split.
  - intros (s' & caps & H).
    destruct (rmatch_sound _ _ _ _ _ _ H) as (prev' & s'' & caps' & Hs & _).
    exists prev', s''. eapply sem_acc; eassumption.
  - intros (prev' & s' & H).
    destruct (rmatch_complete r prev s prev' s'
                (fun _ s' caps => Some (s', caps)) H) with (caps := @nil (nat * string))
      as ([s1 c1] & Hy); [eauto|].
    exists s1, c1. exact Hy.
Qed.

(** The text of a match, whatever stands around it. *)
Fixpoint lang (r : regex) (m : string) : Prop :=
  match r with
  | Cls p => exists c, m = String c "" /\ p c = true
  | Seq r1 r2 => exists m1 m2, m = (m1 ++ m2)%string /\ lang r1 m1 /\ lang r2 m2
  | Alt r1 r2 => lang r1 m \/ lang r2 m
  | Opt r1 => lang r1 m \/ m = ""
  | Star p => Str.forallb p m = true
  | StarLazy p => Str.forallb p m = true
  | Grp _ r1 => lang r1 m
  | _ => m = ""
  end.

Lemma star_path_lang p : forall s prev prev' s',
  star_path p prev s prev' s' ->
  exists m, s = (m ++ s')%string /\ Str.forallb p m = true.
Proof.
  induction s as [|c t IH]; intros prev prev' s' H; cbn in H.
  - destruct H as [(_ & ->) | []]. exists "". auto.
  - destruct H as [(_ & ->) | (Ep & H)].
    + exists "". auto.
    + destruct (IH _ _ _ H) as (m & -> & Hm).
      exists (String c m). cbn. rewrite Ep, Hm. auto.
Qed.

Lemma acc_lang r : forall prev s prev' s',
  acc r prev s prev' s' -> exists m, s = (m ++ s')%string /\ lang r m.
Proof.
  induction r as [|p|r1 IH1 r2 IH2|r1 IH1 r2 IH2|r1 IH1|p|p|n r1 IH1| | |];
    intros prev s prev' s' H; cbn [acc] in H; cbn [lang].
  - destruct H as (_ & ->). exists "". auto.
  - destruct H as (c & -> & Ep & _). exists (String c ""). eauto.
  - destruct H as (pm & sm & H1 & H2).
    destruct (IH1 _ _ _ _ H1) as (m1 & -> & L1).
    destruct (IH2 _ _ _ _ H2) as (m2 & -> & L2).
    exists (m1 ++ m2)%string. split; [symmetry; apply append_assoc|].
    exists m1, m2. auto.
  - destruct H as [H|H].
    + destruct (IH1 _ _ _ _ H) as (m & -> & L). eauto.
    + destruct (IH2 _ _ _ _ H) as (m & -> & L). eauto.
  - destruct H as [H|(_ & ->)].
    + destruct (IH1 _ _ _ _ H) as (m & -> & L). eauto.
    + exists "". auto.
  - eapply star_path_lang; eassumption.
  - eapply star_path_lang; eassumption.
  - eapply IH1; eassumption.
  - destruct H as (_ & _ & ->). exists "". auto.
  - destruct H as (_ & _ & ->). exists "". auto.
  - destruct H as (_ & _ & ->). exists "". auto.
Qed.

(** The groups that every match of [r] sets. *)
Fixpoint sets (r : regex) : list nat :=
  match r with
  | Seq r1 r2 => sets r1 ++ sets r2
  | Grp n r1 => n :: sets r1
  | _ => []
  end.

(** [q n] holds of every text that a group number [n] of [r] can take. *)
Fixpoint groups_ok (q : nat -> string -> bool) (r : regex) : Prop :=
  match r with
  | Seq r1 r2 => groups_ok q r1 /\ groups_ok q r2
  | Alt r1 r2 => groups_ok q r1 /\ groups_ok q r2
  | Opt r1 => groups_ok q r1
  | Grp n r1 => (forall m, lang r1 m -> q n m = true) /\ groups_ok q r1
  | _ => True
  end.

Lemma group_app n new : forall caps,
  group n (new ++ caps)
  = match group n new with Some t => Some t | None => group n caps end.
Proof.
  induction new as [|[m t] new IH]; intros caps; cbn; [reflexivity|].
  destruct (Nat.eqb n m); [reflexivity | apply IH].
Qed.

(** The groups behind a match: those in front of it and, on top, the
    groups of the pattern, each with a text the pattern allows. *)
Lemma sem_caps q r : groups_ok q r ->
  forall prev s caps prev' s' caps',
    sem r prev s caps prev' s' caps' ->
    exists new,
      caps' = new ++ caps
      /\ (forall n t, group n new = Some t -> q n t = true)
      /\ (forall n, In n (sets r) -> group n new <> None).
Proof.
  induction r as [|p|r1 IH1 r2 IH2|r1 IH1 r2 IH2|r1 IH1|p|p|n r1 IH1| | |];
    intros Hq prev s caps prev' s' caps' H; cbn [sem] in H;
    cbn [groups_ok] in Hq; cbn [sets];
    try (destruct H as [_ ->]; exists []; repeat split;
         [discriminate | intros n []]).
  - destruct Hq as [Hq1 Hq2]. destruct H as (pm & sm & cm & H1 & H2).
    destruct (IH1 Hq1 _ _ _ _ _ _ H1) as (n1 & -> & Q1 & S1).
    destruct (IH2 Hq2 _ _ _ _ _ _ H2) as (n2 & -> & Q2 & S2).
    exists (n2 ++ n1). split; [apply app_assoc|]. split.
    + intros n t. rewrite group_app.
      destruct (group n n2) as [t2|] eqn:E.
      * intros [= <-]. apply (Q2 n). exact E.
      * apply Q1.
    + intros n Hin. rewrite group_app.
      destruct (group n n2) as [t2|] eqn:E; [discriminate|].
      apply in_app_or in Hin. destruct Hin as [Hin|Hin].
      * apply S1. exact Hin.
      * exfalso. apply (S2 n Hin). exact E.
  - destruct Hq as [Hq1 Hq2]. destruct H as [H|H].
    + destruct (IH1 Hq1 _ _ _ _ _ _ H) as (n1 & -> & Q1 & _).
      exists n1. repeat split; [exact Q1 | intros n []].
    + destruct (IH2 Hq2 _ _ _ _ _ _ H) as (n2 & -> & Q2 & _).
      exists n2. repeat split; [exact Q2 | intros n []].
  - destruct H as [H|(_ & _ & ->)].
    + destruct (IH1 Hq _ _ _ _ _ _ H) as (n1 & -> & Q1 & _).
      exists n1. repeat split; [exact Q1 | intros n []].
    + exists []. repeat split; [discriminate | intros n []].
  - destruct Hq as [Hn Hq]. destruct H as (cm & H & ->).
    destruct (IH1 Hq _ _ _ _ _ _ H) as (n1 & -> & Q1 & S1).
    exists ((n, taken s s') :: n1). split; [reflexivity|]. split.
    + intros i t. cbn [group].
      destruct (Nat.eqb i n) eqn:E; [|apply Q1].
      intros [= <-]. apply Nat.eqb_eq in E. subst i.
      destruct (acc_lang _ _ _ _ _ (sem_acc _ _ _ _ _ _ _ H))
        as (m & -> & L).
      rewrite taken_app. apply Hn. exact L.
    + intros i Hin. cbn [group].
      destruct (Nat.eqb i n) eqn:E; [discriminate|].
      destruct Hin as [<-|Hin]; [rewrite Nat.eqb_refl in E; discriminate|].
      apply S1. exact Hin.
Qed.

Lemma search_sound r : forall s prev m s' caps,
  search r prev s = Some (m, s', caps) ->
  exists prev0 s0 prev', sem r prev0 s0 [] prev' s' caps /\ m = taken s0 s'.
Proof.
  induction s as [|c t IH]; intros prev m s' caps H; cbn [search] in H.
  - destruct (match_here r prev "") as [[s1 c1]|] eqn:E; [|discriminate H].
    injection H as <- <- <-.
    destruct (rmatch_sound _ _ _ _ _ _ E) as (p1 & s2 & c2 & Hs & [= -> ->]).
    eauto.
  - destruct (match_here r prev (String c t)) as [[s1 c1]|] eqn:E.
    + injection H as <- <- <-.
      destruct (rmatch_sound _ _ _ _ _ _ E)
        as (p1 & s2 & c2 & Hs & [= -> ->]).
      eauto.
    + eapply IH. exact H.
Qed.

(** What [FindStringSubmatch] returns: the text of group [i] at index [i],
    which [q i] holds of when the group took part, and which is empty when
    it did not; a group of [sets r] took part. *)
Lemma FindStringSubmatch_groups q r n s matches :
  groups_ok q r ->
  FindStringSubmatch r n s = Some matches ->
  exists caps,
    List.length matches = S n
    /\ (forall i, i < n ->
          nth_error matches (S i) = Some (submatch (S i) caps))
    /\ (forall i t, group i caps = Some t -> q i t = true)
    /\ (forall i, In i (sets r) -> group i caps <> None).
Proof.
  intros Hq H. unfold FindStringSubmatch in H.
  destruct (search r None s) as [[[m s'] caps]|] eqn:E; [|discriminate H].
  injection H as <-.
  destruct (search_sound _ _ _ _ _ _ E) as (p0 & s0 & p' & Hs & _).
  destruct (sem_caps q r Hq _ _ _ _ _ _ Hs) as (new & -> & Q & S).
  rewrite app_nil_r. exists new. split.
  - cbn. rewrite length_map, length_seq. reflexivity.
  - split; [|split; assumption].
    intros i Hi. cbn [nth_error].
    rewrite nth_error_map, nth_error_seq.
    destruct (Nat.ltb_spec i n) as [_|]; [|lia]. reflexivity.
Qed.

End MatchFacts.

(** ** The records of the two patterns *)

Module PatternFacts.
Import Go MatchFacts GoFacts IdemFacts ClassifierFacts.

Definition nonempty (t : string) : bool := negb (is_empty t).

(** A text of one character or more, all of them in the class [p], and a
    text of exactly [n] characters of [p]. *)
Definition some_of (p : ascii -> bool) (t : string) : bool :=
  nonempty t && Str.forallb p t.

Definition exactly (n : nat) (p : ascii -> bool) (t : string) : bool :=
  (String.length t =? n)%nat && Str.forallb p t.

(** What the groups of the first pattern can hold, and those of the
    second. *)
Definition full_groups (n : nat) (t : string) : bool :=
  match n with
  | 1 => some_of is_digit t
  | 2 | 4 | 5 => some_of not_comma t
  | 6 => exactly 2 is_letter t
  | 7 => exactly 5 is_digit t
  | 8 => exactly 4 is_digit t
  | _ => true
  end.

Definition simple_groups (n : nat) (t : string) : bool :=
  match n with
  | 1 => some_of is_digit t
  | 2 | 3 => some_of not_comma t
  | 4 => exactly 2 is_letter t
  | 5 => exactly 5 is_digit t
  | 6 => exactly 4 is_digit t
  | _ => true
  end.

(** The record of a pattern: digits for the street number, a street name
    and a city without a comma, no comma in the unit, two capital letters
    for the state, five digits for the ZIP and nothing or four digits for
    its extension; county and full address are not set. *)
Definition well_formed (a : ValidatedAddress) : bool :=
  some_of is_digit (StreetNumber a)
  && some_of not_comma (StreetName a)
  && Str.forallb not_comma (Unit a)
  && some_of not_comma (City a)
  && exactly 2 is_upper (State a)
  && exactly 5 is_digit (ZipCode a)
  && (is_empty (ZipPlus4 a) || exactly 4 is_digit (ZipPlus4 a))
  && is_empty (County a) && is_empty (FullAddress a).

Lemma lang_Plus p m : lang (Plus p) m -> some_of p m = true.
Proof.
  cbn. intros (m1 & m2 & -> & (c & -> & Ep) & H).
  unfold some_of. cbn. rewrite Ep, H. reflexivity.
Qed.

Lemma lang_PlusLazy p m : lang (PlusLazy p) m -> some_of p m = true.
Proof.
  cbn. intros (m1 & m2 & -> & (c & -> & Ep) & H).
  unfold some_of. cbn. rewrite Ep, H. reflexivity.
Qed.

Lemma lang_Rep p : forall n m, lang (Rep n (Cls p)) m -> exactly n p m = true.
Proof.
  induction n as [|n IH]; intros m; cbn [Rep lang].
  - intros ->. reflexivity.
  - intros (m1 & m2 & -> & (c & -> & Ep) & H).
    specialize (IH _ H). unfold exactly in *. cbn.
    rewrite Ep. exact IH.
Qed.

Lemma groups_ok_full : groups_ok full_groups re_full.
Proof.
  unfold re_full, re_zip_tail. cbn [Seqs groups_ok Plus PlusLazy Rep].
  repeat split; intros m H; cbn [full_groups];
    try reflexivity;
    solve [ apply lang_Plus; exact H
          | apply lang_PlusLazy; exact H
          | apply (lang_Rep _ 2); exact H
          | apply (lang_Rep _ 5); exact H
          | apply (lang_Rep _ 4); exact H ].
Qed.

Lemma groups_ok_simple : groups_ok simple_groups re_simple.
Proof.
  unfold re_simple, re_zip_tail. cbn [Seqs groups_ok Plus PlusLazy Rep].
  repeat split; intros m H; cbn [simple_groups];
    solve [ apply lang_Plus; exact H
          | apply lang_PlusLazy; exact H
          | apply (lang_Rep _ 2); exact H
          | apply (lang_Rep _ 5); exact H
          | apply (lang_Rep _ 4); exact H ].
Qed.

Lemma map_length f s : String.length (Str.map f s) = String.length s.
Proof. induction s as [|c s IH]; cbn; [reflexivity | now rewrite IH]. Qed.

Lemma letter_upper c : is_letter c = true -> is_upper (to_upper c) = true.
Proof.
  destruct c as [[] [] [] [] [] [] [] []]; intros H;
    solve [discriminate H | reflexivity].
Qed.

Lemma exactly_upper n t :
  exactly n is_letter t = true -> exactly n is_upper (ToUpper t) = true.
Proof.
  unfold exactly, ToUpper. intros H. apply andb_prop in H. destruct H as [L H].
  rewrite map_length, L, forallb_map. cbn.
  eapply forallb_impl; [|exact H]. apply letter_upper.
Qed.

Lemma some_of_forallb p t : some_of p t = true -> Str.forallb p t = true.
Proof. unfold some_of. intros H. apply andb_prop in H. apply H. Qed.

Lemma five_digits_zip z : exactly 5 is_digit z = true -> isZipCode z = true.
Proof.
  rewrite isZipCode_spec. unfold exactly, spec_zip.
  destruct z as [|c1 [|c2 [|c3 [|c4 [|c5 [|c6 z]]]]]]; try discriminate.
  cbn. destruct (is_digit c1), (is_digit c2), (is_digit c3), (is_digit c4),
    (is_digit c5); try discriminate. reflexivity.
Qed.

(** A group that took part, and one that may have. *)
Lemma submatch_set q caps i :
  (forall i t, group i caps = Some t -> q i t = true) ->
  group i caps <> None -> q i (submatch i caps) = true.
Proof.
  intros Q S. unfold submatch.
  destruct (group i caps) as [t|] eqn:E; [apply Q; exact E | congruence].
Qed.

Lemma submatch_opt q caps i :
  (forall i t, group i caps = Some t -> q i t = true) ->
  submatch i caps = "" \/ q i (submatch i caps) = true.
Proof.
  intros Q. unfold submatch.
  destruct (group i caps) as [t|] eqn:E; [right; apply Q; exact E | now left].
Qed.

Lemma index_nth {A : Type} (l : list A) i a :
  nth_error l i = Some a -> index l i = Ok a.
Proof. unfold index. intros ->. reflexivity. Qed.

Lemma parseFullAddress_record address matches :
  FindStringSubmatch re_full 8 address = Some matches ->
  exists a, parseFullAddress matches = Ok (Some a) /\ well_formed a = true.
Proof.
  intros H.
  destruct (FindStringSubmatch_groups full_groups _ _ _ _ groups_ok_full H)
    as (caps & _ & N & Q & Hset).
  unfold parseFullAddress.
  rewrite (index_nth _ _ _ (N 0 ltac:(lia))), (index_nth _ _ _ (N 1 ltac:(lia))),
    (index_nth _ _ _ (N 3 ltac:(lia))), (index_nth _ _ _ (N 4 ltac:(lia))),
    (index_nth _ _ _ (N 5 ltac:(lia))), (index_nth _ _ _ (N 6 ltac:(lia))),
    (index_nth _ _ _ (N 7 ltac:(lia))).
  cbn [bind]. eexists. split; [reflexivity|].
  unfold well_formed.
  cbn [StreetNumber StreetName Unit City State ZipCode ZipPlus4 County
       FullAddress is_empty].
  pose proof (submatch_set _ _ 1 Q (Hset 1 ltac:(cbn; tauto))) as H1.
  pose proof (submatch_set _ _ 2 Q (Hset 2 ltac:(cbn; tauto))) as H2.
  pose proof (submatch_set _ _ 5 Q (Hset 5 ltac:(cbn; tauto))) as H5.
  pose proof (submatch_set _ _ 6 Q (Hset 6 ltac:(cbn; tauto))) as H6.
  pose proof (submatch_set _ _ 7 Q (Hset 7 ltac:(cbn; tauto))) as H7.
  cbn [full_groups] in H1, H2, H5, H6, H7.
  rewrite H1, H2, H5, H7, (exactly_upper _ _ H6). cbn [andb].
  assert (H4 : Str.forallb not_comma (submatch 4 caps) = true).
  { destruct (submatch_opt _ _ 4 Q) as [-> | H4]; [reflexivity|].
    apply some_of_forallb. exact H4. }
  assert (H8 : is_empty (submatch 8 caps)
               || exactly 4 is_digit (submatch 8 caps) = true).
  { destruct (submatch_opt _ _ 8 Q) as [-> | H8]; [reflexivity|].
    cbn [full_groups] in H8. rewrite H8. apply orb_true_r. }
  rewrite H4, H8. reflexivity.
Qed.

Lemma parseSimpleAddress_record address matches :
  FindStringSubmatch re_simple 6 address = Some matches ->
  exists a, parseSimpleAddress matches = Ok (Some a) /\ well_formed a = true.
Proof.
  intros H.
  destruct (FindStringSubmatch_groups simple_groups _ _ _ _ groups_ok_simple H)
    as (caps & _ & N & Q & Hset).
  unfold parseSimpleAddress.
  rewrite (index_nth _ _ _ (N 0 ltac:(lia))), (index_nth _ _ _ (N 1 ltac:(lia))),
    (index_nth _ _ _ (N 2 ltac:(lia))), (index_nth _ _ _ (N 3 ltac:(lia))),
    (index_nth _ _ _ (N 4 ltac:(lia))), (index_nth _ _ _ (N 5 ltac:(lia))).
  cbn [bind]. eexists. split; [reflexivity|].
  unfold well_formed.
  cbn [StreetNumber StreetName Unit City State ZipCode ZipPlus4 County
       FullAddress is_empty Str.forallb].
  pose proof (submatch_set _ _ 1 Q (Hset 1 ltac:(cbn; tauto))) as H1.
  pose proof (submatch_set _ _ 2 Q (Hset 2 ltac:(cbn; tauto))) as H2.
  pose proof (submatch_set _ _ 3 Q (Hset 3 ltac:(cbn; tauto))) as H3.
  pose proof (submatch_set _ _ 4 Q (Hset 4 ltac:(cbn; tauto))) as H4.
  pose proof (submatch_set _ _ 5 Q (Hset 5 ltac:(cbn; tauto))) as H5.
  cbn [simple_groups] in H1, H2, H3, H4, H5.
  rewrite H1, H2, H3, H5, (exactly_upper _ _ H4). cbn [andb].
  assert (H6 : is_empty (submatch 6 caps)
               || exactly 4 is_digit (submatch 6 caps) = true).
  { destruct (submatch_opt _ _ 6 Q) as [-> | H6]; [reflexivity|].
    cbn [simple_groups] in H6. rewrite H6. apply orb_true_r. }
  rewrite H6. reflexivity.
Qed.

(** Every text that the second pattern matches, the first matches too,
    without its optional part for the unit. *)
Lemma acc_simple_full prev s prev' s' :
  acc re_simple prev s prev' s' -> acc re_full prev s prev' s'.
Proof.
  unfold re_simple, re_full. cbn [Seqs]. intros H.
  destruct H as (p1 & s1 & H1 & H).
  destruct H as (p2 & s2 & H2 & H).
  destruct H as (p3 & s3 & H3 & H).
  destruct H as (p4 & s4 & H4 & H).
  exists p1, s1. split; [exact H1|].
  exists p2, s2. split; [exact H2|].
  exists p3, s3. split; [exact H3|].
  exists p4, s4. split; [exact H4|].
  exists p4, s4. split; [right; split; reflexivity|].
  exact H.
Qed.

Lemma Find_Bol r0 r n s :
  r0 = Seq Bol r ->
  (FindStringSubmatch r0 n s <> None
   <-> exists prev' s', acc r0 None s prev' s').
Proof.
  intros ->. unfold FindStringSubmatch. rewrite search_Bol.
  rewrite <- match_here_acc. split.
  - destruct (match_here (Seq Bol r) None s) as [[s' caps]|];
      [eauto | congruence].
  - intros (s' & caps & ->). discriminate.
Qed.

Lemma simple_needs_full s :
  FindStringSubmatch re_full 8 s = None ->
  FindStringSubmatch re_simple 6 s = None.
Proof.
  intros H.
  destruct (FindStringSubmatch re_simple 6 s) as [m|] eqn:E; [|reflexivity].
  exfalso. revert H.
  apply (Find_Bol re_full _ 8 s eq_refl).
  assert (H : FindStringSubmatch re_simple 6 s <> None) by congruence.
  apply (Find_Bol re_simple _ 6 s eq_refl) in H.
  destruct H as (prev' & s' & H).
  exists prev', s'. apply acc_simple_full. exact H.
Qed.

End PatternFacts.

(** ** The records of the fallback parser *)

Module FallbackFacts.
Import Go GoFacts ParserFacts TableFacts.

(** What the fallback parser can put into a record: no unit, no ZIP
    extension, no county and no full address; a ZIP that [isZipCode]
    accepts; for the state, a token that [isState] accepts, in upper
    case. *)
Definition fallback_record (av : AddressValidator) (r : ValidatedAddress)
  : Prop :=
  Unit r = "" /\ ZipPlus4 r = "" /\ County r = "" /\ FullAddress r = ""
  /\ (ZipCode r = "" \/ isZipCode (ZipCode r) = true)
  /\ (State r = "" \/ exists tok, isState av tok = true /\ State r = ToUpper tok).

Lemma record_with_State av tok r :
  isState av tok = true -> fallback_record av r ->
  fallback_record av (with_State (ToUpper tok) r).
Proof.
  intros Ht (U & P & C & F & Z & _). unfold fallback_record. cbn.
  repeat split; try assumption. right. exists tok. auto.
Qed.

Lemma record_with_City av x r :
  fallback_record av r -> fallback_record av (with_City x r).
Proof. intros H. exact H. Qed.

Lemma record_with_ZipCode av z r :
  isZipCode z = true -> fallback_record av r ->
  fallback_record av (with_ZipCode z r).
Proof.
  intros Hz (U & P & C & F & _ & S). unfold fallback_record. cbn.
  repeat split; try assumption. right. exact Hz.
Qed.

Lemma state_loop_record av parts : forall rest i result r,
  state_loop av parts i rest result = Ok r ->
  fallback_record av result -> fallback_record av r.
Proof.
  induction rest as [|part rest IH]; intros i result r H Hr;
    cbn [state_loop] in H.
  - injection H as <-. exact Hr.
  - destruct (isState av part) eqn:Es; [|eapply IH; eassumption].
    pose proof (record_with_State av part result Es Hr) as H1.
    destruct (0 <? i)%nat.
    + destruct (slice_to parts i) as [before|]; [|discriminate H].
      cbn [bind] in H.
      pose proof (record_with_City av (Join before " ") _ H1) as H2.
      destruct (i <? List.length parts - 1)%nat.
      * destruct (index parts (i + 1)) as [next|]; [|discriminate H].
        cbn [bind] in H. destruct (isZipCode next) eqn:Ez;
          injection H as <-; [apply record_with_ZipCode|]; assumption.
      * injection H as <-. exact H2.
    + cbn [bind] in H.
      destruct (i <? List.length parts - 1)%nat.
      * destruct (index parts (i + 1)) as [next|]; [|discriminate H].
        cbn [bind] in H. destruct (isZipCode next) eqn:Ez;
          injection H as <-; [apply record_with_ZipCode|]; assumption.
      * injection H as <-. exact H1.
Qed.

Lemma zip_loop_record av parts : forall n result r,
  zip_loop av parts n result = Ok r ->
  fallback_record av result -> fallback_record av r.
Proof.
  induction n as [|i IH]; intros result r H Hr; cbn [zip_loop] in H.
  - injection H as <-. exact Hr.
  - destruct (index parts i) as [part|]; [|discriminate H]. cbn [bind] in H.
    destruct (isZipCode part) eqn:Ez; [|eapply IH; eassumption].
    pose proof (record_with_ZipCode av part result Ez Hr) as H1.
    destruct (0 <? i)%nat; [|injection H as <-; exact H1].
    destruct (index parts (i - 1)) as [prev|]; [|discriminate H].
    cbn [bind] in H.
    destruct (isState av prev) eqn:Es; [|injection H as <-; exact H1].
    pose proof (record_with_State av prev _ Es H1) as H2.
    destruct (1 <? i)%nat; [|injection H as <-; exact H2].
    destruct (slice_to parts (i - 1)) as [before|]; [|discriminate H].
    cbn [bind] in H. injection H as <-. exact H2.
Qed.

Lemma record_empty av : fallback_record av emptyAddress.
Proof. unfold fallback_record. cbn. repeat split; auto. Qed.

Lemma record_with_StreetNumber av x r :
  fallback_record av r -> fallback_record av (with_StreetNumber x r).
Proof. intros H. exact H. Qed.

Lemma record_with_StreetName av x r :
  fallback_record av r -> fallback_record av (with_StreetName x r).
Proof. intros H. exact H. Qed.

Lemma parsePartialAddress_record av address p :
  parsePartialAddress av address = Ok (Some p) -> fallback_record av p.
Proof.
  unfold parsePartialAddress.
  destruct (Fields address) as [|first [|second tail]]; try discriminate.
  cbn [List.length Nat.ltb Nat.leb index nth_error bind].
  assert (Hend : forall parts r0,
    fallback_record av r0 ->
    (result <- state_loop av parts 0 parts r0;;
     result <-
       (if negb (StreetNumber result =? "")%string
           && (State result =? "")%string
        then zip_loop av parts (List.length parts) result
        else Ok result);;
     Ok (Some
       (if negb (StreetNumber result =? "")%string
           && (City result =? "")%string && (State result =? "")%string
        then with_StreetName (Join parts " ") result
        else result))) = Ok (Some p) ->
    fallback_record av p).
  { intros parts r0 H0.
    destruct (state_loop av parts 0 parts r0) as [r1|] eqn:E1;
      [|discriminate]. cbn [bind].
    pose proof (state_loop_record _ _ _ _ _ _ E1 H0) as R1.
    match goal with |- context [bind ?m _] => destruct m as [r2|] eqn:E2 end;
      [|discriminate]. cbn [bind]. intros H. injection H as <-.
    assert (R2 : fallback_record av r2).
    { destruct (negb (StreetNumber r1 =? "")%string
                && (State r1 =? "")%string).
      - eapply zip_loop_record; eassumption.
      - injection E2 as <-. exact R1. }
    match goal with |- fallback_record av (if ?c then _ else _) =>
      destruct c end; [apply record_with_StreetName|]; exact R2. }
  destruct (MatchString re_leading_digits first).
  - cbn [slice_from List.length Nat.leb skipn bind].
    apply Hend. apply record_with_StreetNumber, record_empty.
  - cbn [bind]. apply Hend. apply record_empty.
Qed.

(** In a response, the ZIP is absent or one that the classifier accepts. *)
Lemma parseAddress_zip av address p :
  parseAddress av address = Ok (Some p) ->
  ZipCode p = "" \/ isValidZipCode (ZipCode p) = true.
Proof.
  unfold parseAddress, isValidZipCode.
  destruct (FindStringSubmatch re_full 8 address) as [m|] eqn:E1.
  - destruct (PatternFacts.parseFullAddress_record _ _ E1) as (a & -> & W).
    intros [= <-]. right. apply PatternFacts.five_digits_zip.
    unfold PatternFacts.well_formed in W.
    repeat (apply andb_prop in W; destruct W as [W ?]). assumption.
  - destruct (FindStringSubmatch re_simple 6 address) as [m|] eqn:E2.
    + destruct (PatternFacts.parseSimpleAddress_record _ _ E2) as (a & -> & W).
      intros [= <-]. right. apply PatternFacts.five_digits_zip.
      unfold PatternFacts.well_formed in W.
      repeat (apply andb_prop in W; destruct W as [W ?]). assumption.
    + intros H. apply (parsePartialAddress_record av address p H).
Qed.

(** No record of the fallback parser passes the classifier without a
    complaint. *)
Lemma missing_of_fallback av address p a :
  parsePartialAddress av address = Ok (Some p) ->
  standardizeAddress av (Some p) = Some a ->
  missing_components av a <> [].
Proof.
  intros Hp Ha. rewrite IdemFacts.standardizeAddress_fields in Ha.
  injection Ha as <-.
  unfold missing_components.
  cbn [StreetNumber StreetName City State ZipCode].
  destruct (parsePartialAddress_street av address p Hp) as [N | [C S]].
  - rewrite N. cbn [IdemFacts.std_field String.eqb negb].
    repeat match goal with
           | |- context [if ?c then _ else _] => destruct c
           end; cbn; discriminate.
  - rewrite C. cbn [IdemFacts.std_field String.eqb negb].
    repeat match goal with
           | |- context [if ?c then _ else _] => destruct c
           end; cbn; discriminate.
Qed.

Lemma valid_no_complaint av a :
  status (validateComponents av (Some a)) = StatusValid ->
  missing_components av a = [].
Proof.
  unfold validateComponents.
  destruct (missing_components av a) as [|x [|y [|z l]]]; cbn;
    [reflexivity | discriminate..].
Qed.

End FallbackFacts.

(** ** States: what [isState] accepts, [standardizeState] resolves *)

Module StateFacts.
Import Go GoFacts TableFacts.

Lemma lower_to_upper c : is_lower c = true -> is_upper (to_upper c) = true.
Proof.
  destruct c as [[] [] [] [] [] [] [] []]; intros H;
    solve [discriminate H | reflexivity].
Qed.

(** Upper-casing turns no character into one that is no letter, and none
    that is no letter into another. *)
Lemma to_upper_other c d :
  is_lower d = false -> is_upper d = false ->
  (to_upper c =? d)%char = (c =? d)%char.
Proof.
  intros Ld Ud. destruct (is_lower c) eqn:L.
  - pose proof (lower_to_upper c L) as U.
    destruct (Ascii.eqb_spec (to_upper c) d) as [E|_]; [congruence|].
    destruct (Ascii.eqb_spec c d) as [E|_]; [congruence | reflexivity].
  - unfold to_upper. rewrite L. reflexivity.
Qed.

Lemma is_space_upper c : is_space (to_upper c) = is_space c.
Proof. destruct c as [[] [] [] [] [] [] [] []]; reflexivity. Qed.

Lemma in_range_upper c :
  in_range (b 128) (b 138) (to_upper c) = in_range (b 128) (b 138) c.
Proof. destruct c as [[] [] [] [] [] [] [] []]; reflexivity. Qed.

Lemma space2_upper c1 c2 :
  space2 (to_upper c1) (to_upper c2) = space2 c1 c2.
Proof.
  unfold space2. rewrite !to_upper_other by reflexivity. reflexivity.
Qed.

Lemma space3_upper c1 c2 c3 :
  space3 (to_upper c1) (to_upper c2) (to_upper c3) = space3 c1 c2 c3.
Proof.
  unfold space3. rewrite in_range_upper, !to_upper_other by reflexivity.
  reflexivity.
Qed.

Section TrimUpper.

Variable sp2 : ascii -> ascii -> bool.
Variable sp3 : ascii -> ascii -> ascii -> bool.
Hypothesis sp2_upper : forall c1 c2, sp2 (to_upper c1) (to_upper c2) = sp2 c1 c2.
Hypothesis sp3_upper : forall c1 c2 c3,
  sp3 (to_upper c1) (to_upper c2) (to_upper c3) = sp3 c1 c2 c3.

Lemma trim_front_upper : forall n s, String.length s <= n ->
  trim_front sp2 sp3 (ToUpper s) = ToUpper (trim_front sp2 sp3 s).
Proof.
  unfold ToUpper.
  induction n as [|n IH]; intros s Hn.
  - destruct s; [reflexivity | cbn in Hn; lia].
  - destruct s as [|c1 s1]; [reflexivity|].
    cbn [Str.map trim_front String.length] in *. rewrite is_space_upper.
    destruct (is_space c1); [apply IH; lia|].
    destruct s1 as [|c2 s2]; [reflexivity|].
    cbn [Str.map String.length] in *. rewrite sp2_upper.
    destruct (sp2 c1 c2); [apply IH; lia|].
    destruct s2 as [|c3 s3]; [reflexivity|].
    cbn [Str.map String.length] in *. rewrite sp3_upper.
    destruct (sp3 c1 c2 c3); [apply IH; lia | reflexivity].
Qed.

End TrimUpper.

Lemma map_rev_append f s : forall acc,
  Str.rev_append (Str.map f s) (Str.map f acc)
  = Str.map f (Str.rev_append s acc).
Proof.
  induction s as [|c s IH]; intros acc; cbn; [reflexivity|].
  apply (IH (String c acc)).
Qed.

Lemma map_rev f s : Str.rev (Str.map f s) = Str.map f (Str.rev s).
Proof. apply (map_rev_append f s ""). Qed.

(** Trimming and upper-casing can be done in either order. *)
Lemma TrimSpace_ToUpper s : TrimSpace (ToUpper s) = ToUpper (TrimSpace s).
Proof.
  unfold TrimSpace, TrimRight, TrimLeft, TrimLeftRev.
  rewrite (trim_front_upper _ _ space2_upper space3_upper _ s (le_n _)).
  unfold ToUpper at 1. rewrite map_rev. fold (ToUpper (Str.rev (trim_front space2 space3 s))).
  rewrite (trim_front_upper space2_rev space3_rev) with (n := String.length (Str.rev (trim_front space2 space3 s)));
    [| intros; apply space2_upper | intros; apply space3_upper | apply le_n].
  unfold ToUpper. apply map_rev.
Qed.

Lemma existsb_find {A : Type} (f : A -> bool) l :
  existsb f l = true -> exists x, find f l = Some x /\ In x l /\ f x = true.
Proof.
  induction l as [|a l IH]; cbn; [discriminate|].
  destruct (f a) eqn:E.
  - intros _. exists a. auto.
  - cbn. intros H. destruct (IH H) as (x & Hx & Hin & Hf). exists x. auto.
Qed.

Lemma codes_valid :
  List.forallb (fun e => has_key getStateAbbreviations (ToUpper (fst e)))
    getStateAbbreviations = true.
Proof. reflexivity. Qed.

(** A token that [isState] accepts is stored in upper case; what
    [standardizeState] makes of it, [isValidState] accepts. *)
Lemma isState_resolves av tok :
  tables_of av -> isState av tok = true ->
  isValidState av (standardizeState av (ToUpper tok)) = true.
Proof.
  intros Hav H.
  rewrite (isState_tables av tok Hav) in H.
  rewrite (standardizeState_tables av _ Hav), (isValidState_tables av _ Hav).
  unfold isState in H. unfold standardizeState, isValidState.
  cbn [stateAbbreviations NewAddressValidator] in *.
  rewrite ToUpper_idem, TrimSpace_ToUpper.
  set (u := ToUpper (TrimSpace tok)) in *.
  destruct (has_key getStateAbbreviations u) eqn:K.
  - unfold u. rewrite ToUpper_idem. exact K.
  - apply existsb_find in H. destruct H as ([abbrev name] & -> & Hin & _).
    pose proof codes_valid as V. rewrite forallb_forall in V.
    apply (V _ Hin).
Qed.

End StateFacts.

(** ** The texts that no parser takes *)

Module WordFacts.
Import Go GoFacts MatchFacts PatternFacts CleanerFacts.

(** A text with a character that is no white space. *)
Definition has_plain (s : string) : bool := negb (Str.forallb is_space s).

Lemma has_plain_app m s : has_plain s = true -> has_plain (m ++ s) = true.
Proof.
  unfold has_plain. rewrite forallb_app. intros H.
  apply negb_true_iff in H. rewrite H, andb_false_r. reflexivity.
Qed.

Lemma acc_has_plain r prev s prev' s' :
  acc r prev s prev' s' -> has_plain s' = true -> has_plain s = true.
Proof.
  intros H Hp. destruct (acc_lang _ _ _ _ _ H) as (m & -> & _).
  apply has_plain_app. exact Hp.
Qed.

Lemma fields_ascii_nonempty : forall s cur,
  has_plain s = true \/ cur <> "" -> fields_ascii s cur <> [].
Proof.
  induction s as [|c t IH]; intros cur H; cbn [fields_ascii].
  - destruct H as [H|H]; [discriminate H|].
    destruct cur; [contradiction | discriminate].
  - destruct (is_space c) eqn:Ec.
    + destruct cur as [|d cur]; cbn [flush is_empty]; [|discriminate].
      apply IH. destruct H as [H|H]; [|contradiction].
      left. unfold has_plain in *. cbn in H. rewrite Ec in H. exact H.
    + apply IH. right. discriminate.
Qed.

(** Digits, white space, and something behind it: two fields at least. *)
Lemma fields_two m w rest :
  some_of is_digit m = true -> is_space w = true -> has_plain rest = true ->
  2 <= List.length (fields_ascii (m ++ String w rest) "").
Proof.
  intros Hm Hw Hr. unfold some_of, nonempty in Hm.
  apply andb_prop in Hm. destruct Hm as [Hne Hd].
  rewrite fields_ascii_word.
  2:{ eapply forallb_impl; [|exact Hd]. apply ParserFacts.digit_plain. }
  cbn [fields_ascii]. rewrite Hw.
  change (Str.rev_append m "") with (Str.rev m).
  rewrite flush_rev_word by (destruct m; [discriminate Hne | discriminate]).
  pose proof (fields_ascii_nonempty rest "" (or_introl Hr)) as H.
  destruct (fields_ascii rest ""); [contradiction | cbn; lia].
Qed.

Lemma re_space_is_space c : re_space c = true -> is_space c = true.
Proof.
  destruct c as [[] [] [] [] [] [] [] []]; intros H;
    solve [discriminate H | reflexivity].
Qed.

Lemma letter_not_space c : is_letter c = true -> is_space c = false.
Proof.
  destruct c as [[] [] [] [] [] [] [] []]; intros H;
    solve [discriminate H | reflexivity].
Qed.

(** A text that the first pattern matches has two fields or more. *)
Lemma full_two_fields s prev' s' :
  Str.forallb is_ascii s = true ->
  acc re_full None s prev' s' -> 2 <= List.length (Fields s).
Proof.
  intros Ha H. unfold Fields. rewrite fields_go_ascii by exact Ha.
  unfold re_full in H. cbn [Seqs] in H.
  destruct H as (p1 & s1 & H1 & H). destruct H1 as (_ & _ & ->).
  destruct H as (p2 & s2 & H2 & H).
  destruct (acc_lang _ _ _ _ _ H2) as (m & -> & Lm).
  apply lang_Plus in Lm.
  destruct H as (p3 & s3 & H3 & H).
  destruct H3 as (pm & sm & (w & -> & Hw & _) & H3).
  apply fields_two; [exact Lm | apply re_space_is_space; exact Hw |].
  change (acc (Star re_space) pm sm p3 s3) in H3.
  do 9 (let p := fresh "p" in let t := fresh "t" in let A := fresh "A" in
        destruct H as (p & t & A & H)).
  destruct H as (p13 & t13 & H6 & _).
  destruct H6 as (pa & sa & (l1 & E & Hl & _) & _).
  match type of E with
  | ?x = _ => assert (Hp : has_plain x = true)
  end.
  { rewrite E. unfold has_plain. cbn.
    rewrite (letter_not_space l1 Hl). reflexivity. }
  clear E.
  repeat match goal with
         | Hacc : acc _ _ ?x _ ?y, Hy : has_plain ?y = true |- _ =>
             apply (acc_has_plain _ _ _ _ _ Hacc) in Hy; clear Hacc
         end.
  exact Hp.
Qed.

Lemma all_space_trim : forall s,
  Str.forallb is_space s = true -> TrimSpace s = "".
Proof.
  assert (L : forall s, Str.forallb is_space s = true -> TrimLeft s = "").
  { induction s as [|c s IH]; [reflexivity|]. cbn. intros H.
    apply andb_prop in H. destruct H as [Hc Hs]. unfold TrimLeft in *.
    cbn [trim_front]. rewrite Hc. apply IH. exact Hs. }
  intros s H. unfold TrimSpace. rewrite (L s H). reflexivity.
Qed.

(** What the Cleaner lets through has a field. *)
Lemma cleaned_has_field address :
  cleanAddress address <> "" -> 1 <= List.length (Fields (cleanAddress address)).
Proof.
  intros Hne. unfold Fields.
  rewrite fields_go_ascii by apply cleanAddress_ascii.
  assert (Hp : has_plain (cleanAddress address) = true).
  { unfold has_plain.
    destruct (Str.forallb is_space (cleanAddress address)) eqn:E;
      [|reflexivity].
    destruct (cleanAddress_trimmed address) as [H|H]; [contradiction|].
    rewrite (all_space_trim _ E) in H. cbn in H. lia. }
  pose proof (fields_ascii_nonempty _ "" (or_introl Hp)) as H.
  destruct (fields_ascii (cleanAddress address) ""); [contradiction|].
  cbn. lia.
Qed.

Lemma parsePartialAddress_none av address :
  parsePartialAddress av address = Ok None
  <-> List.length (Fields address) < 2.
Proof.
  unfold parsePartialAddress. split.
  - destruct (Nat.ltb_spec (List.length (Fields address)) 2) as [H|H];
      [intros _; exact H|].
    destruct (index (Fields address) 0) as [first|]; [|discriminate].
    cbn [bind].
    match goal with |- bind ?m _ = _ -> _ =>
      destruct m as [[result parts]|] end; [|discriminate]. cbn [bind].
    destruct (state_loop av parts 0 parts result) as [r1|]; [|discriminate].
    cbn [bind].
    match goal with |- bind ?m _ = _ -> _ =>
      destruct m as [r2|] end; [|discriminate]. cbn [bind]. discriminate.
  - intros H.
    destruct (Nat.ltb_spec (List.length (Fields address)) 2) as [_|H'];
      [reflexivity | lia].
Qed.

(** The parsers return no record exactly for a text of less than two
    fields, when the text is ASCII. *)
Lemma parseAddress_none av address :
  Str.forallb is_ascii address = true ->
  (parseAddress av address = Ok None
   <-> List.length (Fields address) < 2).
Proof.
  intros Ha. unfold parseAddress.
  destruct (FindStringSubmatch re_full 8 address) as [m|] eqn:E1.
  - destruct (parseFullAddress_ok _ _ E1) as (a & ->).
    split; [discriminate|]. intros H. exfalso.
    assert (E : FindStringSubmatch re_full 8 address <> None) by congruence.
    apply (Find_Bol re_full _ 8 address eq_refl) in E.
    destruct E as (prev' & s' & E).
    pose proof (full_two_fields _ _ _ Ha E). lia.
  - rewrite (simple_needs_full _ E1). apply parsePartialAddress_none.
Qed.

End WordFacts.

(** ** The texts that the Cleaner leaves as they are *)

Module TidyFacts.
Import Go CleanerFacts.

Definition starts_plain (s : string) : bool :=
  match s with
  | String c _ => negb (is_space c)
  | EmptyString => false
  end.

(** A tidy text: five to 500 characters that the Cleaner lets through,
    single spaces between the words, none at either end. *)
Definition tidy (s : string) : bool :=
  (5 <=? String.length s)%nat && (String.length s <=? 500)%nat
  && Str.forallb cleaned_char s && single_spaced s
  && starts_plain s && starts_plain (Str.rev s).

Lemma cleaned_space c :
  cleaned_char c = true -> re_space c = true -> c = " "%char.
Proof.
  destruct c as [[] [] [] [] [] [] [] []]; intros H1 H2;
    solve [discriminate H1 | discriminate H2 | reflexivity].
Qed.

Lemma cleaned_allowed c : cleaned_char c = true -> allowed c = true.
Proof.
  destruct c as [[] [] [] [] [] [] [] []]; intros H;
    solve [discriminate H | reflexivity].
Qed.

Lemma not_space_re c : is_space c = false -> re_space c = false.
Proof.
  destruct c as [[] [] [] [] [] [] [] []]; intros H;
    solve [discriminate H | reflexivity].
Qed.

Lemma cleaned_plain c :
  cleaned_char c = true -> is_space c = false -> plain c = true.
Proof.
  intros H1 H2. unfold plain. rewrite (cleaned_char_ascii c H1), H2.
  reflexivity.
Qed.

Lemma filter_all q s : Str.forallb q s = true -> Str.filter q s = s.
Proof.
  induction s as [|c s IH]; cbn; [reflexivity|]. intros H.
  apply andb_prop in H. destruct H as [Hc Hs]. rewrite Hc, (IH Hs).
  reflexivity.
Qed.

(** Single spaces are replaced by themselves. *)
Lemma collapse_fixed : forall s prev,
  Str.forallb cleaned_char s = true -> single_spaced s = true ->
  replace_go re_spaces (fun _ => " ") prev s 0 = s.
Proof.
  unfold re_spaces.
  induction s as [|c t IH]; intros prev Hc Hs; [reflexivity|].
  cbn [Str.forallb single_spaced] in Hc, Hs.
  apply andb_prop in Hc. destruct Hc as [Hc Ht].
  apply andb_prop in Hs. destruct Hs as [Hs Hst].
  cbn [replace_go]. rewrite match_here_Plus.
  destruct (re_space c) eqn:Er.
  - pose proof (cleaned_space c Hc Er) as ->.
    cbn [is_space] in Hs. change (is_space " ") with true in Hs.
    cbn [andb Ascii.eqb] in Hs.
    assert (Hd : drop_while re_space t = t).
    { destruct t as [|c' t']; [reflexivity|]. cbn.
      apply negb_true_iff in Hs. rewrite (not_space_re c' Hs). reflexivity. }
    rewrite Hd. cbn [String.length].
    rewrite Nat.sub_succ_l, Nat.sub_diag by apply le_n.
    cbn [append]. rewrite (IH _ Ht Hst). reflexivity.
  - rewrite (IH _ Ht Hst). reflexivity.
Qed.

Lemma tidy_fixed s : tidy s = true -> cleanAddress s = s.
Proof.
  unfold tidy. intros H.
  repeat (apply andb_prop in H; destruct H as [H ?]).
  rename H into H5, H0 into Hrev, H1 into Hfirst, H2 into Hss, H3 into Hcl,
    H4 into H500.
  apply Nat.leb_le in H5, H500.
  unfold cleanAddress.
  destruct (Nat.ltb_spec 500 (String.length s)) as [|_]; [lia|].
  assert (Ht : TrimSpace s = s).
  { destruct s as [|c t]; [discriminate Hfirst|].
    destruct (Str.rev (String c t)) as [|c' t'] eqn:Er; [discriminate Hrev|].
    cbn in Hfirst, Hrev. apply negb_true_iff in Hfirst, Hrev.
    assert (Hc' : cleaned_char c' = true).
    { assert (Hr : Str.forallb cleaned_char (Str.rev (String c t)) = true)
        by (rewrite forallb_rev; exact Hcl).
      rewrite Er in Hr. cbn in Hr. apply andb_prop in Hr. apply Hr. }
    cbn in Hcl. apply andb_prop in Hcl. destruct Hcl as [Hc _].
    apply (TrimSpace_plain c t c' t');
      [apply cleaned_plain | apply cleaned_plain | exact Er]; assumption. }
  rewrite Ht.
  destruct (String.eqb_spec s "") as [->|_]; [cbn in H5; lia|].
  unfold ReplaceAllString, ReplaceAll.
  rewrite (collapse_fixed s None Hcl Hss).
  unfold re_disallowed. rewrite replace_Cls_empty.
  rewrite filter_all.
  2:{ eapply forallb_impl; [|exact Hcl]. intros c Hc.
      rewrite negb_involutive. apply cleaned_allowed. exact Hc. }
  rewrite Ht.
  destruct (Nat.ltb_spec (String.length s) 5) as [|_]; [lia | reflexivity].
Qed.

End TidyFacts.

(** ** The street name, word by word *)

Module WordwiseFacts.
Import Go ReplaceFacts TableFacts IdemFacts ParserFacts.

Definition flush_word (f : string -> string) (cur : string) : string :=
  if is_empty cur then "" else f (Str.rev cur).

(** [f] on every maximal run of word characters of [s], the rest of [s]
    as it is.  [cur] is the run being read, reversed. *)
Fixpoint map_words_go (f : string -> string) (s cur : string) : string :=
  match s with
  | EmptyString => flush_word f cur
  | String c t =>
      if is_word c then map_words_go f t (String c cur)
      else (flush_word f cur ++ String c (map_words_go f t EmptyString))%string
  end.

Definition map_words (f : string -> string) (s : string) : string :=
  map_words_go f s "".

Lemma map_words_other f c t :
  is_word c = false -> map_words f (String c t) = String c (map_words f t).
Proof. intros H. unfold map_words. cbn. rewrite H. reflexivity. Qed.

Lemma map_words_go_word f : forall w cur rest,
  Str.forallb is_word w = true ->
  map_words_go f (w ++ rest) cur = map_words_go f rest (Str.rev_append w cur).
Proof.
  induction w as [|c w IH]; intros cur rest H; [reflexivity|].
  cbn in H. apply andb_prop in H. destruct H as [Hc Hw].
  cbn. rewrite Hc. apply IH. exact Hw.
Qed.

Lemma map_words_word f w rest :
  w <> "" -> Str.forallb is_word w = true -> word_after rest = false ->
  map_words f (w ++ rest) = (f w ++ map_words f rest)%string.
Proof.
  intros Hne Hw Hr. unfold map_words. rewrite map_words_go_word by exact Hw.
  change (Str.rev_append w "") with (Str.rev w).
  assert (Hf : flush_word f (Str.rev w) = f w).
  { unfold flush_word. destruct w as [|c w]; [contradiction|].
    destruct (Str.rev (String c w)) eqn:E.
    - exfalso. apply (FieldsFacts.rev_nonempty c w). exact E.
    - cbn [is_empty]. rewrite <- E, rev_involutive. reflexivity. }
  destruct rest as [|d r]; cbn [map_words_go].
  - rewrite Hf. cbn. symmetry. apply append_empty_r.
  - cbn in Hr. rewrite Hr, Hf. reflexivity.
Qed.

(** The word at the head of a text. *)
Lemma span_word : forall t,
  exists w rest,
    t = (w ++ rest)%string /\ Str.forallb is_word w = true
    /\ word_after rest = false.
Proof.
  induction t as [|c t (w & rest & -> & Hw & Hr)].
  - exists "", "". auto.
  - destruct (is_word c) eqn:E.
    + exists (String c w), rest. cbn. rewrite E. auto.
    + exists "", (String c (w ++ rest)). cbn. auto.
Qed.

Lemma map_words_ext f g :
  (forall w, f w = g w) -> forall s cur, map_words_go f s cur = map_words_go g s cur.
Proof.
  intros H. induction s as [|c t IH]; intros cur; cbn.
  - unfold flush_word. rewrite H. reflexivity.
  - destruct (is_word c); [apply IH|].
    rewrite IH. unfold flush_word. rewrite H. reflexivity.
Qed.

Lemma map_words_id : forall s cur,
  map_words_go (fun w => w) s cur = (Str.rev cur ++ s)%string.
Proof.
  induction s as [|c t IH]; intros cur; cbn.
  - unfold flush_word. destruct cur; [reflexivity|].
    cbn [is_empty]. symmetry. apply append_empty_r.
  - destruct (is_word c).
    + rewrite IH, rev_cons, append_assoc. reflexivity.
    + rewrite IH. unfold flush_word. destruct cur; reflexivity.
Qed.

(** A function that takes words to words. *)
Definition keeps_words (f : string -> string) : Prop :=
  forall w, w <> "" -> Str.forallb is_word w = true ->
    f w <> "" /\ Str.forallb is_word (f w) = true.

Lemma map_words_compose f g : keeps_words f ->
  forall n s, String.length s <= n ->
    map_words g (map_words f s) = map_words (fun w => g (f w)) s.
Proof.
  intros Hf. induction n as [|n IH]; intros s Hn.
  - destruct s; [reflexivity | cbn in Hn; lia].
  - destruct s as [|c t]; [reflexivity|]. cbn [String.length] in Hn.
    destruct (is_word c) eqn:Ec.
    + destruct (span_word t) as (w & rest & -> & Hw & Hr).
      change (String c (w ++ rest)) with (String c w ++ rest)%string.
      assert (HW : Str.forallb is_word (String c w) = true)
        by (cbn; rewrite Ec; exact Hw).
      rewrite (map_words_word f) by (discriminate || assumption).
      rewrite (map_words_word (fun w => g (f w)))
        by (discriminate || assumption).
      destruct (Hf (String c w) ltac:(discriminate) HW) as [Hne Hfw].
      assert (Hr' : word_after (map_words f rest) = false).
      { destruct rest as [|d r]; [reflexivity|]. cbn in Hr.
        rewrite (map_words_other f d r Hr). exact Hr. }
      rewrite map_words_word by assumption.
      rewrite IH; [reflexivity|].
      rewrite length_app in Hn. lia.
    + rewrite !map_words_other by exact Ec.
      rewrite IH by lia. reflexivity.
Qed.

Section OneKey.

Variable key : string.
Variable repl : string -> string.
Hypothesis key_letters : Str.forallb is_letter key = true.
Hypothesis key_nonempty : key <> "".

(** A key replaces runs of word characters, each as a whole. *)
Lemma replace_map_words : forall n s, String.length s <= n ->
  forall prev, word_before prev = false ->
    replace_go (re_word key) repl prev s 0
    = map_words (replace_one key repl) s.
Proof.
  induction n as [|n IH]; intros s Hn prev Hp.
  - destruct s; [reflexivity | cbn in Hn; lia].
  - destruct s as [|c t]; [reflexivity|]. cbn [String.length] in Hn.
    destruct (is_word c) eqn:Ec.
    + destruct (span_word t) as (w & rest & -> & Hw & Hr).
      change (String c (w ++ rest)) with (String c w ++ rest)%string.
      assert (HW : Str.forallb is_word (String c w) = true)
        by (cbn; rewrite Ec; exact Hw).
      rewrite (replace_word key repl key_letters key_nonempty c w prev rest
                 HW Hp Hr).
      rewrite map_words_word by (discriminate || assumption).
      unfold replace_one at 1. f_equal.
      destruct rest as [|d r]; [reflexivity|]. cbn in Hr.
      cbn [replace_go].
      rewrite (match_here_word_other key key_letters key_nonempty) by exact Hr.
      rewrite map_words_other by exact Hr. f_equal.
      apply IH; [|cbn; exact Hr].
      rewrite length_app in Hn. cbn in Hn. lia.
    + cbn [replace_go].
      rewrite (match_here_word_other key key_letters key_nonempty) by exact Ec.
      rewrite map_words_other by exact Ec. f_equal.
      apply IH; [lia | cbn; exact Ec].
Qed.

End OneKey.

Lemma entry_keeps e :
  entry_ok e = true ->
  keeps_words (replace_one (fst e) (fun _ => snd e)).
Proof.
  unfold entry_ok. intros H.
  repeat (apply andb_prop in H; destruct H as [H ?]).
  intros w Hne Hw. unfold replace_one.
  destruct (EqualFold (fst e) w); [|auto].
  split; [|assumption]. destruct (snd e); [discriminate | discriminate].
Qed.

Lemma expand_keeps m :
  List.forallb entry_ok m = true -> keeps_words (expand m).
Proof.
  induction m as [|e m IH]; cbn [List.forallb]; intros H.
  - intros w Hne Hw. auto.
  - apply andb_prop in H. destruct H as [He Hm].
    intros w Hne Hw. unfold expand. cbn [fold_left].
    destruct (entry_keeps e He w Hne Hw) as [Hne' Hw'].
    unfold replace_one in Hne', Hw'.
    apply (IH Hm); assumption.
Qed.

(** A table replaces word by word, whatever stands between the words. *)
Lemma replace_words_map m : List.forallb entry_ok m = true ->
  forall s, replace_words m s = map_words (expand m) s.
Proof.
  induction m as [|[k v] m IH]; cbn [List.forallb]; intros H s.
  - unfold replace_words, map_words. cbn [fold_left].
    rewrite (map_words_ext (expand []) (fun w => w)) by reflexivity.
    rewrite map_words_id. reflexivity.
  - apply andb_prop in H. destruct H as [He Hm].
    unfold replace_words. cbn [fold_left].
    fold (replace_words m (ReplaceAllString (re_word k) s v)).
    rewrite (IH Hm). unfold ReplaceAllString, ReplaceAll.
    pose proof He as He'. unfold entry_ok in He'. cbn [fst snd] in He'.
    repeat (apply andb_prop in He'; destruct He' as [He' ?]).
    rewrite (replace_map_words k (fun _ => v)) with (n := String.length s);
      [| assumption | destruct k; [discriminate | discriminate]
       | apply le_n | reflexivity].
    pose proof (entry_keeps (k, v) He) as Hk. cbn [fst snd] in Hk.
    rewrite (map_words_compose _ (expand m) Hk (String.length s) s (le_n _)).
    unfold map_words. apply map_words_ext. intros w. reflexivity.
Qed.

(** [standardizeStreetName], in any iteration order: the text in title
    case, and every run of word characters looked up in the two
    tables. *)
Lemma standardizeStreetName_wordwise av s :
  tables_of av ->
  standardizeStreetName av s = map_words step (toTitleCase (TrimSpace s)).
Proof.
  intros (_ & Hm & Hs). unfold standardizeStreetName.
  destruct tables_ok as (Ts & Tm & Es & Em).
  assert (Es' : List.forallb entry_ok (streetSuffixes av) = true)
    by (rewrite (forallb_Permutation _ _ _ Hs); exact Es).
  assert (Em' : List.forallb entry_ok (commonMisspellings av) = true)
    by (rewrite (forallb_Permutation _ _ _ Hm); exact Em).
  rewrite (replace_words_map _ Es'), (replace_words_map _ Em').
  rewrite (map_words_compose _ _ (expand_keeps _ Es') _ _ (le_n _)).
  unfold map_words. apply map_words_ext. intros w. unfold step.
  rewrite (expand_Permutation _ _ w Ts Hs).
  apply (expand_Permutation _ _ _ Tm Hm).
Qed.

End WordwiseFacts.

(** ** The engine, in any iteration order, and its responses *)

Module ResponseFacts.
Import Go GoFacts TableFacts IdemFacts ParserFacts WordwiseFacts.

Lemma standardizeAddress_tables av p :
  tables_of av ->
  standardizeAddress av p = standardizeAddress NewAddressValidator p.
Proof.
  intros Hav. destruct p as [p|]; [|reflexivity].
  rewrite !standardizeAddress_fields. unfold std_field.
  rewrite (standardizeStreetName_wordwise av _ Hav),
    (standardizeStreetName_wordwise _ _ tables_of_New),
    (standardizeState_tables av _ Hav).
  reflexivity.
Qed.

Lemma validateComponents_tables av a :
  tables_of av ->
  validateComponents av a = validateComponents NewAddressValidator a.
Proof.
  intros Hav. destruct a as [a|]; [|reflexivity].
  unfold validateComponents, missing_components.
  rewrite (isValidState_tables av _ Hav). reflexivity.
Qed.

Lemma ValidateAndStandardize_tables now av address :
  tables_of av ->
  ValidateAndStandardize now av address
  = ValidateAndStandardize now NewAddressValidator address.
Proof.
  intros Hav. unfold ValidateAndStandardize, pipeline.
  rewrite (parseAddress_tables av _ Hav).
  destruct (cleanAddress address =? "")%string; [reflexivity|].
  destruct (parseAddress NewAddressValidator (cleanAddress address))
    as [[p|]|]; cbn [bind]; try reflexivity.
  rewrite (standardizeAddress_tables av _ Hav).
  rewrite (validateComponents_tables av _ Hav).
  reflexivity.
Qed.

(** The full address of a record is made of its other fields. *)
Lemma standardizeAddress_full av p a :
  standardizeAddress av (Some p) = Some a ->
  FullAddress a = buildFullAddress a /\ County a = County p
  /\ StreetNumber a = StreetNumber p /\ Unit a = Unit p
  /\ ZipCode a = ZipCode p /\ ZipPlus4 a = ZipPlus4 p.
Proof.
  rewrite standardizeAddress_fields. intros [= <-]. repeat split.
Qed.

Lemma parseAddress_county av address p :
  parseAddress av address = Ok (Some p) -> County p = "".
Proof.
  unfold parseAddress.
  destruct (FindStringSubmatch re_full 8 address) as [m|] eqn:E1.
  - destruct (PatternFacts.parseFullAddress_record _ _ E1) as (a & -> & W).
    intros [= <-]. unfold PatternFacts.well_formed in W.
    repeat (apply andb_prop in W; destruct W as [W ?]).
    destruct (County a); [reflexivity | discriminate].
  - destruct (FindStringSubmatch re_simple 6 address) as [m|] eqn:E2.
    + destruct (PatternFacts.parseSimpleAddress_record _ _ E2) as (a & -> & W).
      intros [= <-]. unfold PatternFacts.well_formed in W.
      repeat (apply andb_prop in W; destruct W as [W ?]).
      destruct (County a); [reflexivity | discriminate].
    + intros H. apply (FallbackFacts.parsePartialAddress_record av address p H).
Qed.

(** A record that the classifier calls valid has all five components. *)
Lemma no_complaint_fields av a :
  missing_components av a = [] ->
  StreetNumber a <> "" /\ StreetName a <> "" /\ City a <> ""
  /\ State a <> "" /\ ZipCode a <> ""
  /\ isValidState av (State a) = true /\ isValidZipCode (ZipCode a) = true.
Proof.
  unfold missing_components.
  destruct (String.eqb_spec (StreetNumber a) "");
    destruct (String.eqb_spec (StreetName a) "");
    destruct (String.eqb_spec (City a) "");
    destruct (String.eqb_spec (State a) "");
    destruct (String.eqb_spec (ZipCode a) "");
    destruct (isValidState av (State a));
    destruct (isValidZipCode (ZipCode a)); cbn; try discriminate;
    intros _; repeat split; assumption.
Qed.

(** The full address of a record with all five components. *)
Definition complete_full (a : ValidatedAddress) : string :=
  (StreetNumber a ++ " " ++ StreetName a
   ++ (if (Unit a =? "") then "" else " " ++ Unit a)
   ++ ", " ++ City a ++ ", " ++ State a ++ " " ++ ZipCode a
   ++ (if (ZipPlus4 a =? "") then "" else "-" ++ ZipPlus4 a))%string.

Lemma buildFullAddress_complete a :
  StreetNumber a <> "" -> StreetName a <> "" -> City a <> ""
  -> State a <> "" -> ZipCode a <> "" ->
  buildFullAddress a = complete_full a.
Proof.
  intros H1 H2 H3 H4 H5. unfold buildFullAddress, complete_full.
  apply String.eqb_neq in H1, H2, H3, H4, H5.
  rewrite H1, H2, H3, H4, H5. cbn [negb andb app].
  destruct (Unit a =? "")%string; destruct (ZipPlus4 a =? "")%string;
    cbn [negb Join String.concat];
    rewrite ?append_assoc; cbn [append]; rewrite ?append_assoc;
    rewrite ?append_empty_r; reflexivity.
Qed.

(** The three ways the engine answers. *)
Lemma response_cases now av address r :
  ValidateAndStandardize now av address = Ok (r, None) ->
  OriginalAddress r = address /\ ProcessedAt r = now
  /\ ((cleanAddress address = "" /\ Validated r = None
       /\ Status r = StatusUnverifiable
       /\ Message r = "Address is empty or contains only invalid characters")
      \/ (cleanAddress address <> ""
          /\ parseAddress av (cleanAddress address) = Ok None
          /\ Validated r = None /\ Status r = StatusUnverifiable
          /\ Message r = "Unable to parse address components")
      \/ (exists p a,
            cleanAddress address <> ""
            /\ parseAddress av (cleanAddress address) = Ok (Some p)
            /\ standardizeAddress av (Some p) = Some a
            /\ Validated r = Some a
            /\ Status r = status (validateComponents av (Some a))
            /\ Message r = message (validateComponents av (Some a)))).
Proof.
  unfold ValidateAndStandardize. intros H.
  destruct (pipeline_cases standardizeAddress validateComponents now av
              address)
    as [(Hc & Hp) | [(Hc & Hn & Hp) | (p & Hc & Hparse & Hp)]].
  - rewrite Hp in H. injection H as <-.
    split; [reflexivity|]. split; [reflexivity|]. left.
    split; [exact Hc|]. repeat split.
  - rewrite Hp in H. injection H as <-.
    split; [reflexivity|]. split; [reflexivity|]. right. left.
    split; [exact Hc|]. split; [exact Hn|]. repeat split.
  - destruct (standardizeAddress av (Some p)) as [a|] eqn:Ea;
      [|discriminate Ea].
    remember (validateComponents av (Some a)) as vr eqn:Ev.
    rewrite Hp in H. injection H as <-. subst vr.
    split; [reflexivity|]. split; [reflexivity|]. right. right.
    exists p, a. split; [exact Hc|]. split; [exact Hparse|].
    split; [exact Ea|]. repeat split.
Qed.

Lemma ValidateAndStandardize_ok now av address :
  exists r, ValidateAndStandardize now av address = Ok (r, None).
Proof.
  unfold ValidateAndStandardize.
  destruct (pipeline_cases standardizeAddress validateComponents now av
              address)
    as [(_ & ->) | [(_ & _ & ->) | (p & _ & _ & ->)]]; eexists; reflexivity.
Qed.

(** The classifier always has something to say. *)
Lemma message_nonempty av a : message (validateComponents av a) <> "".
Proof.
  unfold validateComponents. destruct a as [a|]; [|discriminate].
  destruct (2 <? _)%nat; [discriminate|].
  destruct (0 <? _)%nat; [discriminate|]. discriminate.
Qed.

(** The validator whose maps are iterated backwards. *)
Definition reversed : Go.AddressValidator :=
  Go.mkAddressValidator (List.rev Go.getStateAbbreviations)
    (List.rev Go.getCommonMisspellings) (List.rev Go.getStreetSuffixes).

Lemma tables_of_reversed : Go.tables_of reversed.
Proof.
  repeat split; cbn; apply Permutation_sym, Permutation_rev.
Qed.

End ResponseFacts.

(** ** The tokens of the TypeScript engine *)

Module TokenFacts.
Import TS.

(** A character of a token: no comma, no period, no capital letter. *)
Definition token_char (c : ascii) : bool :=
  negb (c =? ",")%char && negb (c =? ".")%char && negb (is_upper c).

(** No white-space character of JavaScript starts anywhere in [s]. *)
Fixpoint no_white (s : string) : bool :=
  match s with
  | EmptyString => true
  | String _ s' => (white_width s =? 0)%nat && no_white s'
  end.

Lemma to_lower_idem c : to_lower (to_lower c) = to_lower c.
Proof. destruct c as [[] [] [] [] [] [] [] []]; reflexivity. Qed.

Lemma forallb_map_lower s :
  Str.forallb (fun c => (to_lower c =? c)%char) (ToLower s) = true.
Proof.
  unfold ToLower. induction s as [|c s IH]; cbn [Str.map Str.forallb];
    [reflexivity|].
  rewrite to_lower_idem, Ascii.eqb_refl, IH. reflexivity.
Qed.

Lemma trim_forallb q s :
  Str.forallb q s = true -> Str.forallb q (trim s) = true.
Proof.
  intros H. unfold trim, trim_start. rewrite forallb_rev.
  apply trim_front_forallb. rewrite forallb_rev.
  apply trim_front_forallb. exact H.
Qed.

(** Replacing every character of a class by one character. *)
Lemma replace_Cls_char p d : forall s prev,
  replace_go (Cls p) (fun _ => String d "") prev s 0
  = Str.map (fun c => if p c then d else c) s.
Proof.
  induction s as [|c s IH]; intros prev; [reflexivity|].
  cbn [replace_go Str.map]. rewrite match_here_Cls.
  destruct (p c).
  - replace (String.length (String c s) - String.length s) with 1
      by (cbn [String.length]; lia).
    rewrite IH. reflexivity.
  - rewrite IH. reflexivity.
Qed.

(** Collapsing the white space keeps what holds of every character and of
    the space. *)
Lemma collapse_go_forallb q : q " "%char = true ->
  forall s skip run,
    Str.forallb q s = true ->
    Str.forallb q (collapse_go s skip run) = true.
Proof.
  intros Hq. induction s as [|c s IH]; intros skip run H; [reflexivity|].
  cbn [Str.forallb] in H. apply andb_prop in H. destruct H as [Hc Hs].
  cbn [collapse_go]. destruct skip as [|n]; [|apply IH; exact Hs].
  destruct (white_width (String c s)) as [|n].
  - cbn [Str.forallb]. rewrite Hc. apply IH. exact Hs.
  - destruct run; [apply IH; exact Hs|].
    cbn [Str.forallb]. rewrite Hq. apply IH. exact Hs.
Qed.

Lemma split_go_forallb q : forall s cur,
  Str.forallb q cur = true ->
  Str.forallb q s = true ->
  Forall (fun w => Str.forallb q w = true) (split_go s cur).
Proof.
  induction s as [|c s IH]; intros cur Hcur H; cbn [split_go].
  - constructor; [|constructor]. rewrite forallb_rev. exact Hcur.
  - cbn [Str.forallb] in H. apply andb_prop in H. destruct H as [Hc Hs].
    destruct (c =? " ")%char eqn:E.
    + constructor; [rewrite forallb_rev; exact Hcur|].
      apply IH; [reflexivity | exact Hs].
    + apply IH; [|exact Hs]. cbn [Str.forallb]. rewrite Hc, Hcur.
      reflexivity.
Qed.

(** A character of the normalized text: as in a token. *)
Lemma lower_token_char c :
  (to_lower c =? c)%char = true ->
  token_char (if (c =? ",")%char || (c =? ".")%char then " "%char else c)
  = true.
Proof.
  destruct c as [[] [] [] [] [] [] [] []]; intros H;
    solve [discriminate H | reflexivity].
Qed.

Lemma normalizeAddress_chars address :
  Str.forallb token_char (normalizeAddress address) = true.
Proof.
  unfold normalizeAddress, collapse_spaces, ReplaceAll.
  apply collapse_go_forallb; [reflexivity|].
  unfold re_comma_dot. rewrite replace_Cls_char, IdemFacts.forallb_map.
  eapply forallb_impl; [apply lower_token_char|].
  apply trim_forallb. apply forallb_map_lower.
Qed.

(** *** No white space in a token *)

(** No white-space character starts in [z], in the text [z ++ w]. *)
Fixpoint clean (z w : string) : bool :=
  match z with
  | EmptyString => true
  | String _ z' => (white_width (z ++ w) =? 0)%nat && clean z' w
  end.

Lemma clean_snoc c w : forall z,
  clean (z ++ String c "") w
  = clean z (String c w) && (white_width (String c w) =? 0)%nat.
Proof.
  induction z as [|d z IH]; cbn [String.append clean].
  - rewrite andb_true_r. reflexivity.
  - rewrite IH, append_assoc. cbn [String.append]. apply andb_assoc.
Qed.

Lemma clean_no_white w : forall z, clean z w = true -> no_white z = true.
Proof.
  induction z as [|d z IH]; [reflexivity|]. cbn [clean no_white].
  intros H. apply andb_prop in H. destruct H as [H1 H2].
  rewrite (IH H2), andb_true_r. apply Nat.eqb_eq in H1. apply Nat.eqb_eq.
  change (String d z ++ w)%string with (String d z ++ w)%string in H1.
  apply (width_front_prefix white2 white3 (String d z) w H1). discriminate.
Qed.

Lemma white_width_space c s :
  white_width (String c s) = 0 -> (c =? " ")%char = false.
Proof.
  unfold white_width. cbn [width_front].
  destruct (is_space c) eqn:E; [discriminate|]. intros _.
  destruct (Ascii.eqb_spec c " ") as [->|]; [discriminate E | reflexivity].
Qed.

(** The pieces between the spaces of a text whose white space is
    collapsed. *)
Lemma split_collapse_no_white : forall s skip run cur,
  (skip <> 0 -> cur = "") -> (run = true -> cur = "") ->
  clean (Str.rev cur) s = true ->
  Forall (fun w => no_white w = true)
    (split_go (collapse_go s skip run) cur).
Proof.
  induction s as [|c s IH]; intros skip run cur Hskip Hrun Hcur.
  - cbn [collapse_go split_go]. constructor; [|constructor].
    apply (clean_no_white "" _ Hcur).
  - cbn [collapse_go]. destruct skip as [|n].
    + destruct (white_width (String c s)) as [|n] eqn:W.
      * cbn [split_go]. rewrite (white_width_space c s W).
        apply IH; [congruence | discriminate|].
        rewrite rev_cons, clean_snoc, Hcur, W. reflexivity.
      * destruct run.
        -- rewrite (Hrun eq_refl). apply IH; reflexivity.
        -- cbn [split_go]. replace (" " =? " ")%char with true by reflexivity.
           constructor; [apply (clean_no_white _ _ Hcur)|].
           apply IH; reflexivity.
    + rewrite (Hskip ltac:(discriminate)). apply IH; reflexivity.
Qed.

(** Every token is a text of one character or more that holds no white
    space, no comma, no period and no capital letter. *)
Lemma tokens_chars address t :
  In t (tokens address) ->
  t <> "" /\ no_white t = true /\ Str.forallb token_char t = true.
Proof.
  unfold tokens. rewrite filter_In. intros [Hin Hlen]. split; [|split].
  - destruct t; [discriminate Hlen | discriminate].
  - pose proof (split_collapse_no_white
                  (ReplaceAll re_comma_dot (fun _ => " ")
                     (trim (toLowerCase address))) 0 false ""
                  (fun _ => eq_refl) (fun _ => eq_refl) eq_refl) as H.
    rewrite Forall_forall in H. apply (H t Hin).
  - pose proof (split_go_forallb token_char (normalizeAddress address) ""
                  eq_refl (normalizeAddress_chars address)) as H.
    rewrite Forall_forall in H. apply (H t Hin).
Qed.

Lemma not_upper_lower c : negb (is_upper c) = true -> (to_lower c =? c)%char = true.
Proof.
  destruct c as [[] [] [] [] [] [] [] []]; intros H;
    solve [discriminate H | reflexivity].
Qed.

Lemma token_lower address t : In t (tokens address) -> toLowerCase t = t.
Proof.
  intros H. destruct (tokens_chars address t H) as (_ & _ & Hc).
  apply map_fixed. eapply forallb_impl; [|exact Hc].
  intros c Hcc. unfold token_char in Hcc.
  apply andb_prop in Hcc. apply not_upper_lower. apply Hcc.
Qed.

End TokenFacts.

(** ** The results of the TypeScript engine *)

Module ResultFacts.
Import TS TSFacts MatchFacts PatternFacts TokenFacts.

Definition with_original (o : string) (r : AddressValidationResult)
  : AddressValidationResult :=
  mkResult (status r) (confidence r) o (validated r) (corrections r).

(** The input enters a result through its tokens and as [original]. *)
Lemma validateAddress_original a b ra :
  tokens a = tokens b ->
  validateAddress a = Ok ra -> validateAddress b = Ok (with_original b ra).
Proof.
  intros Ht. unfold validateAddress. rewrite Ht.
  destruct (List.length (tokens b) =? 0)%nat; [intros [= <-]; reflexivity|].
  destruct (extractZipCode (tokens b)) as [[zip p1]|]; cbn [bind];
    [|discriminate].
  destruct (extractState p1) as [[st p2]|]; cbn [bind]; [|discriminate].
  destruct (extractStreetNumber p2) as [[num p3]|]; cbn [bind];
    [|discriminate].
  destruct (streetAndCity num p3) as [[name cty]|]; cbn [bind];
    [|discriminate].
  match goal with |- bind ?m _ = _ -> _ =>
    destruct m as [[name' corr]|] end; cbn [bind]; [|discriminate].
  intros [= <-]. reflexivity.
Qed.

(** [validateAddress], step by step, on an input with a token. *)
Lemma validateAddress_steps address r :
  validateAddress address = Ok r -> tokens address <> [] ->
  exists zip p1 st p2 num p3 name cty v,
    extractZipCode (tokens address) = Ok (zip, p1)
    /\ extractState p1 = Ok (st, p2)
    /\ extractStreetNumber p2 = Ok (num, p3)
    /\ streetAndCity num p3 = Ok (name, cty)
    /\ validated r = Some v
    /\ zipCode v = zip /\ state v = st /\ streetNumber v = num
    /\ formatted v
       = Join (street_clause num (streetName v) ++ city_clause (city v)
               ++ state_clause st zip) ", ".
Proof.
  unfold validateAddress. intros H Hne.
  destruct (tokens address) as [|t0 ts] eqn:Et; [contradiction|].
  cbn [List.length Nat.eqb] in H.
  destruct (extractZipCode (t0 :: ts)) as [[zip p1]|] eqn:Ez;
    cbn [bind] in H; [|discriminate H].
  destruct (extractState p1) as [[st p2]|] eqn:Es; cbn [bind] in H;
    [|discriminate H].
  destruct (extractStreetNumber p2) as [[num p3]|] eqn:En; cbn [bind] in H;
    [|discriminate H].
  destruct (streetAndCity num p3) as [[name cty]|] eqn:Ec; cbn [bind] in H;
    [|discriminate H].
  match type of H with bind ?m _ = _ =>
    destruct m as [[name' corr]|] end; cbn [bind] in H; [|discriminate H].
  injection H as <-.
  exists zip, p1, st, p2, num, p3, name, cty. eexists.
  cbn [validated zipCode state streetNumber streetName city formatted].
  repeat split; solve [reflexivity | assumption].
Qed.

(** *** The ZIP code *)

Definition zip_groups (n : nat) (t : string) : bool :=
  match n with
  | 1 => ClassifierFacts.spec_zip t
  | _ => true
  end.

Lemma exactly_digits n : forall t rest,
  exactly n is_digit t = true ->
  ClassifierFacts.digits n (t ++ rest) = Some rest.
Proof.
  unfold exactly. induction n as [|n IH]; intros t rest H.
  - destruct t; [reflexivity | discriminate H].
  - destruct t as [|c t]; [discriminate H|].
    cbn in H |- *. destruct (is_digit c); [|rewrite andb_false_r in H;
      discriminate H].
    apply IH. exact H.
Qed.

Lemma groups_ok_zip : groups_ok zip_groups zipPattern.
Proof.
  unfold zipPattern. cbn [Seqs groups_ok]. repeat split.
  intros m (m1 & m2 & -> & L1 & L2). cbn [zip_groups].
  apply lang_Rep in L1. unfold ClassifierFacts.spec_zip.
  rewrite (exactly_digits 5 m1 m2 L1).
  destruct L2 as [(ma & mb & -> & (c & -> & Hc) & L4) | ->]; [|reflexivity].
  apply lang_Rep in L4. cbn [append]. rewrite Hc. cbn [andb].
  rewrite <- (append_empty_r mb), (exactly_digits 4 mb "" L4). reflexivity.
Qed.

(** A ZIP code that the engine finds is one that [isZipCode] of the Go
    engine accepts. *)
Lemma extractZipCode_loop_zip parts : forall n z p',
  extractZipCode_loop parts n = Ok (Some z, p') -> Go.isZipCode z = true.
Proof.
  induction n as [|i IH]; intros z p' H; cbn [extractZipCode_loop] in H;
    [discriminate H|].
  destruct (index parts i) as [part|]; cbn [bind] in H; [|discriminate H].
  destruct (search zipPattern None part) as [[[m s'] caps]|] eqn:E;
    [|eapply IH; exact H].
  injection H as <- _.
  destruct (search_sound _ _ _ _ _ _ E) as (p0 & s0 & pr & Hs & _).
  destruct (sem_caps zip_groups zipPattern groups_ok_zip _ _ _ _ _ _ Hs)
    as (new & -> & Q & S1).
  rewrite app_nil_r, ClassifierFacts.isZipCode_spec.
  apply (submatch_set zip_groups new 1 Q). apply S1. cbn. auto.
Qed.

Lemma splice1_incl {A : Type} (l : list A) i : incl (splice1 l i) l.
Proof.
  unfold splice1. intros x Hx. apply in_app_or in Hx.
  destruct Hx as [Hx|Hx].
  - rewrite <- (firstn_skipn i l). apply in_or_app. left. exact Hx.
  - rewrite <- (firstn_skipn (S i) l). apply in_or_app. right. exact Hx.
Qed.

Lemma extractZipCode_loop_incl parts : forall n z p',
  extractZipCode_loop parts n = Ok (z, p') -> incl p' parts.
Proof.
  induction n as [|i IH]; intros z p' H; cbn [extractZipCode_loop] in H.
  - injection H as _ <-. apply incl_refl.
  - destruct (index parts i) as [part|]; cbn [bind] in H; [|discriminate H].
    destruct (search zipPattern None part) as [[[m s'] caps]|].
    + injection H as _ <-. apply splice1_incl.
    + eapply IH. exact H.
Qed.

(** *** The state *)

(** What the engine can put into [state]: one of the 51 codes or, for the
    token [constructor] or [__proto__], what the table inherits under
    that name. *)
Definition state_from (parts : list string) (v : value) : Prop :=
  match v with
  | VStr c => In c (values stateAbbreviations)
  | VNative n => n = "Object" /\ In "constructor" (List.map toLowerCase parts)
  | VObjectPrototype => In "__proto__" (List.map toLowerCase parts)
  end.

Lemma assoc_In {V : Type} (m : list (string * V)) k v :
  assoc m k = Some v -> In v (List.map snd m).
Proof.
  induction m as [|[k' v'] m IH]; cbn; [discriminate|].
  destruct (k' =? k)%string; [intros [= <-]; auto | auto].
Qed.

Lemma ToLower_idem s : ToLower (ToLower s) = ToLower s.
Proof.
  unfold ToLower. induction s as [|c s IH]; cbn; [reflexivity|].
  rewrite to_lower_idem, IH. reflexivity.
Qed.

(** The names that the tables inherit and that are in lower case. *)
Lemma inherited_lower k v :
  assoc object_prototype k = Some v -> toLowerCase k = k ->
  (k = "constructor" /\ v = VNative "Object")
  \/ (k = "__proto__" /\ v = VObjectPrototype).
Proof.
  unfold object_prototype. cbn [assoc].
  repeat match goal with
         | |- context [(?key =? k)%string] =>
             destruct (String.eqb_spec key k) as [<-|_];
             [intros [= <-] Hl; first [ left; split; reflexivity
                                      | right; split; reflexivity
                                      | discriminate Hl ] |]
         end.
  discriminate.
Qed.

Lemma extractState_loop_state parts : forall n v p',
  extractState_loop parts n = Ok (Some v, p') -> state_from parts v.
Proof.
  induction n as [|i IH]; intros v p' H; cbn [extractState_loop] in H;
    [discriminate H|].
  destruct (index parts i) as [p|] eqn:Ei; cbn [bind] in H; [|discriminate H].
  assert (Hin : In p parts).
  { unfold index in Ei. destruct (nth_error parts i) as [x|] eqn:En;
      [|discriminate Ei]. injection Ei as <-.
    eapply nth_error_In. exact En. }
  assert (Hup : includes (values stateAbbreviations)
                  (toUpperCase (toLowerCase p)) = true ->
                state_from parts (VStr (toUpperCase (toLowerCase p)))).
  { intros Ev. unfold state_from, includes in *.
    apply existsb_exists in Ev. destruct Ev as (x & Hx & Hex).
    apply String.eqb_eq in Hex. rewrite Hex. exact Hx. }
  unfold get_truthy, or_else in H.
  destruct (get stateAbbreviations (toLowerCase p)) as [v0|] eqn:Eg.
  - destruct (truthy v0) eqn:Et.
    + injection H as <- _. unfold get in Eg.
      destruct (assoc stateAbbreviations (toLowerCase p)) as [c|] eqn:Ea.
      * injection Eg as <-. unfold state_from, values.
        eapply assoc_In. exact Ea.
      * destruct (inherited_lower _ _ Eg (ToLower_idem p))
          as [(Ek & ->) | (Ek & ->)]; unfold state_from.
        -- split; [reflexivity|]. rewrite <- Ek. apply in_map. exact Hin.
        -- rewrite <- Ek. apply in_map. exact Hin.
    + destruct (includes (values stateAbbreviations)
                  (toUpperCase (toLowerCase p))) eqn:Ev;
        [|eapply IH; exact H].
      injection H as <- _. apply Hup. reflexivity.
  - destruct (includes (values stateAbbreviations)
                (toUpperCase (toLowerCase p))) eqn:Ev;
      [|eapply IH; exact H].
    injection H as <- _. apply Hup. reflexivity.
Qed.

(** *** The street number *)

Lemma match_here_last_lower prev s :
  match_here re_last_lower prev s
  = match s with
    | String c EmptyString =>
        if is_lower c then Some ("", [(1, String c "")]) else None
    | _ => None
    end.
Proof.
  unfold match_here, re_last_lower. cbn [rmatch].
  destruct s as [|c [|d t]]; [reflexivity | |].
  - destruct (is_lower c); reflexivity.
  - destruct (is_lower c); reflexivity.
Qed.

Lemma digit_not_lower c : is_digit c = true -> is_lower c = false.
Proof.
  destruct c as [[] [] [] [] [] [] [] []]; intros H;
    solve [discriminate H | reflexivity].
Qed.

Lemma letter_cases c :
  is_letter c = true -> is_lower c = false -> is_upper c = true.
Proof.
  unfold is_letter. intros H L. rewrite L, orb_false_r in H. exact H.
Qed.

(** The pattern for a small letter at the end finds nothing among
    digits. *)
Lemma search_last_lower_digits l : forall ds prev,
  Str.forallb is_digit ds = true -> String.length l <= 1 ->
  search re_last_lower prev (ds ++ l)
  = match l with
    | String c _ =>
        if is_lower c then Some (String c "", "", [(1, String c "")])
        else None
    | EmptyString => None
    end.
Proof.
  intros ds. induction ds as [|d ds IH]; intros prev Hd Hl.
  - cbn [append]. destruct l as [|c [|c' l']]; [reflexivity | |
      cbn in Hl; lia].
    cbn [search]. rewrite match_here_last_lower.
    destruct (is_lower c); [reflexivity|].
    cbn [search]. rewrite match_here_last_lower. reflexivity.
  - cbn [Str.forallb] in Hd. apply andb_prop in Hd. destruct Hd as [Hd Hds].
    cbn [append search].
    assert (E : match_here re_last_lower prev (String d (ds ++ l)) = None).
    { rewrite match_here_last_lower, (digit_not_lower d Hd).
      destruct (ds ++ l)%string; reflexivity. }
    rewrite E. apply IH; assumption.
Qed.

(** A street number is digits and perhaps one capital letter behind
    them. *)
Definition number_text (n : string) : Prop :=
  exists ds l,
    n = (ds ++ l)%string /\ some_of is_digit ds = true
    /\ (l = "" \/ exists u, l = String u "" /\ is_upper u = true).

Lemma numberPattern_text first :
  MatchString numberPattern first = true ->
  exists ds l,
    first = (ds ++ l)%string /\ some_of is_digit ds = true
    /\ (l = "" \/ exists c, l = String c "" /\ is_letter c = true).
Proof.
  unfold MatchString. intros H.
  assert (E : FindStringSubmatch numberPattern 0 first <> None).
  { unfold FindStringSubmatch.
    destruct (search numberPattern None first) as [[[m s'] caps]|];
      [discriminate | discriminate H]. }
  apply (Find_Bol numberPattern _ 0 first eq_refl) in E.
  destruct E as (prev' & s' & E).
  unfold numberPattern in E. cbn [Seqs] in E.
  destruct E as (p1 & s1 & (_ & _ & ->) & E).
  destruct E as (p2 & s2 & E2 & E).
  destruct (acc_lang _ _ _ _ _ E2) as (ds & -> & L). apply lang_Plus in L.
  destruct E as (p3 & s3 & E3 & E).
  destruct E as (p4 & s4 & (-> & _ & _) & _).
  exists ds, s2. split; [reflexivity|]. split; [exact L|].
  destruct E3 as [(c & -> & Hc & _) | (_ & ->)]; [right; eauto | now left].
Qed.

Lemma ReplaceFirst_number first :
  MatchString numberPattern first = true ->
  number_text (ReplaceFirst re_last_lower toUpperCase first).
Proof.
  intros H. destruct (numberPattern_text first H) as (ds & l & -> & Hds & Hl).
  pose proof (PatternFacts.some_of_forallb _ _ Hds) as Hd.
  unfold ReplaceFirst.
  rewrite (search_last_lower_digits l ds None Hd)
    by (destruct Hl as [->|(c & -> & _)]; cbn; lia).
  destruct Hl as [->|(c & -> & Hc)].
  - exists ds, "". auto.
  - destruct (is_lower c) eqn:El.
    + exists ds, (String (to_upper c) ""). split; [|split; [exact Hds|]].
      * rewrite length_app. cbn [String.length].
        replace (String.length ds + 1 - 1 - 0) with (String.length ds) by lia.
        rewrite substring_app. reflexivity.
      * right. exists (to_upper c). split; [reflexivity|].
        apply StateFacts.lower_to_upper. exact El.
    + exists ds, (String c ""). split; [reflexivity|]. split; [exact Hds|].
      right. exists c. split; [reflexivity|]. apply letter_cases; assumption.
Qed.

Lemma extractStreetNumber_number parts n p' :
  extractStreetNumber parts = Ok (Some n, p') -> number_text n.
Proof.
  unfold extractStreetNumber. destruct parts as [|first rest];
    [discriminate|].
  destruct (MatchString numberPattern first) eqn:E; [|discriminate].
  unfold or_null. destruct (is_empty first); [discriminate|].
  intros [= <- _]. apply ReplaceFirst_number. exact E.
Qed.

(** *** The confidence *)

Lemma rounded_range (v : ValidatedAddress) (corr : list string) :
  List.length corr <= 2 ->
  PrimFloat.leb 0.1%float (rounded (calculateConfidence v corr)) = true
  /\ PrimFloat.leb (rounded (calculateConfidence v corr)) 0.9%float = true
  /\ (0 < List.length corr ->
      PrimFloat.leb (rounded (calculateConfidence v corr)) 0.85%float = true).
Proof.
  intros Hn. destruct v as [num name cty st zip fmt].
  unfold calculateConfidence, rounded.
  cbn [streetNumber streetName city state zipCode].
  destruct (absent num), (absent name), (absent cty), (absent_value st),
    (absent zip);
    (destruct corr as [|c0 [|c1 [|c2 corr]]];
     [ | | | cbn [List.length] in Hn; lia ]);
    (split; [vm_compute; reflexivity|]);
    (split; [vm_compute; reflexivity|]);
    cbn [List.length]; intros H; solve [lia | vm_compute; reflexivity].
Qed.

Lemma corrected_noted parsed corr :
  status_of parsed corr = "corrected" -> 0 < List.length corr.
Proof.
  unfold status_of.
  destruct (_ || _); [discriminate|].
  destruct corr; cbn; [discriminate | lia].
Qed.

(** *** Trimming and case *)

Lemma is_space_lower c : is_space (to_lower c) = is_space c.
Proof. destruct c as [[] [] [] [] [] [] [] []]; reflexivity. Qed.

Lemma upper_to_lower c : is_upper c = true -> is_lower (to_lower c) = true.
Proof.
  destruct c as [[] [] [] [] [] [] [] []]; intros H;
    solve [discriminate H | reflexivity].
Qed.

(** Lower-casing turns no character into one that is no letter, and none
    that is no letter into another. *)
Lemma to_lower_other c d :
  is_lower d = false -> is_upper d = false ->
  (to_lower c =? d)%char = (c =? d)%char.
Proof.
  intros Ld Ud. destruct (is_upper c) eqn:U.
  - pose proof (upper_to_lower c U) as L.
    destruct (Ascii.eqb_spec (to_lower c) d) as [E|_]; [congruence|].
    destruct (Ascii.eqb_spec c d) as [E|_]; [congruence | reflexivity].
  - unfold to_lower. rewrite U. reflexivity.
Qed.

Lemma in_range_lower c :
  in_range (b 128) (b 138) (to_lower c) = in_range (b 128) (b 138) c.
Proof. destruct c as [[] [] [] [] [] [] [] []]; reflexivity. Qed.

Lemma white2_lower c1 c2 :
  white2 (to_lower c1) (to_lower c2) = white2 c1 c2.
Proof.
  unfold white2. rewrite !to_lower_other by reflexivity. reflexivity.
Qed.

Lemma white3_lower c1 c2 c3 :
  white3 (to_lower c1) (to_lower c2) (to_lower c3) = white3 c1 c2 c3.
Proof.
  unfold white3, space3.
  rewrite in_range_lower, !to_lower_other by reflexivity. reflexivity.
Qed.

Section TrimLower.

Variable sp2 : ascii -> ascii -> bool.
Variable sp3 : ascii -> ascii -> ascii -> bool.
Hypothesis sp2_lower :
  forall c1 c2, sp2 (to_lower c1) (to_lower c2) = sp2 c1 c2.
Hypothesis sp3_lower : forall c1 c2 c3,
  sp3 (to_lower c1) (to_lower c2) (to_lower c3) = sp3 c1 c2 c3.

Lemma trim_front_lower : forall n s, String.length s <= n ->
  trim_front sp2 sp3 (ToLower s) = ToLower (trim_front sp2 sp3 s).
Proof.
  unfold ToLower.
  induction n as [|n IH]; intros s Hn.
  - destruct s; [reflexivity | cbn in Hn; lia].
  - destruct s as [|c1 s1]; [reflexivity|].
    cbn [Str.map trim_front String.length] in *. rewrite is_space_lower.
    destruct (is_space c1); [apply IH; lia|].
    destruct s1 as [|c2 s2]; [reflexivity|].
    cbn [Str.map String.length] in *. rewrite sp2_lower.
    destruct (sp2 c1 c2); [apply IH; lia|].
    destruct s2 as [|c3 s3]; [reflexivity|].
    cbn [Str.map String.length] in *. rewrite sp3_lower.
    destruct (sp3 c1 c2 c3); [apply IH; lia | reflexivity].
Qed.

End TrimLower.

(** Trimming and lower-casing can be done in either order. *)
Lemma trim_lower s : trim (ToLower s) = ToLower (trim s).
Proof.
  unfold trim, trim_start.
  rewrite (trim_front_lower _ _ white2_lower white3_lower _ s (le_n _)).
  unfold ToLower at 1. rewrite StateFacts.map_rev.
  fold (ToLower (Str.rev (trim_front white2 white3 s))).
  rewrite (trim_front_lower white2_rev white3_rev)
    with (n := String.length (Str.rev (trim_front white2 white3 s)));
    [| intros; apply white2_lower | intros; apply white3_lower | apply le_n].
  unfold ToLower. apply StateFacts.map_rev.
Qed.

(** Trimming twice is trimming once. *)
Lemma trim_idem s : trim (trim s) = trim s.
Proof.
  unfold trim, trim_start.
  set (tf := trim_front white2 white3).
  set (tr := trim_front white2_rev white3_rev).
  assert (H : tf (Str.rev (tr (Str.rev (tf s))))
              = Str.rev (tr (Str.rev (tf s)))).
  { destruct (trim_front_suffix white2_rev white3_rev _ (Str.rev (tf s))
                (le_n _)) as (pre & E). fold tr in E.
    assert (E' : tf s = (Str.rev (tr (Str.rev (tf s))) ++ Str.rev pre)%string).
    { rewrite <- rev_app, <- E. symmetry. apply rev_involutive. }
    destruct (Str.rev (tr (Str.rev (tf s)))) as [|c q] eqn:Eq; [reflexivity|].
    apply trim_front_fixed. apply (width_front_prefix _ _ _ (Str.rev pre)).
    - rewrite <- E'. apply (trim_front_width _ _ _ s (le_n _)).
    - discriminate. }
  rewrite H, rev_involutive. unfold tr. rewrite trim_front_idem.
  reflexivity.
Qed.

(** Trimming the input leaves the tokens as they are. *)
Lemma tokens_trim address : tokens (trim address) = tokens address.
Proof.
  unfold tokens, normalizeAddress, toLowerCase.
  rewrite <- trim_lower, trim_idem. reflexivity.
Qed.

Lemma lower_of_upper c : to_lower (to_upper c) = to_lower c.
Proof. destruct c as [[] [] [] [] [] [] [] []]; reflexivity. Qed.

Lemma tokens_upper address : tokens (toUpperCase address) = tokens address.
Proof.
  unfold tokens, normalizeAddress, toLowerCase, toUpperCase.
  assert (H : ToLower (ToUpper address) = ToLower address).
  { unfold ToLower, ToUpper. induction address as [|c s IH]; cbn;
      [reflexivity|]. rewrite lower_of_upper, IH. reflexivity. }
  rewrite H. reflexivity.
Qed.

End ResultFacts.

(** ** Standardizing a street name twice, with marks in it *)

Module TwiceFacts.
Import Go GoFacts IdemFacts WordwiseFacts.

(** The word at the head of [s]: its longest prefix of word characters. *)
Fixpoint word_at (s : string) : string :=
  match s with
  | String c t => if is_word c then String c (word_at t) else ""
  | EmptyString => ""
  end.

(** A word that the tables rewrite: what the two tables make of it
    differs from it by more than the case of its letters.  Such a word is
    a key of one of the tables; every key is one but "way", whose
    replacement is "Way". *)
Definition rewritten (w : string) : bool := negb (EqualFold (step w) w).

(** A mark: a character that is neither a word character nor white
    space. *)
Definition is_mark (c : ascii) : bool := negb (is_word c) && negb (is_space c).

(** No word that the tables rewrite stands directly behind a mark. *)
Fixpoint no_key_behind_mark (s : string) : bool :=
  match s with
  | String c t =>
      (negb (is_mark c) || negb (rewritten (word_at t)))
      && no_key_behind_mark t
  | EmptyString => true
  end.

(** *** The words that the tables rewrite *)

(** Words that are equal up to case find the same entry. *)
Lemma find_fold (T : table) a a' :
  ToLower a = ToLower a' ->
  find (fun e => EqualFold (fst e) a) T
  = find (fun e => EqualFold (fst e) a') T.
Proof.
  intros H.
  assert (E : forall e : string * string,
            EqualFold (fst e) a = EqualFold (fst e) a').
  { intros e. rewrite !EqualFold_lower, H. reflexivity. }
  induction T as [|e T IH]; [reflexivity|]. cbn [find].
  rewrite E, IH. reflexivity.
Qed.

Lemma lookup_fold_lower T a a' :
  ToLower a = ToLower a' ->
  ToLower (lookup_fold T a) = ToLower (lookup_fold T a').
Proof.
  intros H. unfold lookup_fold. rewrite (find_fold T a a' H).
  destruct (find (fun e => EqualFold (fst e) a') T); [reflexivity | exact H].
Qed.

(** A word that equals a key up to case is looked up as the key is. *)
Lemma lookup_fold_entry T e w :
  In e T -> EqualFold (fst e) w = true ->
  lookup_fold T w = lookup_fold T (fst e).
Proof.
  intros I F. unfold lookup_fold.
  assert (H : ToLower w = ToLower (fst e))
    by (symmetry; apply EqualFold_true; exact F).
  rewrite (find_fold T w (fst e) H).
  destruct (find (fun e0 => EqualFold (fst e0) (fst e)) T) as [e'|] eqn:E;
    [reflexivity|].
  pose proof (find_none _ _ E e I) as N. cbn beta in N.
  rewrite EqualFold_lower, String.eqb_refl in N. discriminate N.
Qed.

Lemma step_lower a a' :
  ToLower a = ToLower a' -> ToLower (step a) = ToLower (step a').
Proof.
  intros H. unfold step. apply lookup_fold_lower, lookup_fold_lower. exact H.
Qed.

Lemma ToLower_twice s : ToLower (ToLower s) = ToLower s.
Proof.
  unfold ToLower. induction s as [|c s IH]; cbn [Str.map]; [reflexivity|].
  rewrite IH. f_equal. destruct c as [[] [] [] [] [] [] [] []]; reflexivity.
Qed.

Lemma rewritten_lower w : rewritten (ToLower w) = rewritten w.
Proof.
  unfold rewritten. rewrite !EqualFold_lower.
  rewrite (step_lower (ToLower w) w (ToLower_twice w)), ToLower_twice.
  reflexivity.
Qed.

(** A word that is not rewritten comes back when what the tables make of
    it is put in lower case. *)
Lemma settled_lower w :
  rewritten w = false -> ToLower w = w -> ToLower (step w) = w.
Proof.
  unfold rewritten. intros H Hw. apply negb_false_iff in H.
  apply EqualFold_true in H. rewrite H. exact Hw.
Qed.

Lemma lookup_fold_key T w :
  lookup_fold T w <> w ->
  exists e, In e T /\ EqualFold (fst e) w = true.
Proof.
  unfold lookup_fold. destruct (find _ T) as [e|] eqn:E; [|contradiction].
  intros _. apply find_some in E. exists e. exact E.
Qed.

(** A rewritten word is a key of one of the two tables, up to case, and
    the tables make of it what they make of the key. *)
Lemma rewritten_key w :
  rewritten w = true ->
  exists e, In e (getStreetSuffixes ++ getCommonMisspellings)
            /\ EqualFold (fst e) w = true /\ step w = step (fst e).
Proof.
  unfold rewritten. intros H. apply negb_true_iff in H. unfold step in *.
  destruct (String.eqb_spec (lookup_fold getStreetSuffixes w) w) as [E|E].
  - rewrite E in H.
    destruct (String.eqb_spec (lookup_fold getCommonMisspellings w) w)
      as [E'|E'].
    + rewrite E' in H. rewrite EqualFold_lower, String.eqb_refl in H.
      discriminate H.
    + destruct (lookup_fold_key _ _ E') as (e & I & F).
      exists e. split; [apply in_or_app; right; exact I|].
      split; [exact F|].
      assert (Hl : ToLower (fst e) = ToLower w)
        by (apply EqualFold_true; exact F).
      assert (Hs : lookup_fold getStreetSuffixes (fst e) = fst e
                   \/ lookup_fold getStreetSuffixes (fst e)
                      = lookup_fold getStreetSuffixes w).
      { unfold lookup_fold. rewrite (find_fold _ (fst e) w Hl).
        destruct (find (fun e0 => EqualFold (fst e0) w) getStreetSuffixes);
          [right | left]; reflexivity. }
      destruct Hs as [-> | ->]; [|reflexivity].
      rewrite E. apply (lookup_fold_entry _ e w I F).
  - destruct (lookup_fold_key _ _ E) as (e & I & F).
    exists e. split; [apply in_or_app; left; exact I|].
    split; [exact F|].
    rewrite (lookup_fold_entry _ e w I F). reflexivity.
Qed.

(** Every key is rewritten, but "way". *)
Lemma keys_rewritten :
  List.forallb
    (fun e => Bool.eqb (rewritten (fst e)) (negb (EqualFold (fst e) "way")))
    (getStreetSuffixes ++ getCommonMisspellings) = true.
Proof. vm_compute. reflexivity. Qed.

(** What the tables make of a rewritten word does not come back from
    lower case: a second run does not restore it. *)
Lemma rewritten_unsettled w :
  rewritten w = true -> step (ToLower (step w)) <> step w.
Proof.
  intros H. destruct (rewritten_key w H) as (e & I & F & E).
  assert (R : rewritten (fst e) = true).
  { rewrite <- rewritten_lower, (proj1 (EqualFold_true _ _) F),
      rewritten_lower. exact H. }
  assert (K : List.forallb
                (fun e => implb (rewritten (fst e))
                            (negb (step (ToLower (step (fst e)))
                                   =? step (fst e))%string))
                (getStreetSuffixes ++ getCommonMisspellings) = true)
    by (vm_compute; reflexivity).
  rewrite forallb_forall in K. specialize (K e I). rewrite R in K.
  cbn [implb] in K. apply negb_true_iff in K. apply String.eqb_neq in K.
  rewrite E. exact K.
Qed.

Lemma rewritten_empty : rewritten "" = false.
Proof. reflexivity. Qed.

(** The rewritten words are the keys of the two tables in any case of the
    letters, "way" apart. *)
Lemma rewritten_spec w :
  rewritten w = true
  <-> exists e, In e (getStreetSuffixes ++ getCommonMisspellings)
                /\ EqualFold (fst e) w = true
                /\ EqualFold (fst e) "way" = false.
Proof.
  assert (R : forall e : string * string, EqualFold (fst e) w = true ->
                rewritten (fst e) = rewritten w).
  { intros e F. rewrite <- rewritten_lower, (proj1 (EqualFold_true _ _) F).
    apply rewritten_lower. }
  pose proof keys_rewritten as K. rewrite forallb_forall in K.
  split.
  - intros H. destruct (rewritten_key w H) as (e & I & F & _).
    exists e. split; [exact I|]. split; [exact F|].
    specialize (K e I). rewrite (R e F), H in K.
    destruct (EqualFold (fst e) "way"); [discriminate K | reflexivity].
  - intros (e & I & F & W). rewrite <- (R e F).
    specialize (K e I). rewrite W in K. apply Bool.eqb_prop in K. exact K.
Qed.

(** *** Words and marks in a text *)

Lemma word_at_word t : Str.forallb is_word (word_at t) = true.
Proof.
  induction t as [|c t IH]; [reflexivity|]. cbn [word_at].
  destruct (is_word c) eqn:E; [|reflexivity].
  cbn [Str.forallb]. rewrite E, IH. reflexivity.
Qed.

(** A text is the word at its head and a rest that begins with no word
    character. *)
Lemma word_at_span t :
  exists rest, t = (word_at t ++ rest)%string /\ word_after rest = false.
Proof.
  induction t as [|c t (rest & E & Hr)].
  - exists "". auto.
  - cbn [word_at]. destruct (is_word c) eqn:Ec.
    + exists rest. cbn [String.append]. rewrite <- E. auto.
    + exists (String c t). cbn. auto.
Qed.

Lemma word_at_app t post :
  word_after post = false -> word_at (t ++ post) = word_at t.
Proof.
  intros H. induction t as [|c t IH]; cbn [String.append word_at].
  - destruct post as [|d post]; [reflexivity|]. cbn in H. cbn [word_at].
    rewrite H. reflexivity.
  - rewrite IH. reflexivity.
Qed.

Lemma word_at_prefix a X :
  Str.forallb is_word a = true -> word_after X = false ->
  word_at (a ++ X) = a.
Proof.
  intros Ha HX. rewrite (word_at_app a X HX).
  induction a as [|c a IH]; [reflexivity|]. cbn [Str.forallb] in Ha.
  apply andb_prop in Ha. destruct Ha as [Hc Ha]. cbn [word_at].
  rewrite Hc, (IH Ha). reflexivity.
Qed.

Lemma append_inv_head a : forall X Y, (a ++ X)%string = (a ++ Y)%string -> X = Y.
Proof.
  induction a as [|c a IH]; intros X Y H; [exact H|].
  cbn [String.append] in H. injection H as H. apply IH. exact H.
Qed.

(** A word and what follows it are told apart in one way only. *)
Lemma split_unique a b X Y :
  Str.forallb is_word a = true -> Str.forallb is_word b = true ->
  word_after X = false -> word_after Y = false ->
  (a ++ X)%string = (b ++ Y)%string -> a = b /\ X = Y.
Proof.
  intros Ha Hb HX HY E.
  assert (Eab : a = b).
  { rewrite <- (word_at_prefix a X Ha HX), E. apply word_at_prefix; assumption. }
  subst b. split; [reflexivity|]. apply (append_inv_head a). exact E.
Qed.

Lemma is_word_lower c : is_word (to_lower c) = is_word c.
Proof. destruct c as [[] [] [] [] [] [] [] []]; reflexivity. Qed.

Lemma is_mark_lower c : is_mark (to_lower c) = is_mark c.
Proof. destruct c as [[] [] [] [] [] [] [] []]; reflexivity. Qed.

Lemma word_at_lower t : word_at (ToLower t) = ToLower (word_at t).
Proof.
  unfold ToLower. induction t as [|c t IH]; [reflexivity|].
  cbn [Str.map word_at]. rewrite is_word_lower.
  destruct (is_word c); [|reflexivity]. cbn [Str.map]. rewrite IH.
  reflexivity.
Qed.

Lemma no_key_lower s :
  no_key_behind_mark (ToLower s) = no_key_behind_mark s.
Proof.
  induction s as [|c s IH]; [reflexivity|].
  change (ToLower (String c s)) with (String (to_lower c) (ToLower s)).
  cbn [no_key_behind_mark].
  rewrite is_mark_lower, word_at_lower, rewritten_lower, IH. reflexivity.
Qed.

Lemma word_not_mark c : is_word c = true -> is_mark c = false.
Proof. unfold is_mark. intros ->. reflexivity. Qed.

Lemma space_not_mark c : is_space c = true -> is_mark c = false.
Proof. unfold is_mark. intros ->. apply andb_false_r. Qed.

Lemma space_not_word c : is_space c = true -> is_word c = false.
Proof.
  destruct c as [[] [] [] [] [] [] [] []]; intros H;
    solve [discriminate H | reflexivity].
Qed.

(** The condition looks at nothing in front of a word, ... *)
Lemma no_key_word w t :
  Str.forallb is_word w = true ->
  no_key_behind_mark (w ++ t) = no_key_behind_mark t.
Proof.
  induction w as [|c w IH]; intros H; [reflexivity|].
  cbn [Str.forallb] in H. apply andb_prop in H. destruct H as [Hc Hw].
  cbn [String.append no_key_behind_mark].
  rewrite (word_not_mark c Hc), (IH Hw). reflexivity.
Qed.

(** ... and holds of a text cut at a character that is no word character
    when it holds of the two parts. *)
Lemma no_key_sep c t : is_word c = false ->
  forall a,
    no_key_behind_mark (a ++ String c t)
    = no_key_behind_mark a && no_key_behind_mark (String c t).
Proof.
  intros Hc. induction a as [|d a IH]; [reflexivity|].
  cbn [String.append]. cbn [no_key_behind_mark]. rewrite IH.
  rewrite (word_at_app a (String c t)) by (cbn; exact Hc).
  apply andb_assoc.
Qed.

Lemma no_key_spaces_l pre y :
  Str.forallb is_space pre = true ->
  no_key_behind_mark (pre ++ y) = no_key_behind_mark y.
Proof.
  induction pre as [|c pre IH]; intros H; [reflexivity|].
  cbn [Str.forallb] in H. apply andb_prop in H. destruct H as [Hc Hp].
  cbn [String.append no_key_behind_mark].
  rewrite (space_not_mark c Hc), (IH Hp). reflexivity.
Qed.

Lemma no_key_spaces_r z post :
  Str.forallb is_space post = true ->
  no_key_behind_mark (z ++ post) = no_key_behind_mark z.
Proof.
  intros H. destruct post as [|c post]; [rewrite append_empty_r; reflexivity|].
  pose proof H as H'. cbn [Str.forallb] in H'. apply andb_prop in H'.
  destruct H' as [Hc _].
  rewrite (no_key_sep c post (space_not_word c Hc)).
  rewrite <- (append_empty_r (String c post)) at 1.
  rewrite (no_key_spaces_l _ "" H). apply andb_true_r.
Qed.

(** *** Trimming and fields of ASCII text *)

Section TrimAscii.

Variable sp2 : ascii -> ascii -> bool.
Variable sp3 : ascii -> ascii -> ascii -> bool.
Hypothesis sp2_ascii : forall c1 c2, is_ascii c1 = true -> sp2 c1 c2 = false.
Hypothesis sp3_ascii :
  forall c1 c2 c3, is_ascii c1 = true -> sp3 c1 c2 c3 = false.

(** Trimming ASCII text takes white space of one byte away, and nothing
    else. *)
Lemma trim_front_ascii s :
  Str.forallb is_ascii s = true ->
  exists pre, s = (pre ++ trim_front sp2 sp3 s)%string
              /\ Str.forallb is_space pre = true.
Proof.
  induction s as [|c s IH]; intros H; [exists ""; auto|].
  cbn [Str.forallb] in H. apply andb_prop in H. destruct H as [Hc Hs].
  cbn [trim_front]. destruct (is_space c) eqn:E.
  - destruct (IH Hs) as (pre & Ep & Hp). exists (String c pre).
    cbn [String.append Str.forallb]. rewrite <- Ep, E, Hp. auto.
  - exists "". split; [|reflexivity].
    destruct s as [|c2 [|c3 s]]; try reflexivity;
      rewrite (sp2_ascii c c2 Hc); try reflexivity.
    rewrite (sp3_ascii c c2 c3 Hc). reflexivity.
Qed.

End TrimAscii.

Lemma no_key_TrimSpace s :
  Str.forallb is_ascii s = true ->
  no_key_behind_mark (TrimSpace s) = no_key_behind_mark s.
Proof.
  intros Ha. unfold TrimSpace, TrimRight, TrimLeft, TrimLeftRev.
  destruct (trim_front_ascii space2 space3 space2_ascii_lead
              space3_ascii_lead s Ha) as (pre & E & Hpre).
  set (y := trim_front space2 space3 s) in *.
  assert (Hay : Str.forallb is_ascii (Str.rev y) = true).
  { rewrite forallb_rev. unfold y. apply trim_front_forallb. exact Ha. }
  destruct (trim_front_ascii space2_rev space3_rev
              (fun c1 c2 Hc => space2_ascii_trail c2 c1 Hc)
              (fun c1 c2 c3 Hc => space3_ascii_trail c3 c2 c1 Hc)
              (Str.rev y) Hay) as (post & E' & Hp).
  set (z := trim_front space2_rev space3_rev (Str.rev y)) in *.
  assert (Ey : y = (Str.rev z ++ Str.rev post)%string).
  { rewrite <- rev_app, <- E'. symmetry. apply rev_involutive. }
  rewrite E, (no_key_spaces_l pre y Hpre).
  rewrite Ey. symmetry. apply no_key_spaces_r.
  rewrite forallb_rev. exact Hp.
Qed.

(** The condition holds of a text when it holds of every field. *)
Lemma fields_no_key : forall x cur,
  List.forallb no_key_behind_mark (fields_ascii x cur)
  = no_key_behind_mark (Str.rev cur ++ x).
Proof.
  assert (Hflush : forall cur k,
    List.forallb no_key_behind_mark (flush cur k)
    = no_key_behind_mark (Str.rev cur) && List.forallb no_key_behind_mark k).
  { intros cur k. unfold flush. destruct cur as [|c cur]; reflexivity. }
  induction x as [|c x IH]; intros cur; cbn [fields_ascii].
  - rewrite Hflush, append_empty_r. apply andb_true_r.
  - destruct (is_space c) eqn:E.
    + rewrite Hflush, IH. cbn [Str.rev Str.rev_append String.append].
      rewrite (no_key_sep c x (space_not_word c E)).
      cbn [no_key_behind_mark]. rewrite (space_not_mark c E). reflexivity.
    + rewrite IH, rev_cons, append_assoc. reflexivity.
Qed.

(** The fields of a street name of ASCII text. *)
Lemma street_fields s :
  Str.forallb is_ascii s = true ->
  Forall (word_of lowchar) (Fields (ToLower (TrimSpace s)))
  /\ List.forallb no_key_behind_mark (Fields (ToLower (TrimSpace s)))
     = no_key_behind_mark s.
Proof.
  intros Ha. split; [apply city_words; exact Ha|].
  unfold Fields. rewrite fields_go_ascii.
  - rewrite fields_no_key. cbn [Str.rev Str.rev_append String.append].
    rewrite no_key_lower. apply no_key_TrimSpace. exact Ha.
  - unfold ToLower. rewrite forallb_map.
    apply (TrimSpace_forallb _ s) in Ha. revert Ha. apply forallb_impl.
    intros c Hc. destruct c as [[] [] [] [] [] [] [] []];
      solve [discriminate Hc | reflexivity].
Qed.

(** *** One field, standardized twice *)

Lemma map_words_sep f c b : is_word c = false ->
  forall a cur,
    map_words_go f (a ++ String c b) cur
    = (map_words_go f a cur ++ String c (map_words f b))%string.
Proof.
  intros Hc. induction a as [|x a IH]; intros cur; cbn [String.append map_words_go].
  - rewrite Hc. reflexivity.
  - destruct (is_word x); [apply IH|].
    rewrite IH, append_assoc. reflexivity.
Qed.

(** Fields are rewritten one by one. *)
Lemma map_words_join f fs :
  map_words f (Join fs " ") = Join (List.map (map_words f) fs) " ".
Proof.
  unfold Join. induction fs as [|a fs IH]; [reflexivity|].
  cbn [String.concat List.map]. destruct fs as [|a' fs]; [reflexivity|].
  unfold map_words at 1.
  change (a ++ " " ++ String.concat " " (a' :: fs))%string
    with (a ++ String " " (String.concat " " (a' :: fs)))%string.
  rewrite (map_words_sep f " " _ eq_refl). rewrite IH. reflexivity.
Qed.

Lemma step_keeps : keeps_words step.
Proof.
  destruct tables_ok as (_ & _ & Es & Em).
  intros w Hne Hw. unfold step.
  assert (K : forall T, List.forallb entry_ok T = true ->
            forall v, v <> "" -> Str.forallb is_word v = true ->
              lookup_fold T v <> "" /\ Str.forallb is_word (lookup_fold T v) = true).
  { intros T HT v Hv1 Hv2. unfold lookup_fold.
    destruct (find _ T) as [e|] eqn:E; [|auto].
    apply find_some in E. destruct E as [I _].
    rewrite forallb_forall in HT. specialize (HT e I). unfold entry_ok in HT.
    repeat (apply andb_prop in HT; destruct HT as [HT ?]).
    split; [|assumption]. destruct (snd e); [discriminate | discriminate]. }
  destruct (K _ Es w Hne Hw) as [H1 H2]. apply (K _ Em); assumption.
Qed.

Lemma word_after_map y :
  word_after y = false -> word_after (map_words step y) = false.
Proof.
  destruct y as [|m t]; [reflexivity|]. cbn [word_after]. intros H.
  rewrite (map_words_other step m t H). exact H.
Qed.

Lemma word_after_lower y :
  word_after y = false -> word_after (ToLower y) = false.
Proof.
  destruct y as [|m t]; [reflexivity|]. cbn. rewrite is_word_lower. auto.
Qed.

Lemma lower_is_word w :
  Str.forallb is_word w = true -> Str.forallb is_word (ToLower w) = true.
Proof.
  unfold ToLower. rewrite forallb_map. apply forallb_impl.
  intros c Hc. rewrite is_word_lower. exact Hc.
Qed.

Lemma lower_nonempty w : w <> "" -> ToLower w <> "".
Proof. destruct w; [contradiction | discriminate]. Qed.

Lemma lowchar_fixed y :
  Str.forallb (fun c => plain c && lowchar c) y = true -> ToLower y = y.
Proof.
  intros H. apply map_fixed. revert H. apply forallb_impl.
  intros c Hc. apply andb_prop in Hc. apply Hc.
Qed.

(** What the tables make of the text behind the head of a field comes
    back in lower case, when no rewritten word stands behind a mark. *)
Lemma lower_map_words_step : forall n y, String.length y <= n ->
  word_after y = false ->
  Str.forallb (fun c => plain c && lowchar c) y = true ->
  no_key_behind_mark y = true ->
  ToLower (map_words step y) = y.
Proof.
  induction n as [|n IH]; intros y Hn Hw Hy Hk.
  - destruct y; [reflexivity | cbn in Hn; lia].
  - destruct y as [|m t]; [reflexivity|].
    cbn [String.length] in Hn. cbn in Hw.
    cbn [Str.forallb] in Hy. apply andb_prop in Hy. destruct Hy as [Hm Ht].
    apply andb_prop in Hm. destruct Hm as [Hpm Hlm].
    cbn [no_key_behind_mark] in Hk. apply andb_prop in Hk.
    destruct Hk as [Hk1 Hk2].
    assert (Hmark : is_mark m = true).
    { unfold is_mark. rewrite Hw, (plain_not_space m Hpm). reflexivity. }
    rewrite Hmark in Hk1. cbn [negb orb] in Hk1.
    apply negb_true_iff in Hk1.
    rewrite (map_words_other step m t Hw).
    change (ToLower (String m (map_words step t)))
      with (String (to_lower m) (ToLower (map_words step t))).
    unfold lowchar in Hlm. apply Ascii.eqb_eq in Hlm. rewrite Hlm. f_equal.
    destruct (word_at_span t) as (rest & Et & Hr).
    pose proof (word_at_word t) as Hww.
    set (w := word_at t) in *.
    assert (Hsplit : Str.forallb (fun c => plain c && lowchar c) w = true
                     /\ Str.forallb (fun c => plain c && lowchar c) rest = true).
    { rewrite Et, forallb_app in Ht. apply andb_prop in Ht. exact Ht. }
    destruct Hsplit as [Hlw Hlr].
    assert (Hkr : no_key_behind_mark rest = true)
      by (rewrite Et, (no_key_word w rest Hww) in Hk2; exact Hk2).
    assert (Hrest : ToLower (map_words step rest) = rest).
    { apply IH; try assumption.
      rewrite Et, length_app in Hn. lia. }
    destruct w as [|c0 w0] eqn:Ew.
    + cbn [String.append] in Et. rewrite Et. exact Hrest.
    + rewrite Et.
      rewrite map_words_word by (discriminate || assumption).
      unfold ToLower. rewrite map_app. fold (ToLower (step (String c0 w0))).
      fold (ToLower (map_words step rest)). rewrite Hrest. f_equal.
      apply settled_lower; [exact Hk1|]. apply lowchar_fixed. exact Hlw.
Qed.

(** When a second run changes nothing behind the head of a field, no
    rewritten word stands behind a mark there. *)
Lemma map_words_step_settled : forall n y, String.length y <= n ->
  word_after y = false ->
  Str.forallb (fun c => plain c && lowchar c) y = true ->
  map_words step (ToLower (map_words step y)) = map_words step y ->
  no_key_behind_mark y = true.
Proof.
  induction n as [|n IH]; intros y Hn Hw Hy He.
  - destruct y; [reflexivity | cbn in Hn; lia].
  - destruct y as [|m t]; [reflexivity|].
    cbn [String.length] in Hn. cbn in Hw.
    cbn [Str.forallb] in Hy. apply andb_prop in Hy. destruct Hy as [Hm Ht].
    apply andb_prop in Hm. destruct Hm as [Hpm Hlm].
    rewrite (map_words_other step m t Hw) in He.
    change (ToLower (String m (map_words step t)))
      with (String (to_lower m) (ToLower (map_words step t))) in He.
    unfold lowchar in Hlm. apply Ascii.eqb_eq in Hlm. rewrite Hlm in He.
    rewrite (map_words_other step m _ Hw) in He. injection He as He.
    destruct (word_at_span t) as (rest & Et & Hr).
    pose proof (word_at_word t) as Hww.
    cbn [no_key_behind_mark].
    set (w := word_at t) in *.
    assert (Hsplit : Str.forallb (fun c => plain c && lowchar c) w = true
                     /\ Str.forallb (fun c => plain c && lowchar c) rest = true).
    { rewrite Et, forallb_app in Ht. apply andb_prop in Ht. exact Ht. }
    destruct Hsplit as [Hlw Hlr].
    assert (Hlen : String.length rest <= n)
      by (rewrite Et, length_app in Hn; lia).
    destruct w as [|c0 w0] eqn:Ew.
    + cbn [String.append] in Et. rewrite rewritten_empty, orb_true_r.
      cbn [andb]. rewrite Et. apply (IH rest Hlen Hr Hlr).
      rewrite <- Et. exact He.
    + rewrite Et in He.
      rewrite map_words_word in He by (discriminate || assumption).
      destruct (step_keeps (String c0 w0) ltac:(discriminate) Hww)
        as [Vne Vw].
      unfold ToLower in He. rewrite map_app in He.
      fold (ToLower (step (String c0 w0))) in He.
      fold (ToLower (map_words step rest)) in He.
      rewrite map_words_word in He;
        [| apply lower_nonempty; exact Vne
         | apply lower_is_word; exact Vw
         | apply word_after_lower, word_after_map; exact Hr].
      destruct (step_keeps (ToLower (step (String c0 w0)))
                  (lower_nonempty _ Vne) (lower_is_word _ Vw)) as [_ Vw'].
      apply split_unique in He;
        [| exact Vw' | exact Vw
         | apply word_after_map, word_after_lower, word_after_map; exact Hr
         | apply word_after_map; exact Hr].
      destruct He as [He1 He2].
      assert (R : rewritten (String c0 w0) = false).
      { destruct (rewritten (String c0 w0)) eqn:R; [|reflexivity].
        exfalso. apply (rewritten_unsettled _ R). exact He1. }
      rewrite R, orb_true_r. cbn [andb].
      rewrite Et, (no_key_word _ rest Hww).
      apply (IH rest Hlen Hr Hlr He2).
Qed.

Lemma cap_app w rest : w <> "" -> cap (w ++ rest) = (cap w ++ rest)%string.
Proof. destruct w; [contradiction | reflexivity]. Qed.

Lemma upper_not_word c : is_word c = false -> to_upper c = c.
Proof.
  destruct c as [[] [] [] [] [] [] [] []]; intros H;
    solve [discriminate H | reflexivity].
Qed.

Lemma is_word_upper c : is_word (to_upper c) = is_word c.
Proof. destruct c as [[] [] [] [] [] [] [] []]; reflexivity. Qed.

Lemma cap_is_word w :
  Str.forallb is_word w = true -> Str.forallb is_word (cap w) = true.
Proof.
  destruct w as [|c w]; [auto|]. cbn [cap Str.forallb].
  rewrite is_word_upper. auto.
Qed.

Lemma cap_nonempty w : w <> "" -> cap w <> "".
Proof. destruct w; [contradiction | discriminate]. Qed.

Lemma plain_lower c :
  plain c = true -> plain (to_lower c) && lowchar (to_lower c) = true.
Proof.
  destruct c as [[] [] [] [] [] [] [] []]; intros H;
    solve [discriminate H | reflexivity].
Qed.

(** [map_words step] keeps plain characters plain. *)
Lemma map_words_plain : forall n s, String.length s <= n ->
  Str.forallb plain s = true -> Str.forallb plain (map_words step s) = true.
Proof.
  induction n as [|n IH]; intros s Hn Hs.
  - destruct s; [reflexivity | cbn in Hn; lia].
  - destruct s as [|c t]; [reflexivity|]. cbn [String.length] in Hn.
    destruct (is_word c) eqn:Ec.
    + destruct (span_word t) as (w & rest & -> & Hw & Hr).
      change (String c (w ++ rest)) with (String c w ++ rest)%string in *.
      assert (HW : Str.forallb is_word (String c w) = true)
        by (cbn; rewrite Ec; exact Hw).
      rewrite map_words_word by (discriminate || assumption).
      rewrite forallb_app in Hs |- *. apply andb_prop in Hs.
      destruct Hs as [_ Hs].
      destruct (step_keeps (String c w) ltac:(discriminate) HW) as [_ Hk].
      rewrite (forallb_impl is_word plain _ word_plain Hk).
      apply IH; [|exact Hs]. rewrite length_app in Hn. cbn in Hn. lia.
    + rewrite map_words_other by exact Ec. cbn [Str.forallb] in *.
      apply andb_prop in Hs. destruct Hs as [Hc Hs]. rewrite Hc.
      apply IH; [lia | exact Hs].
Qed.

Lemma map_words_nonempty f s :
  (forall w, w <> "" -> Str.forallb is_word w = true -> f w <> "") ->
  s <> "" -> map_words f s <> "".
Proof.
  intros Hf Hs. destruct s as [|c t]; [contradiction|].
  destruct (is_word c) eqn:Ec.
  - destruct (span_word t) as (w & rest & -> & Hw & Hr).
    change (String c (w ++ rest)) with (String c w ++ rest)%string.
    assert (HW : Str.forallb is_word (String c w) = true)
      by (cbn; rewrite Ec; exact Hw).
    rewrite map_words_word by (discriminate || assumption).
    specialize (Hf (String c w) ltac:(discriminate) HW).
    destruct (f (String c w)); [contradiction | discriminate].
  - rewrite map_words_other by exact Ec. discriminate.
Qed.

(** A field in title case, with its words looked up, is a text without
    white space. *)
Lemma field_plain f :
  word_of lowchar f -> word_of (fun _ => true) (map_words step (cap f)).
Proof.
  intros [Hne Hf]. split.
  - apply map_words_nonempty; [|apply cap_nonempty; exact Hne].
    intros w H1 H2. apply (step_keeps w H1 H2).
  - apply (forallb_impl plain); [intros c Hc; rewrite Hc; reflexivity|].
    apply (map_words_plain _ _ (le_n _)).
    destruct (cap_plain f (conj Hne Hf)) as [_ Hc].
    revert Hc. apply forallb_impl. intros c Hc.
    apply andb_prop in Hc. apply Hc.
Qed.

(** One field in two runs: the head [V] of the field is settled by the
    first run, and the second run works behind it on the lower case of
    what the first left there. *)
Lemma field_runs f :
  word_of lowchar f ->
  exists V rest,
    word_after rest = false
    /\ Str.forallb (fun c => plain c && lowchar c) rest = true
    /\ no_key_behind_mark f = no_key_behind_mark rest
    /\ map_words step (cap f) = (V ++ map_words step rest)%string
    /\ map_words step (cap (ToLower (map_words step (cap f))))
       = (V ++ map_words step (ToLower (map_words step rest)))%string.
Proof.
  intros [Hne Hf].
  destruct f as [|c0 f']; [contradiction|].
  pose proof Hf as Hall.
  cbn [Str.forallb] in Hf. apply andb_prop in Hf. destruct Hf as [H0 Hf'].
  apply andb_prop in H0. destruct H0 as [Hp0 Hl0].
  destruct (is_word c0) eqn:Ec.
  - (* the field begins with a word *)
    destruct (word_at_span f') as (rest & Et & Hr).
    pose proof (word_at_word f') as Hww. set (w := word_at f') in *.
    assert (Hsplit : Str.forallb (fun c => plain c && lowchar c) w = true
                     /\ Str.forallb (fun c => plain c && lowchar c) rest = true).
    { rewrite Et, forallb_app in Hf'. apply andb_prop in Hf'. exact Hf'. }
    destruct Hsplit as [Hlw Hlr].
    set (r0 := String c0 w).
    assert (Hr0 : Str.forallb is_word r0 = true)
      by (cbn; rewrite Ec; exact Hww).
    assert (HW : Str.forallb is_word (cap r0) = true)
      by (apply cap_is_word; exact Hr0).
    destruct (step_keeps (cap r0) ltac:(discriminate) HW) as [Vne Vw].
    exists (step (cap r0)), rest.
    split; [exact Hr|]. split; [exact Hlr|]. split.
    { rewrite Et. change (String c0 (w ++ rest)) with (r0 ++ rest)%string.
      apply no_key_word. exact Hr0. }
    assert (E1 : map_words step (cap (String c0 f'))
                 = (step (cap r0) ++ map_words step rest)%string).
    { rewrite Et. cbn [cap].
      change (String (to_upper c0) (w ++ rest))
        with (cap r0 ++ rest)%string.
      apply map_words_word; [discriminate | exact HW | exact Hr]. }
    split; [exact E1|]. rewrite E1.
    unfold ToLower. rewrite map_app. fold (ToLower (step (cap r0))).
    fold (ToLower (map_words step rest)).
    rewrite cap_app by (apply lower_nonempty; exact Vne).
    rewrite map_words_word;
      [| apply cap_nonempty, lower_nonempty; exact Vne
       | apply cap_is_word, lower_is_word; exact Vw
       | apply word_after_lower, word_after_map; exact Hr].
    f_equal. apply step_idem. unfold r0.
    apply map_fixed. cbn [Str.forallb]. unfold lowchar in Hl0. rewrite Hl0.
    revert Hlw. apply forallb_impl. intros c Hc. apply andb_prop in Hc.
    apply Hc.
  - (* the field begins with a mark *)
    exists "", (String c0 f').
    split; [exact Ec|]. split; [exact Hall|]. split; [reflexivity|].
    cbn [cap String.append]. rewrite (upper_not_word c0 Ec).
    split; [reflexivity|].
    rewrite (map_words_other step c0 f' Ec).
    change (ToLower (String c0 (map_words step f')))
      with (String (to_lower c0) (ToLower (map_words step f'))).
    cbn [cap]. unfold lowchar in Hl0. apply Ascii.eqb_eq in Hl0.
    rewrite Hl0, (upper_not_word c0 Ec). reflexivity.
Qed.

(** One field of a street name, standardized twice. *)
Lemma field_twice f :
  word_of lowchar f ->
  map_words step (cap (ToLower (map_words step (cap f))))
  = map_words step (cap f)
  <-> no_key_behind_mark f = true.
Proof.
  intros Hf.
  destruct (field_runs f Hf) as (V & rest & Hr & Hl & -> & -> & ->).
  split.
  - intros E. apply append_inv_head in E.
    apply (map_words_step_settled _ rest (le_n _) Hr Hl E).
  - intros Hk.
    rewrite (lower_map_words_step _ rest (le_n _) Hr Hl Hk). reflexivity.
Qed.

Lemma lower_plain_word w :
  word_of (fun _ => true) w -> word_of lowchar (ToLower w).
Proof.
  intros [Hne Hw]. split; [apply lower_nonempty; exact Hne|].
  unfold ToLower. rewrite forallb_map. revert Hw. apply forallb_impl.
  intros c Hc. apply andb_prop in Hc. apply plain_lower. apply Hc.
Qed.

(** *** The street name, standardized twice *)

(** The two runs, field by field. *)
Lemma standardizeStreetName_runs av1 av2 s :
  tables_of av1 -> tables_of av2 -> Str.forallb is_ascii s = true ->
  let fs := Fields (ToLower (TrimSpace s)) in
  let once := fun f => map_words step (cap f) in
  let twice := fun f => map_words step (cap (ToLower (once f))) in
  standardizeStreetName av1 s = Join (List.map once fs) " "
  /\ standardizeStreetName av2 (standardizeStreetName av1 s)
     = Join (List.map twice fs) " "
  /\ Forall (word_of (fun _ => true)) (List.map once fs)
  /\ Forall (word_of (fun _ => true)) (List.map twice fs).
Proof.
  intros H1 H2 Ha fs once twice.
  destruct (street_fields s Ha) as [Hfs _]. fold fs in Hfs.
  assert (Hg : Forall (word_of (fun _ => true)) (List.map once fs)).
  { apply Forall_map. eapply Forall_impl; [|exact Hfs]. apply field_plain. }
  assert (Hl : Forall (word_of lowchar) (List.map ToLower (List.map once fs))).
  { apply Forall_map. eapply Forall_impl; [|exact Hg].
    apply lower_plain_word. }
  assert (E1 : standardizeStreetName av1 s = Join (List.map once fs) " ").
  { rewrite (standardizeStreetName_wordwise av1 s H1).
    rewrite (toTitleCase_cap (TrimSpace s)). fold fs.
    rewrite map_words_join, map_map. reflexivity. }
  split; [exact E1|]. split; [|split; [exact Hg|]].
  - rewrite E1, (standardizeStreetName_wordwise av2 _ H2).
    rewrite toTitleCase_cap, (TrimSpace_join _ _ Hg), ToLower_join.
    rewrite (Fields_join lowchar _ Hl).
    rewrite map_words_join, !map_map. reflexivity.
  - apply Forall_forall. intros x Hx. apply in_map_iff in Hx.
    destruct Hx as (f & <- & Hf). unfold twice. apply field_plain.
    rewrite Forall_forall in Hl. apply Hl. apply in_map, in_map. exact Hf.
Qed.

(** The street name, standardized twice, is the street name standardized
    once exactly when no rewritten word stands directly behind a mark. *)
Lemma standardizeStreetName_twice av1 av2 s :
  tables_of av1 -> tables_of av2 -> Str.forallb is_ascii s = true ->
  standardizeStreetName av2 (standardizeStreetName av1 s)
  = standardizeStreetName av1 s
  <-> no_key_behind_mark s = true.
Proof.
  intros H1 H2 Ha.
  destruct (standardizeStreetName_runs av1 av2 s H1 H2 Ha)
    as (E1 & E2 & Hg & Hg2).
  destruct (street_fields s Ha) as [Hfs Hk].
  rewrite E2, E1, <- Hk. set (fs := Fields (ToLower (TrimSpace s))) in *.
  rewrite forallb_forall. split.
  - intros E f Hf.
    assert (Em : List.map (fun f => map_words step
                             (cap (ToLower (map_words step (cap f))))) fs
                 = List.map (fun f => map_words step (cap f)) fs).
    { rewrite <- (Fields_join _ _ Hg2), <- (Fields_join _ _ Hg), E.
      reflexivity. }
    rewrite Forall_forall in Hfs.
    apply (field_twice f (Hfs f Hf)).
    apply (proj1 map_ext_in_iff Em f Hf).
  - intros Hall. f_equal. apply map_ext_in. intros f Hf.
    rewrite Forall_forall in Hfs.
    apply (field_twice f (Hfs f Hf)). apply Hall. exact Hf.
Qed.

End TwiceFacts.

(** * The claims *)

Module Claims.
Import GoFacts IdemFacts ParserFacts ClassifierFacts TSFacts CleanerFacts.

(** A text of [n] times the character [c]. *)
Fixpoint replicate (n : nat) (c : ascii) : string :=
  match n with
  | 0 => EmptyString
  | S m => String c (replicate m c)
  end.

(** C1: for every input, the validate operation of either engine returns
    normally (no run-time failure; the Go engine returns the error [nil]),
    and the status of the result is one of "valid", "corrected" and
    "unverifiable". *)
Theorem C1_validate_total (now : Z) (av : Go.AddressValidator)
    (address : string) :
  (exists r,
     Go.ValidateAndStandardize now av address = Ok (r, None)
     /\ (Go.Status r = "valid" \/ Go.Status r = "corrected"
         \/ Go.Status r = "unverifiable"))
  /\ (exists r,
        TS.validateAddress address = Ok r
        /\ (TS.status r = "valid" \/ TS.status r = "corrected"
            \/ TS.status r = "unverifiable")).
Proof.
  split.
  - unfold Go.ValidateAndStandardize.
    destruct (pipeline_cases Go.standardizeAddress Go.validateComponents
                now av address)
      as [(_ & ->) | [(_ & _ & ->) | (p & _ & _ & ->)]];
      eexists; (split; [reflexivity|]); cbn [Go.Status failure]; auto.
    apply validateComponents_status.
  - destruct (validateAddress_cases address)
      as [(_ & ->) | (_ & r & v & -> & _ & _ & _ & Hs & _)].
    + eexists; split; [reflexivity|]. cbn. auto.
    + exists r. split; [reflexivity|]. rewrite Hs. unfold status_of.
      destruct (_ || _); [auto|].
      destruct (0 <? _)%nat; auto.
Qed.

(** C2: the counting classifier counts the components that are absent
    among street number, street name, city, state and ZIP, a state that is
    present and not one of the 51 codes, and a ZIP that is present and is
    not five digits with an optional hyphen and four digits.  With none it
    answers "valid"; with one or two "corrected" and the list of them;
    with more "unverifiable" and the list ([spec_classify]).  The state is
    in upper case, as the Standardizer leaves it: the second part says so
    of every record that the classifier receives. *)
Theorem C2_counting_classifier (av : Go.AddressValidator) :
  Go.tables_of av ->
  (forall a, ToUpper (Go.State a) = Go.State a ->
     Go.validateComponents av (Some a) = spec_classify a
     /\ List.length (spec_issues a) = spec_count a)
  /\ (forall p, exists a,
        Go.standardizeAddress av (Some p) = Some a
        /\ Go.validateComponents av (Some a) = spec_classify a).
Proof.
  intros Hav. split.
  - intros a Hup. split.
    + apply validateComponents_spec; assumption.
    + apply spec_issues_count.
  - intros p.
    destruct (Go.standardizeAddress av (Some p)) as [a|] eqn:E;
      [|discriminate E].
    exists a. split; [reflexivity|].
    apply validateComponents_spec; [assumption|].
    apply (standardizeAddress_upper av p a Hav E).
Qed.

Lemma C2_witness :
  Go.validateComponents Go.NewAddressValidator
    (Some (Go.mkValidatedAddress "12" "Main Street" "" "Springfield" "ZZ"
             "1234" "" "" ""))
  = Go.mkValidationResult "corrected"
      "Address standardized but missing: valid state, valid ZIP code"
  /\ Go.validateComponents Go.NewAddressValidator
       (Some (Go.mkValidatedAddress "789" "Main Street" "" "" "" "" "" ""
                "789 Main Street"))
     = Go.mkValidationResult "unverifiable"
         "Missing critical components: city, state, ZIP code".
Proof.
  split.
  - exact (proj1 (proj1 (C2_counting_classifier Go.NewAddressValidator
                           tables_of_New)
                    (Go.mkValidatedAddress "12" "Main Street" "" "Springfield"
                       "ZZ" "1234" "" "" "") eq_refl)).
  - exact (proj1 (proj1 (C2_counting_classifier Go.NewAddressValidator
                           tables_of_New)
                    (Go.mkValidatedAddress "789" "Main Street" "" "" "" "" ""
                       "" "789 Main Street") eq_refl)).
Defined.

(** C3 (as amended): for every input with at least one token, the
    confidence is 0.9, less 0.2 for an absent street number, 0.3 for an
    absent street name, 0.2 for an absent city, 0.2 for an absent state and
    0.1 for an absent ZIP, less 0.05 for every correction note, kept between
    0.1 and 1.0 and given to two decimal places.  The status is
    "unverifiable" when that confidence is below 0.3 or when street name and
    city are both absent; above 0.3 and with a street name or a city it is
    "corrected" when there is a correction note and "valid" otherwise.  (At
    0.3 itself the status is that of the comparison in binary arithmetic.) *)
Theorem C3_scoring (address : string) :
  TS.tokens address <> [] ->
  exists r v,
    TS.validateAddress address = Ok r
    /\ TS.validated r = Some v
    /\ TS.confidence r
       = hundredths (spec_hundredths v (List.length (notes r)))
    /\ ((spec_hundredths v (List.length (notes r)) < 30)%Z
        \/ TS.absent (TS.streetName v) && TS.absent (TS.city v) = true ->
        TS.status r = "unverifiable")
    /\ ((30 < spec_hundredths v (List.length (notes r)))%Z ->
        TS.absent (TS.streetName v) && TS.absent (TS.city v) = false ->
        TS.status r
        = if (0 <? List.length (notes r))%nat then "corrected" else "valid").
Proof.
  intros Ht.
  destruct (validateAddress_cases address)
    as [(Hn & _) | (_ & r & v & Hr & Hv & _ & Hlen & Hs & Hc)];
    [contradiction|].
  exists r, v.
  destruct (confidence_table (without_formatted v) (notes r) Hlen)
    as (Hround & Hlow & Hhigh).
  assert (Hk : forall n,
    spec_hundredths (without_formatted v) n = spec_hundredths v n)
    by (intros n; destruct v; reflexivity).
  rewrite Hk in Hround, Hlow, Hhigh.
  assert (Hb : TS.absent (TS.streetName (without_formatted v))
               && TS.absent (TS.city (without_formatted v))
               = TS.absent (TS.streetName v) && TS.absent (TS.city v))
    by (destruct v; reflexivity).
  repeat split; try assumption.
  - rewrite Hc. exact Hround.
  - intros [Hl | Hboth]; rewrite Hs; unfold status_of.
    + rewrite (Hlow Hl). reflexivity.
    + rewrite Hb, Hboth, orb_true_r. reflexivity.
  - intros Hh Hboth. rewrite Hs. unfold status_of.
    rewrite (Hhigh Hh), Hb, Hboth. reflexivity.
Qed.

Lemma C3_witness :
  TS.tokens "100 N Main St, Chicago, IL 60601" <> []
  /\ exists r v,
       TS.validateAddress "100 N Main St, Chicago, IL 60601" = Ok r
       /\ TS.validated r = Some v
       /\ TS.confidence r
          = hundredths (spec_hundredths v (List.length (notes r)))
       /\ ((spec_hundredths v (List.length (notes r)) < 30)%Z
           \/ TS.absent (TS.streetName v) && TS.absent (TS.city v) = true ->
           TS.status r = "unverifiable")
       /\ ((30 < spec_hundredths v (List.length (notes r)))%Z ->
           TS.absent (TS.streetName v) && TS.absent (TS.city v) = false ->
           TS.status r
           = if (0 <? List.length (notes r))%nat then "corrected"
             else "valid").
Proof.
  assert (H : TS.tokens "100 N Main St, Chicago, IL 60601" <> [])
    by (vm_compute; discriminate).
  split; [exact H|].
  exact (C3_scoring "100 N Main St, Chicago, IL 60601" H).
Defined.

(** C3 as stated fails: a correction note does not make the status
    "corrected" when the confidence is low; "unverifiable" is decided
    last and overrides it. *)
Lemma C3_counterexample :
  exists r,
    TS.validateAddress "n main st" = Ok r
    /\ notes r = ["Direction abbreviations expanded";
                  "Street type abbreviation expanded"]
    /\ TS.status r = "unverifiable"
    /\ TS.status r <> "corrected".
Proof.
  eexists. split; [vm_compute; reflexivity|].
  split; [reflexivity|]. split; [reflexivity | discriminate].
Qed.

(** At the decimal confidence 0.3 the binary subtraction can fall below
    0.3: the status is "unverifiable" and the confidence reported is 0.3. *)
Example confidence_at_threshold :
  exists r,
    TS.validateAddress "street 12345" = Ok r
    /\ TS.status r = "unverifiable" /\ TS.confidence r = 0.3%float
    /\ option_map TS.streetName (TS.validated r) = Some (Some "Street").
Proof.
  eexists. split; [vm_compute; reflexivity|]. repeat split.
Qed.

(** C4 (as amended): when the Cleaner returns the empty text or the
    Parser returns no record, the Go engine answers "unverifiable" with no
    validated record at once, whatever the Standardizer and the Classifier
    are: they are not applied.  The TypeScript engine has no Cleaner that
    turns a text down: it answers "unverifiable" with confidence 0.0 and
    no validated record when the input has no token, and only then; every
    input with a token, however short, gets a validated record and a
    confidence of 0.1 at least. *)
Theorem C4_failure_short_circuits (now : Z) (av : Go.AddressValidator)
    (address : string) :
  (Go.cleanAddress address = ""
   \/ Go.parseAddress av (Go.cleanAddress address) = Ok None ->
   forall standardize validate,
   exists r,
     Go.pipeline standardize validate now av address = Ok (r, None)
     /\ Go.ValidateAndStandardize now av address = Ok (r, None)
     /\ Go.Status r = "unverifiable" /\ Go.Validated r = None)
  /\ exists r,
       TS.validateAddress address = Ok r
       /\ (TS.tokens address = [] ->
           TS.status r = "unverifiable" /\ TS.confidence r = 0.0%float
           /\ TS.validated r = None)
       /\ (TS.tokens address <> [] ->
           TS.validated r <> None
           /\ PrimFloat.leb 0.1%float (TS.confidence r) = true).
Proof.
  split.
  - intros H standardize validate. unfold Go.ValidateAndStandardize.
    destruct (pipeline_fails now av address H) as (msg & Hm).
    exists (failure now address msg). rewrite !Hm. repeat split.
  - destruct (validateAddress_cases address)
      as [(Hn & E) | (Hn & r & v & E & Hv & _ & Hlen & _ & Hc)].
    + eexists. split; [exact E|]. split.
      * intros _. repeat split.
      * intros H. contradiction.
    + exists r. split; [exact E|]. split.
      * intros H. contradiction.
      * intros _. split; [congruence|]. rewrite Hc.
        apply (ResultFacts.rounded_range (without_formatted v) (notes r) Hlen).
Qed.

Lemma C4_witness :
  (exists r,
     Go.ValidateAndStandardize 0 Go.NewAddressValidator "abcde" = Ok (r, None)
     /\ Go.Status r = "unverifiable" /\ Go.Validated r = None)
  /\ (exists r,
        TS.validateAddress " , " = Ok r
        /\ TS.status r = "unverifiable" /\ TS.confidence r = 0.0%float
        /\ TS.validated r = None).
Proof.
  split.
  - destruct (proj1 (C4_failure_short_circuits 0 Go.NewAddressValidator
                       "abcde")
                (or_intror eq_refl) Go.standardizeAddress
                Go.validateComponents) as (r & _ & H).
    exists r. exact H.
  - destruct (proj2 (C4_failure_short_circuits 0 Go.NewAddressValidator
                       " , ")) as (r & E & H & _).
    exists r. split; [exact E|]. apply H. reflexivity.
Defined.

(** C4 as stated fails for the TypeScript engine: no stage of it turns a
    short text down.  "xyz" has fewer than five characters, and the
    Cleaner of the Go engine returns the empty text for it; the TypeScript
    engine makes a city of it and answers with a validated record and the
    confidence 0.1. *)
Lemma C4_counterexample :
  Go.cleanAddress "xyz" = ""
  /\ exists r,
       TS.validateAddress "xyz" = Ok r
       /\ TS.status r = "unverifiable"
       /\ TS.confidence r = 0.1%float
       /\ TS.validated r
          = Some (TS.mkValidatedAddress None None (Some "Xyz") None None
                    "Xyz")
       /\ TS.validated r <> None.
Proof.
  split; [vm_compute; reflexivity|].
  eexists. split; [vm_compute; reflexivity|].
  split; [reflexivity|]. split; [reflexivity|].
  split; [reflexivity | discriminate].
Qed.

(** C5 (as amended): the Cleaner returns the empty text, or a text of at
    least five bytes once trimmed that holds nothing but word characters
    (letters, digits and the underscore), spaces and [- . # / ,]. *)
Theorem C5_cleaned_text (address : string) :
  Go.cleanAddress address = ""
  \/ (5 <= String.length (TrimSpace (Go.cleanAddress address))
      /\ Str.forallb cleaned_char (Go.cleanAddress address) = true).
Proof.
  destruct (cleanAddress_trimmed address) as [H|H]; [left; exact H|].
  right. split; [exact H | apply cleanAddress_chars].
Qed.

(** C5 as stated fails: the underscore is a word character of the
    pattern, and it stays. *)
Lemma C5_counterexample :
  Go.cleanAddress "12 Main_St" = "12 Main_St"
  /\ stated_invariant (Go.cleanAddress "12 Main_St") = false.
Proof. split; vm_compute; reflexivity. Qed.

(** Characters are stripped after the white space is collapsed, so a run
    of spaces can come back. *)
Example cleanAddress_double_space :
  Go.cleanAddress "12 @ Main St" = "12  Main St".
Proof. vm_compute. reflexivity. Qed.

(** C6 (as amended): the Go engine answers "unverifiable" to every input
    of more than 500 bytes, the Cleaner rejecting it before any parsing. *)
Theorem C6_go_rejects_long (now : Z) (av : Go.AddressValidator)
    (address : string) :
  500 < String.length address ->
  Go.cleanAddress address = ""
  /\ exists r,
       Go.ValidateAndStandardize now av address = Ok (r, None)
       /\ Go.Status r = "unverifiable" /\ Go.Validated r = None.
Proof.
  intros H. pose proof (cleanAddress_long address H) as Hc.
  split; [exact Hc|].
  destruct (pipeline_fails now av address (or_introl Hc)) as (msg & Hm).
  exists (failure now address msg). unfold Go.ValidateAndStandardize.
  rewrite Hm. repeat split.
Qed.

Lemma C6_witness :
  500 < String.length (replicate 501 "a")
  /\ Go.cleanAddress (replicate 501 "a") = ""
  /\ exists r,
       Go.ValidateAndStandardize 0 Go.NewAddressValidator
         (replicate 501 "a") = Ok (r, None)
       /\ Go.Status r = "unverifiable" /\ Go.Validated r = None.
Proof.
  assert (H : 500 < String.length (replicate 501 "a")).
  { apply Nat.ltb_lt. vm_compute. reflexivity. }
  split; [exact H|].
  exact (C6_go_rejects_long 0 Go.NewAddressValidator (replicate 501 "a") H).
Defined.

(** C6 as stated fails for the TypeScript engine, which has no bound on
    the length: the bound is in the request schema of its server. *)
Lemma C6_counterexample :
  500 < String.length ("123 " ++ replicate 500 "a" ++ " st, anytown, ca 12345")
  /\ exists r,
       TS.validateAddress
         ("123 " ++ replicate 500 "a" ++ " st, anytown, ca 12345") = Ok r
       /\ TS.status r = "corrected" /\ TS.status r <> "unverifiable".
Proof.
  split.
  - apply Nat.ltb_lt. vm_compute. reflexivity.
  - eexists. split; [vm_compute; reflexivity|].
    split; [reflexivity | discriminate].
Qed.

(** C7 (as amended): on a record of ASCII text, as every text behind the
    Cleaner is, standardizing twice is standardizing once, in any two
    iteration orders of the tables and with the full address of the second
    run that of the first, if and only if no word that the tables rewrite
    stands directly behind a mark in the street name.  A mark is a
    character that is neither a word character nor white space: behind
    the Cleaner, one of [- . # / ,].  The words that the tables rewrite
    are their keys in any case of the letters, "way" apart (lemma
    [rewritten_spec]).  City and state stand in the way of nothing. *)
Theorem C7_standardize_idempotent (av1 av2 : Go.AddressValidator)
    (p : Go.ValidatedAddress) :
  Go.tables_of av1 -> Go.tables_of av2 ->
  Str.forallb is_ascii (Go.StreetName p) = true ->
  Str.forallb is_ascii (Go.City p) = true ->
  Go.standardizeAddress av2 (Go.standardizeAddress av1 (Some p))
  = Go.standardizeAddress av1 (Some p)
  <-> TwiceFacts.no_key_behind_mark (Go.StreetName p) = true.
Proof.
  intros H1 H2 Hstreet Hcity.
  pose proof (TwiceFacts.standardizeStreetName_twice av1 av2 _ H1 H2 Hstreet)
    as Hiff.
  rewrite (standardizeAddress_fields av1 p), standardizeAddress_fields.
  cbn [Go.StreetNumber Go.StreetName Go.Unit Go.City Go.State Go.ZipCode
       Go.ZipPlus4 Go.County].
  rewrite (std_field_twice Go.standardizeCity Go.standardizeCity (Go.City p)
             (standardizeCity_idem _ Hcity)).
  rewrite (std_field_twice (Go.standardizeState av1)
             (Go.standardizeState av2) (Go.State p)
             (standardizeState_idem av1 av2 _ H1 H2)).
  split.
  - intros E. injection E as E _. apply Hiff.
    unfold std_field in E.
    destruct (String.eqb_spec (Go.StreetName p) "") as [E0|_]; cbn [negb] in E.
    + rewrite E0.
      rewrite (WordwiseFacts.standardizeStreetName_wordwise av1 "" H1).
      apply (WordwiseFacts.standardizeStreetName_wordwise av2 "" H2).
    + destruct (String.eqb_spec
                  (Go.standardizeStreetName av1 (Go.StreetName p)) "")
        as [E1|_]; cbn [negb] in E; [|exact E].
      rewrite E1.
      apply (WordwiseFacts.standardizeStreetName_wordwise av2 "" H2).
  - intros Hk.
    rewrite (std_field_twice (Go.standardizeStreetName av1)
               (Go.standardizeStreetName av2) (Go.StreetName p)
               (proj2 Hiff Hk)).
    reflexivity.
Qed.

Lemma C7_witness :
  Go.standardizeAddress Go.NewAddressValidator
    (Go.standardizeAddress Go.NewAddressValidator
       (Some (Go.mkValidatedAddress "123" "Main St." "" "Springfield" "IL"
                "62701" "" "" "")))
  = Go.standardizeAddress Go.NewAddressValidator
      (Some (Go.mkValidatedAddress "123" "Main St." "" "Springfield" "IL"
               "62701" "" "" "")).
Proof.
  assert (H : TwiceFacts.no_key_behind_mark "Main St." = true)
    by (vm_compute; reflexivity).
  exact (proj2 (C7_standardize_idempotent Go.NewAddressValidator
                  Go.NewAddressValidator
                  (Go.mkValidatedAddress "123" "Main St." "" "Springfield"
                     "IL" "62701" "" "" "")
                  tables_of_New tables_of_New eq_refl eq_refl) H).
Defined.

(** The record of the witness is the one the parser makes of
    "123 Main St., Springfield, IL 62701"; "St" stands behind a space
    there, and the period behind it is in nobody's way.  Behind a hyphen
    "way" is not rewritten, and "st" is. *)
Example marks_in_street_names :
  Go.parseAddress Go.NewAddressValidator
    (Go.cleanAddress "123 Main St., Springfield, IL 62701")
  = Ok (Some (Go.mkValidatedAddress "123" "Main St." "" "Springfield" "IL"
                "62701" "" "" ""))
  /\ Go.standardizeStreetName Go.NewAddressValidator "Main St."
     = "Main Street."
  /\ TwiceFacts.no_key_behind_mark "oak-way" = true
  /\ Go.standardizeStreetName Go.NewAddressValidator "oak-way" = "Oak-Way"
  /\ TwiceFacts.no_key_behind_mark "oak-st" = false.
Proof. repeat split; vm_compute; reflexivity. Qed.

(** C7 as stated fails: title case works on the words between white space
    and the tables on the words between any other characters, so the
    second run lowers the "S" that the first run wrote behind the hyphen.
    The record is the one the parser makes of
    "123 oak-st, Springfield, IL 62701". *)
Lemma C7_counterexample :
  Go.parseAddress Go.NewAddressValidator
    (Go.cleanAddress "123 oak-st, Springfield, IL 62701")
  = Ok (Some (Go.mkValidatedAddress "123" "oak-st" "" "Springfield" "IL"
                "62701" "" "" ""))
  /\ option_map Go.StreetName
       (Go.standardizeAddress Go.NewAddressValidator
          (Some (Go.mkValidatedAddress "123" "oak-st" "" "Springfield" "IL"
                   "62701" "" "" "")))
     = Some "Oak-Street"
  /\ option_map Go.StreetName
       (Go.standardizeAddress Go.NewAddressValidator
          (Go.standardizeAddress Go.NewAddressValidator
             (Some (Go.mkValidatedAddress "123" "oak-st" "" "Springfield"
                      "IL" "62701" "" "" ""))))
     = Some "Oak-street"
  /\ Go.standardizeAddress Go.NewAddressValidator
       (Go.standardizeAddress Go.NewAddressValidator
          (Some (Go.mkValidatedAddress "123" "oak-st" "" "Springfield" "IL"
                   "62701" "" "" "")))
     <> Go.standardizeAddress Go.NewAddressValidator
          (Some (Go.mkValidatedAddress "123" "oak-st" "" "Springfield" "IL"
                   "62701" "" "" "")).
Proof.
  split; [vm_compute; reflexivity|].
  split; [vm_compute; reflexivity|].
  split; [vm_compute; reflexivity|].
  intros H. vm_compute in H. discriminate H.
Qed.

(** C8: the Standardizer upper-cases and trims a state value [s]; when
    the result [u] is one of the two-letter codes it is kept; otherwise,
    when [u] equals the full name of a state up to case, the code of that
    state is returned; otherwise [u] is returned as it is.  This holds in
    every iteration order of the map. *)
Theorem C8_standardizeState (av : Go.AddressValidator) (s : string) :
  Go.tables_of av ->
  let u := TrimSpace (ToUpper s) in
  let codes := List.map fst Go.getStateAbbreviations in
  (In u codes -> Go.standardizeState av s = u)
  /\ (~ In u codes ->
      forall abbrev fullName,
        In (abbrev, fullName) Go.getStateAbbreviations ->
        EqualFold u fullName = true ->
        Go.standardizeState av s = abbrev)
  /\ (~ In u codes ->
      (forall abbrev fullName,
         In (abbrev, fullName) Go.getStateAbbreviations ->
         EqualFold u fullName = false) ->
      Go.standardizeState av s = u).
Proof.
  intros Hav u codes. rewrite (standardizeState_tables av s Hav).
  unfold Go.standardizeState. cbn [Go.stateAbbreviations
    Go.NewAddressValidator]. fold u.
  repeat split.
  - intros Hin. apply has_key_In in Hin. rewrite Hin. reflexivity.
  - intros Hout abbrev fullName Hentry Hfold.
    destruct (Go.has_key Go.getStateAbbreviations u) eqn:Ek.
    { apply has_key_In in Ek. contradiction. }
    destruct (find _ Go.getStateAbbreviations) as [[a f]|] eqn:Ef.
    + apply find_some in Ef as [Hi Hf].
      apply EqualFold_true in Hf, Hfold.
      assert (E : (a, f) = (abbrev, fullName)).
      { apply state_names_distinct; auto. cbn [snd]. congruence. }
      congruence.
    + apply (find_none _ _ Ef) in Hentry. cbn in Hentry. congruence.
  - intros Hout Hnone.
    destruct (Go.has_key Go.getStateAbbreviations u) eqn:Ek.
    { apply has_key_In in Ek. contradiction. }
    destruct (find _ Go.getStateAbbreviations) as [[a f]|] eqn:Ef;
      [|reflexivity].
    apply find_some in Ef as [Hi Hf]. rewrite (Hnone a f Hi) in Hf.
    discriminate.
Qed.

Lemma C8_witness :
  Go.tables_of Go.NewAddressValidator
  /\ Go.standardizeState Go.NewAddressValidator " california " = "CA"
  /\ Go.standardizeState Go.NewAddressValidator "ny" = "NY".
Proof.
  split; [exact tables_of_New|]. split.
  - apply (proj1 (proj2 (C8_standardizeState Go.NewAddressValidator
                           " california " tables_of_New)))
      with (fullName := "California").
    + intros H. cbn in H.
      repeat (destruct H as [H|H]; [discriminate H|]). exact H.
    + cbn. tauto.
    + reflexivity.
  - apply (proj1 (C8_standardizeState Go.NewAddressValidator "ny"
                    tables_of_New)).
    cbn. tauto.
Defined.

(** What the parser makes of "789 Main Street", in every iteration order. *)
Lemma go_parse_789 av :
  Go.tables_of av ->
  Go.parseAddress av (Go.cleanAddress "789 Main Street")
  = Ok (Some (Go.mkValidatedAddress "789" "Main Street" "" "" "" "" "" ""
                "")).
Proof.
  intros Hav. rewrite (parseAddress_tables av _ Hav). vm_compute.
  reflexivity.
Qed.

Lemma go_standardize_789 av :
  Go.tables_of av ->
  Go.standardizeAddress av
    (Some (Go.mkValidatedAddress "789" "Main Street" "" "" "" "" "" "" ""))
  = Some (Go.mkValidatedAddress "789" "Main Street" "" "" "" "" "" ""
            "789 Main Street").
Proof.
  intros (_ & HM & HS). unfold Go.standardizeAddress.
  cbn [Go.StreetName Go.City Go.State String.eqb negb Go.with_StreetName
       Go.StreetNumber Go.Unit Go.ZipCode Go.ZipPlus4 Go.County
       Go.FullAddress].
  unfold Go.standardizeStreetName.
  replace (Go.toTitleCase (TrimSpace "Main Street")) with "Main Street"
    by (vm_compute; reflexivity).
  rewrite (replace_words_noop _ _ "Main Street" HS)
    by (vm_compute; reflexivity).
  rewrite (replace_words_noop _ _ "Main Street" HM)
    by (vm_compute; reflexivity).
  reflexivity.
Qed.

(** C9 (as amended): the Go engine answers "unverifiable" to
    "789 Main Street", with no city, state or ZIP in the record, in every
    iteration order.  The TypeScript engine does not: it answers "valid"
    with confidence 0.6, state and ZIP being absent. *)
Theorem C9_partial_address (now : Z) (av : Go.AddressValidator) :
  Go.tables_of av ->
  (exists r v,
     Go.ValidateAndStandardize now av "789 Main Street" = Ok (r, None)
     /\ Go.Status r = "unverifiable"
     /\ Go.Validated r = Some v
     /\ Go.StreetNumber v = "789" /\ Go.StreetName v = "Main Street"
     /\ Go.City v = "" /\ Go.State v = "" /\ Go.ZipCode v = "")
  /\ (exists r v,
        TS.validateAddress "789 Main Street" = Ok r
        /\ TS.status r = "valid" /\ TS.confidence r = 0.6%float
        /\ TS.validated r = Some v
        /\ TS.state v = None /\ TS.zipCode v = None).
Proof.
  intros Hav. split.
  - unfold Go.ValidateAndStandardize, Go.pipeline.
    replace (Go.cleanAddress "789 Main Street" =? "")%string with false
      by (vm_compute; reflexivity).
    rewrite (go_parse_789 av Hav). cbn [bind].
    rewrite (go_standardize_789 av Hav).
    eexists. eexists. split; [reflexivity|]. repeat split.
  - eexists. eexists. split; [vm_compute; reflexivity|]. repeat split.
Qed.

Lemma C9_witness :
  exists r,
    Go.ValidateAndStandardize 0 Go.NewAddressValidator "789 Main Street"
    = Ok (r, None)
    /\ Go.Status r = "unverifiable".
Proof.
  destruct (proj1 (C9_partial_address 0 Go.NewAddressValidator tables_of_New))
    as (r & v & H & HS & _).
  exists r. split; assumption.
Defined.

(** C9 as stated fails in the scoring variant: a street number and a
    street name make a confidence of 0.6. *)
Lemma C9_counterexample :
  exists r,
    TS.validateAddress "789 Main Street" = Ok r
    /\ TS.status r = "valid" /\ TS.status r <> "unverifiable".
Proof.
  eexists. split; [vm_compute; reflexivity|].
  split; [reflexivity | discriminate].
Qed.

(** C10: in a record of the fallback parser, a state and a street name
    exclude each other, and the street name is set only when city and
    state are both empty.  When a token is recognised as a state, the
    record has that state and no street name; the first such token behind
    the street number is the state, in upper case, and the tokens in front
    of it are the city. *)
Theorem C10_fallback_state_or_street (av : Go.AddressValidator)
    (address : string) (r : Go.ValidatedAddress) :
  Go.tables_of av ->
  Go.parsePartialAddress av address = Ok (Some r) ->
  (Go.State r <> "" -> Go.StreetName r = "")
  /\ (Go.StreetName r <> "" -> Go.City r = "" /\ Go.State r = "")
  /\ (existsb (Go.isState av) (Fields address) = true ->
      Go.State r <> "" /\ Go.StreetName r = "")
  /\ (forall before tok after,
        remaining_parts address = before ++ tok :: after ->
        List.forallb (fun q => negb (Go.isState av q)) before = true ->
        Go.isState av tok = true ->
        Go.State r = ToUpper tok
        /\ Go.City r = match before with [] => "" | _ => Join before " " end).
Proof.
  intros Hav Hp.
  pose proof (parsePartialAddress_street av address r Hp) as Hstreet.
  split; [|split; [|split]].
  - intros HS. destruct Hstreet as [H | [_ H]]; [exact H | contradiction].
  - intros HN. destruct Hstreet as [H | H]; [contradiction | exact H].
  - intros H.
    assert (Hrem : existsb (Go.isState av) (remaining_parts address) = true).
    { unfold remaining_parts.
      destruct (Fields address) as [|first tail]; [discriminate H|].
      destruct (MatchString Go.re_leading_digits first) eqn:Ed; [|exact H].
      cbn [existsb] in H.
      rewrite (digit_token_not_state av first Hav Ed) in H. exact H. }
    destruct (existsb_split _ _ Hrem) as (before & tok & after & E & Hb & Ht).
    destruct (parsePartialAddress_state av address r before tok after Hav Hp
                E Hb Ht) as (_ & HS & HN & _).
    split; assumption.
  - intros before tok after E Hb Ht.
    destruct (parsePartialAddress_state av address r before tok after Hav Hp
                E Hb Ht) as (HS & _ & _ & HC).
    split; assumption.
Qed.

Lemma C10_witness :
  exists r,
    Go.parsePartialAddress Go.NewAddressValidator "12 Springfield IL 62701 x"
    = Ok (Some r)
    /\ Go.State r = "IL" /\ Go.City r = "Springfield"
    /\ Go.StreetName r = "".
Proof.
  eexists. split; [vm_compute; reflexivity|].
  pose proof (C10_fallback_state_or_street Go.NewAddressValidator
                "12 Springfield IL 62701 x" _ tables_of_New eq_refl)
    as (H1 & _ & _ & H4).
  destruct (H4 ["Springfield"] "IL" ["62701"; "x"] eq_refl eq_refl eq_refl)
    as (HS & HC).
  split; [exact HS|]. split; [exact HC|].
  apply H1. discriminate.
Defined.

(** ** The examples of the documentation and of the test suite *)

(** go/README.md: the valid address. *)
Example go_readme_valid :
  Go.ValidateAndStandardize 0 Go.NewAddressValidator
    "123 Main Street, New York, NY 10001"
  = Ok (Go.mkAddressResponse "valid" "123 Main Street, New York, NY 10001"
          (Some (Go.mkValidatedAddress "123" "Main Street" "" "New York" "NY"
                   "10001" "" "" "123 Main Street, New York, NY 10001"))
          "Address is valid and standardized" 0, None).
Proof. vm_compute. reflexivity. Qed.

(** The unit and the ZIP+4 extension. *)
Example go_unit_and_plus4 :
  option_map (fun r => option_map Go.FullAddress (Go.Validated (fst r)))
    (match Go.ValidateAndStandardize 0 Go.NewAddressValidator
             "123 Main St Apt 4B, Anytown, CA 12345-6789" with
     | Ok r => Some r
     | Panic _ => None
     end)
  = Some (Some "123 Main Street 4B, Anytown, CA 12345-6789").
Proof. vm_compute. reflexivity. Qed.

(** addressValidator.test.ts: 'expands direction abbreviations'. *)
Example ts_test_directions :
  TS.validateAddress "100 N Main St, Chicago, IL 60601"
  = Ok (TS.mkResult "corrected" 0.8%float "100 N Main St, Chicago, IL 60601"
          (Some (TS.mkValidatedAddress (Some "100")
                   (Some "North Main Street") (Some "Chicago")
                   (Some (TS.VStr "IL")) (Some "60601")
                   "100 North Main Street, Chicago, IL 60601"))
          (Some ["Direction abbreviations expanded";
                 "Street type abbreviation expanded"])).
Proof. vm_compute. reflexivity. Qed.

(** addressValidator.test.ts: 'handles partial addresses' and 'handles
    apartment numbers'. *)
Example ts_test_partial :
  TS.validateAddress "Main Street, Anytown"
  = Ok (TS.mkResult "valid" 0.4%float "Main Street, Anytown"
          (Some (TS.mkValidatedAddress None (Some "Main Street")
                   (Some "Anytown") None None "Main Street, Anytown"))
          None).
Proof. vm_compute. reflexivity. Qed.

Example ts_test_apartment :
  option_map TS.streetNumber
    (match TS.validateAddress "123A Oak Street, Springfield, IL 62701" with
     | Ok r => TS.validated r
     | Panic _ => None
     end)
  = Some (Some "123A").
Proof. vm_compute. reflexivity. Qed.

(** What the TypeScript engine makes of "789 Main Street": the last token
    is the city unless it is a street-type abbreviation. *)
Example ts_789_main_street :
  TS.validateAddress "789 Main Street"
  = Ok (TS.mkResult "valid" 0.6%float "789 Main Street"
          (Some (TS.mkValidatedAddress (Some "789") (Some "Main")
                   (Some "Street") None None "789 Main, Street"))
          None).
Proof. vm_compute. reflexivity. Qed.

(** A table lookup finds what an object inherits: "constructor" is a
    direction and "__proto__" a state; nothing throws. *)
Example ts_inherited_properties :
  TS.validateAddress "12 constructor st __proto__ 12345"
  = Ok (TS.mkResult "corrected" 0.6%float
          "12 constructor st __proto__ 12345"
          (Some (TS.mkValidatedAddress (Some "12")
                   (Some "Function Object() { [Native Code] } Street") None
                   (Some TS.VObjectPrototype) (Some "12345")
                   "12 Function Object() { [Native Code] } Street, [object Object] 12345"))
          (Some ["Direction abbreviations expanded";
                 "Street type abbreviation expanded"])).
Proof. vm_compute. reflexivity. Qed.

End Claims.

(** * Further properties of the code *)

Module Extras.
Import GoFacts IdemFacts ParserFacts ClassifierFacts TSFacts CleanerFacts.
Import MatchFacts PatternFacts FallbackFacts StateFacts WordFacts TidyFacts.
Import WordwiseFacts ResponseFacts TokenFacts ResultFacts.

(** ** The Go engine *)

(** X1: when one of the two patterns of [parseAddress] matches, the parser
    returns a record whose street number is digits, whose street name and
    city are not empty and hold no comma, whose unit holds no comma,
    whose state is two capital letters, whose ZIP is five digits and
    whose ZIP extension is empty or four digits ([well_formed]); the ZIP
    passes [isValidZipCode]. *)
Theorem X1_pattern_record (av : Go.AddressValidator) (address : string) :
  FindStringSubmatch Go.re_full 8 address <> None
  \/ FindStringSubmatch Go.re_simple 6 address <> None ->
  exists a,
    Go.parseAddress av address = Ok (Some a)
    /\ well_formed a = true
    /\ Go.isValidZipCode (Go.ZipCode a) = true.
Proof.
  intros H. unfold Go.parseAddress, Go.isValidZipCode.
  assert (Z : forall a, well_formed a = true ->
                Go.isZipCode (Go.ZipCode a) = true).
  { intros a W. apply five_digits_zip. unfold well_formed in W.
    repeat (apply andb_prop in W; destruct W as [W ?]). assumption. }
  destruct (FindStringSubmatch Go.re_full 8 address) as [m|] eqn:E1.
  - destruct (parseFullAddress_record _ _ E1) as (a & -> & W).
    exists a. auto.
  - destruct (FindStringSubmatch Go.re_simple 6 address) as [m|] eqn:E2.
    + destruct (parseSimpleAddress_record _ _ E2) as (a & -> & W).
      exists a. auto.
    + destruct H as [H|H]; contradiction.
Qed.

Lemma X1_witness :
  exists a,
    Go.parseAddress Go.NewAddressValidator
      "123 Main St Apt 4B, Anytown, ca 12345-6789" = Ok (Some a)
    /\ well_formed a = true
    /\ Go.isValidZipCode (Go.ZipCode a) = true.
Proof.
  apply X1_pattern_record. left. vm_compute. discriminate.
Defined.

(** X2: the second pattern of [parseAddress] never parses: a text that
    the first pattern does not match, the second does not match either,
    so that [parseAddress] is the first pattern and then the fallback
    parser. *)
Theorem X2_second_pattern_unused (av : Go.AddressValidator)
    (address : string) :
  (FindStringSubmatch Go.re_simple 6 address <> None ->
   FindStringSubmatch Go.re_full 8 address <> None)
  /\ Go.parseAddress av address
     = match FindStringSubmatch Go.re_full 8 address with
       | Some matches => Go.parseFullAddress matches
       | None => Go.parsePartialAddress av address
       end.
Proof.
  split.
  - intros H E. apply H. apply simple_needs_full. exact E.
  - unfold Go.parseAddress.
    destruct (FindStringSubmatch Go.re_full 8 address) eqn:E;
      [reflexivity|].
    rewrite (simple_needs_full _ E). reflexivity.
Qed.

(** X3: the engine answers "valid" only for an input whose cleaned text
    the first pattern matches; what the fallback parser returns is never
    valid. *)
Theorem X3_valid_only_by_pattern (now : Z) (av : Go.AddressValidator)
    (address : string) (r : Go.AddressResponse) :
  Go.ValidateAndStandardize now av address = Ok (r, None) ->
  Go.Status r = "valid" ->
  FindStringSubmatch Go.re_full 8 (Go.cleanAddress address) <> None.
Proof.
  intros H Hs E.
  destruct (response_cases now av address r H)
    as (_ & _ & [(_ & _ & Hu & _) | [(_ & _ & _ & Hu & _)
                | (p & a & _ & Hparse & Ha & _ & Hst & _)]]);
    try (rewrite Hu in Hs; discriminate Hs).
  unfold Go.parseAddress in Hparse.
  rewrite E, (simple_needs_full _ E) in Hparse.
  apply (missing_of_fallback av _ p a Hparse Ha).
  apply valid_no_complaint. rewrite <- Hst. exact Hs.
Qed.

Lemma X3_witness :
  FindStringSubmatch Go.re_full 8
    (Go.cleanAddress "123 Main Street, New York, NY 10001") <> None.
Proof.
  eapply (X3_valid_only_by_pattern 0 Go.NewAddressValidator
            "123 Main Street, New York, NY 10001");
    [vm_compute; reflexivity | reflexivity].
Defined.

(** X4: no response complains of the ZIP: the ZIP of the record in a
    response is empty or one that [isValidZipCode] accepts, so that
    "valid ZIP code" is never among the missing components. *)
Theorem X4_zip_never_invalid (now : Z) (av : Go.AddressValidator)
    (address : string) (r : Go.AddressResponse) (a : Go.ValidatedAddress) :
  Go.ValidateAndStandardize now av address = Ok (r, None) ->
  Go.Validated r = Some a ->
  (Go.ZipCode a = "" \/ Go.isValidZipCode (Go.ZipCode a) = true)
  /\ ~ In "valid ZIP code" (Go.missing_components av a).
Proof.
  intros H Ha.
  destruct (response_cases now av address r H)
    as (_ & _ & [(_ & Hn & _) | [(_ & _ & Hn & _)
                | (p & a' & _ & Hparse & Hstd & Hv & _)]]);
    try congruence.
  assert (a' = a) by congruence. subst a'.
  destruct (standardizeAddress_full av p a Hstd) as (_ & _ & _ & _ & Hz & _).
  assert (Z : Go.ZipCode a = "" \/ Go.isValidZipCode (Go.ZipCode a) = true)
    by (rewrite Hz; eapply parseAddress_zip; exact Hparse).
  split; [exact Z|].
  unfold Go.missing_components.
  destruct Z as [-> | ->]; cbn [String.eqb negb];
    repeat match goal with
           | |- context [if ?c then _ else _] => destruct c
           end;
    cbn; intuition discriminate.
Qed.

Lemma X4_witness :
  (Go.ZipCode
     (Go.mkValidatedAddress "" "" "" "Springfield" "IL" "62701" "" ""
        "Springfield, IL 62701") = ""
   \/ Go.isValidZipCode
        (Go.ZipCode
           (Go.mkValidatedAddress "" "" "" "Springfield" "IL" "62701" "" ""
              "Springfield, IL 62701")) = true)
  /\ ~ In "valid ZIP code"
         (Go.missing_components Go.NewAddressValidator
            (Go.mkValidatedAddress "" "" "" "Springfield" "IL" "62701" "" ""
               "Springfield, IL 62701")).
Proof.
  eapply (X4_zip_never_invalid 0 Go.NewAddressValidator
            "Springfield Illinois 62701");
    vm_compute; reflexivity.
Defined.

(** X5: a token that [isState] accepts (a code or the full name of a
    state, in any case) is stored in upper case by the fallback parser,
    and [standardizeState] turns it into a code that [isValidState]
    accepts, in any iteration order. *)
Theorem X5_state_token_resolves (av : Go.AddressValidator) (tok : string) :
  Go.tables_of av -> Go.isState av tok = true ->
  Go.isValidState av (Go.standardizeState av (ToUpper tok)) = true.
Proof. apply isState_resolves. Qed.

Lemma X5_witness :
  Go.isValidState Go.NewAddressValidator
    (Go.standardizeState Go.NewAddressValidator (ToUpper "Texas")) = true.
Proof.
  apply (X5_state_token_resolves Go.NewAddressValidator "Texas"
           tables_of_New).
  vm_compute. reflexivity.
Defined.

(** X6: a record of the fallback parser has no unit and no ZIP
    extension, and once standardized its state is empty or a code that
    [isValidState] accepts: "valid state" is not among its missing
    components. *)
Theorem X6_fallback_record (av : Go.AddressValidator) (address : string)
    (p a : Go.ValidatedAddress) :
  Go.tables_of av ->
  Go.parsePartialAddress av address = Ok (Some p) ->
  Go.standardizeAddress av (Some p) = Some a ->
  Go.Unit a = "" /\ Go.ZipPlus4 a = ""
  /\ (Go.State a = "" \/ Go.isValidState av (Go.State a) = true)
  /\ ~ In "valid state" (Go.missing_components av a).
Proof.
  intros Hav Hp Ha.
  destruct (parsePartialAddress_record av address p Hp)
    as (U & P4 & _ & _ & _ & S).
  assert (Hs : Go.State a = "" \/ Go.isValidState av (Go.State a) = true).
  { rewrite standardizeAddress_fields in Ha. injection Ha as <-.
    cbn [Go.State]. unfold std_field.
    destruct S as [-> | (tok & Ht & ->)]; [left; reflexivity|].
    destruct (ToUpper tok =? "")%string eqn:E; cbn [negb].
    - left. apply String.eqb_eq. exact E.
    - right. apply isState_resolves; assumption. }
  destruct (standardizeAddress_full av p a Ha) as (_ & _ & _ & Hu & _ & H4).
  split; [congruence|]. split; [congruence|]. split; [exact Hs|].
  unfold Go.missing_components.
  destruct Hs as [-> | ->]; cbn [String.eqb negb];
    repeat match goal with
           | |- context [if ?c then _ else _] => destruct c
           end;
    cbn; intuition discriminate.
Qed.

Lemma X6_witness :
  Go.Unit (Go.mkValidatedAddress "" "" "" "Austin" "TX" "" "" "" "Austin, TX")
  = ""
  /\ Go.ZipPlus4
       (Go.mkValidatedAddress "" "" "" "Austin" "TX" "" "" "" "Austin, TX")
     = ""
  /\ (Go.State
        (Go.mkValidatedAddress "" "" "" "Austin" "TX" "" "" "" "Austin, TX")
      = ""
      \/ Go.isValidState Go.NewAddressValidator
           (Go.State
              (Go.mkValidatedAddress "" "" "" "Austin" "TX" "" "" ""
                 "Austin, TX")) = true)
  /\ ~ In "valid state"
         (Go.missing_components Go.NewAddressValidator
            (Go.mkValidatedAddress "" "" "" "Austin" "TX" "" "" ""
               "Austin, TX")).
Proof.
  apply (X6_fallback_record Go.NewAddressValidator "austin texas"
           (Go.mkValidatedAddress "" "" "" "austin" "TEXAS" "" "" "" "")
           _ tables_of_New);
    vm_compute; reflexivity.
Defined.

(** X7: the Cleaner returns a tidy text as it is: a text of five to 500
    characters, all of them word characters, spaces or [- . # / ,], with
    single spaces only and none at either end. *)
Theorem X7_cleanAddress_tidy (address : string) :
  tidy address = true -> Go.cleanAddress address = address.
Proof. apply tidy_fixed. Qed.

Lemma X7_witness :
  Go.cleanAddress "123 Main St Apt 4B, Anytown, CA 12345-6789"
  = "123 Main St Apt 4B, Anytown, CA 12345-6789".
Proof.
  apply (X7_cleanAddress_tidy "123 Main St Apt 4B, Anytown, CA 12345-6789").
  vm_compute. reflexivity.
Defined.

(** X8: [standardizeStreetName], in any iteration order of the two
    tables: the text is trimmed and put in title case, and then every
    maximal run of word characters is looked up, without regard to case,
    among the street suffixes and the result among the misspellings
    ([step]); what stands between the runs stays. *)
Theorem X8_street_name_wordwise (av : Go.AddressValidator)
    (streetName : string) :
  Go.tables_of av ->
  Go.standardizeStreetName av streetName
  = map_words step (Go.toTitleCase (TrimSpace streetName)).
Proof. apply standardizeStreetName_wordwise. Qed.

Lemma X8_witness :
  Go.standardizeStreetName Go.NewAddressValidator " n. main-steet/blvd "
  = "N. Main-Street/Boulevard".
Proof.
  rewrite (X8_street_name_wordwise Go.NewAddressValidator
             " n. main-steet/blvd " tables_of_New).
  vm_compute. reflexivity.
Defined.

(** X9: the answer of the engine does not depend on the order in which
    Go iterates over its maps. *)
Theorem X9_order_independent (now : Z) (av1 av2 : Go.AddressValidator)
    (address : string) :
  Go.tables_of av1 -> Go.tables_of av2 ->
  Go.ValidateAndStandardize now av1 address
  = Go.ValidateAndStandardize now av2 address.
Proof.
  intros H1 H2.
  rewrite (ValidateAndStandardize_tables now av1 address H1).
  symmetry. apply ValidateAndStandardize_tables. exact H2.
Qed.

Lemma X9_witness :
  Go.ValidateAndStandardize 0 Go.NewAddressValidator
    "456 oak rd, new york, ny 10001"
  = Go.ValidateAndStandardize 0 reversed "456 oak rd, new york, ny 10001".
Proof.
  exact (X9_order_independent 0 Go.NewAddressValidator reversed
           "456 oak rd, new york, ny 10001" tables_of_New
           tables_of_reversed).
Defined.

(** X10: in every response with a record, the full address is what
    [buildFullAddress] makes of the other fields of that record, and the
    county is empty. *)
Theorem X10_full_address_of_fields (now : Z) (av : Go.AddressValidator)
    (address : string) (r : Go.AddressResponse) (a : Go.ValidatedAddress) :
  Go.ValidateAndStandardize now av address = Ok (r, None) ->
  Go.Validated r = Some a ->
  Go.FullAddress a = Go.buildFullAddress a /\ Go.County a = "".
Proof.
  intros H Ha.
  destruct (response_cases now av address r H)
    as (_ & _ & [(_ & Hn & _) | [(_ & _ & Hn & _)
                | (p & a' & _ & Hparse & Hstd & Hv & _)]]);
    try congruence.
  assert (a' = a) by congruence. subst a'.
  destruct (standardizeAddress_full av p a Hstd) as (Hf & Hc & _).
  split; [exact Hf|]. rewrite Hc. eapply parseAddress_county. exact Hparse.
Qed.

Lemma X10_witness :
  Go.FullAddress
    (Go.mkValidatedAddress "" "" "" "Springfield" "IL" "62701" "" ""
       "Springfield, IL 62701")
  = Go.buildFullAddress
      (Go.mkValidatedAddress "" "" "" "Springfield" "IL" "62701" "" ""
         "Springfield, IL 62701")
  /\ Go.County
       (Go.mkValidatedAddress "" "" "" "Springfield" "IL" "62701" "" ""
          "Springfield, IL 62701")
     = "".
Proof.
  eapply (X10_full_address_of_fields 0 Go.NewAddressValidator
            "Springfield Illinois 62701");
    vm_compute; reflexivity.
Defined.

(** X11: a response with the status "valid" carries a record with all
    five components, a state among the 51 codes, and the full address
    "number street[ unit], city, state zip[-extension]"
    ([complete_full]); its message is "Address is valid and
    standardized". *)
Theorem X11_valid_response (now : Z) (av : Go.AddressValidator)
    (address : string) (r : Go.AddressResponse) :
  Go.ValidateAndStandardize now av address = Ok (r, None) ->
  Go.Status r = "valid" ->
  exists a,
    Go.Validated r = Some a
    /\ Go.FullAddress a = complete_full a
    /\ Go.isValidState av (Go.State a) = true
    /\ Go.isValidZipCode (Go.ZipCode a) = true
    /\ Go.Message r = "Address is valid and standardized".
Proof.
  intros H Hs.
  destruct (response_cases now av address r H)
    as (_ & _ & [(_ & _ & Hu & _) | [(_ & _ & _ & Hu & _)
                | (p & a & _ & Hparse & Hstd & Hv & Hst & Hm)]]);
    try (rewrite Hu in Hs; discriminate Hs).
  rewrite Hst in Hs. pose proof (valid_no_complaint av a Hs) as Hnone.
  destruct (no_complaint_fields av a Hnone)
    as (N1 & N2 & N3 & N4 & N5 & Vs & Vz).
  exists a. split; [exact Hv|]. split.
  - rewrite (proj1 (standardizeAddress_full av p a Hstd)).
    apply buildFullAddress_complete; assumption.
  - split; [exact Vs|]. split; [exact Vz|].
    rewrite Hm. unfold Go.validateComponents. rewrite Hnone. reflexivity.
Qed.

Lemma X11_witness :
  exists a,
    Go.Validated
      (Go.mkAddressResponse "valid"
         "123 main st apt 4b, anytown, ca 12345-6789"
         (Some (Go.mkValidatedAddress "123" "Main Street" "4b" "Anytown" "CA"
                  "12345" "6789" ""
                  "123 Main Street 4b, Anytown, CA 12345-6789"))
         "Address is valid and standardized" 0) = Some a
    /\ Go.FullAddress a = complete_full a
    /\ Go.isValidState Go.NewAddressValidator (Go.State a) = true
    /\ Go.isValidZipCode (Go.ZipCode a) = true
    /\ Go.Message
         (Go.mkAddressResponse "valid"
            "123 main st apt 4b, anytown, ca 12345-6789"
            (Some (Go.mkValidatedAddress "123" "Main Street" "4b" "Anytown"
                     "CA" "12345" "6789" ""
                     "123 Main Street 4b, Anytown, CA 12345-6789"))
            "Address is valid and standardized" 0)
       = "Address is valid and standardized".
Proof.
  apply (X11_valid_response 0 Go.NewAddressValidator
           "123 main st apt 4b, anytown, ca 12345-6789");
    vm_compute; reflexivity.
Defined.

(** X12: the engine answers "Unable to parse address components" exactly
    when the cleaned text is not empty and is a single word (one field
    between white space). *)
Theorem X12_unparsed_is_one_word (now : Z) (av : Go.AddressValidator)
    (address : string) (r : Go.AddressResponse) :
  Go.ValidateAndStandardize now av address = Ok (r, None) ->
  (Go.Message r = "Unable to parse address components"
   <-> Go.cleanAddress address <> ""
       /\ List.length (Fields (Go.cleanAddress address)) = 1).
Proof.
  intros H.
  pose proof (parseAddress_none av (Go.cleanAddress address)
                (cleanAddress_ascii address)) as Hnone.
  destruct (response_cases now av address r H)
    as (_ & _ & [(Hc & _ & _ & Hm) | [(Hc & Hp & _ & _ & Hm)
                | (p & a & Hc & Hparse & _ & _ & _ & Hm)]]).
  - rewrite Hm. split; [discriminate|]. intros [Hne _]. contradiction.
  - rewrite Hm. split; [|reflexivity]. intros _. split; [exact Hc|].
    apply Hnone in Hp. pose proof (cleaned_has_field address Hc). lia.
  - split.
    + rewrite Hm. unfold Go.validateComponents.
      destruct (2 <? _)%nat; [discriminate|].
      destruct (0 <? _)%nat; discriminate.
    + intros [_ H1].
      assert (E : Go.parseAddress av (Go.cleanAddress address) = Ok None)
        by (apply Hnone; lia).
      congruence.
Qed.

Lemma X12_witness :
  Go.Message
    (Go.mkAddressResponse "unverifiable" "Broadway!" None
       "Unable to parse address components" 0)
  = "Unable to parse address components"
  <-> Go.cleanAddress "Broadway!" <> ""
      /\ List.length (Fields (Go.cleanAddress "Broadway!")) = 1.
Proof.
  apply (X12_unparsed_is_one_word 0 Go.NewAddressValidator "Broadway!").
  vm_compute. reflexivity.
Defined.

(** ** The Go server *)

(** X13: [handleValidateAddress] never fails and never answers 500: it
    answers 405 to a method other than POST, 400 to a body that does not
    decode or whose address is empty, and otherwise 200 with the response
    of the engine for the address, as JSON. *)
Theorem X13_handler_answers (now : Z) (validator : Go.AddressValidator)
    (r : GoServer.Request) :
  exists calls,
    GoServer.handleValidateAddress now validator r = Ok calls
    /\ GoServer.status_code calls <> 500
    /\ GoServer.status_code calls
       = (if negb (GoServer.Method r =? "POST")%string then 405
          else match GoServer.Decoded r with
               | None => 400
               | Some req =>
                   if (GoServer.Address req =? "")%string then 400 else 200
               end)
    /\ (GoServer.status_code calls = 200 ->
        exists req response,
          GoServer.Decoded r = Some req
          /\ Go.ValidateAndStandardize now validator (GoServer.Address req)
             = Ok (response, None)
          /\ calls = [ GoServer.HeaderSet "Content-Type" "application/json";
                       GoServer.Encode (GoServer.Response response) ]).
Proof.
  unfold GoServer.handleValidateAddress, GoServer.MethodPost.
  destruct (GoServer.Method r =? "POST")%string; cbn [negb].
  2:{ eexists. split; [reflexivity|]. cbn. repeat split; try discriminate. }
  destruct (GoServer.Decoded r) as [req|].
  2:{ eexists. split; [reflexivity|]. cbn. repeat split; try discriminate. }
  destruct (GoServer.Address req =? "")%string.
  { eexists. split; [reflexivity|]. cbn. repeat split; try discriminate. }
  destruct (ValidateAndStandardize_ok now validator (GoServer.Address req))
    as (response & E).
  rewrite E. cbn [bind]. eexists. split; [reflexivity|]. cbn.
  split; [discriminate|]. split; [reflexivity|].
  intros _. exists req, response. auto.
Qed.

(** X14: in the JSON of a response of the engine the message is never
    left out: the members are status, original_address, validated_address
    when there is a record, message and processed_at; the record never
    has a member county. *)
Theorem X14_response_json (now : Z) (av : Go.AddressValidator)
    (address : string) (r : Go.AddressResponse) :
  Go.ValidateAndStandardize now av address = Ok (r, None) ->
  GoServer.members (GoServer.encodeAddressResponse r)
  = match Go.Validated r with
    | Some _ => [ "status"; "original_address"; "validated_address";
                  "message"; "processed_at" ]
    | None => [ "status"; "original_address"; "message"; "processed_at" ]
    end
  /\ forall a, Go.Validated r = Some a ->
       ~ In "county" (GoServer.members (GoServer.encodeValidatedAddress a)).
Proof.
  intros H.
  assert (Hm : Go.Message r <> "").
  { destruct (response_cases now av address r H)
      as (_ & _ & [(_ & _ & _ & ->) | [(_ & _ & _ & _ & ->)
                  | (p & a & _ & _ & _ & _ & _ & ->)]]);
      [discriminate | discriminate | apply message_nonempty]. }
  split.
  - unfold GoServer.encodeAddressResponse, GoServer.members,
      GoServer.omitempty.
    destruct (Go.Message r) as [|c m]; [contradiction|].
    destruct (Go.Validated r); reflexivity.
  - intros a Ha.
    assert (Hc : Go.County a = "").
    { destruct (response_cases now av address r H)
        as (_ & _ & [(_ & Hn & _) | [(_ & _ & Hn & _)
                    | (p & a' & _ & Hparse & Hstd & Hv & _)]]);
        try congruence.
      assert (a' = a) by congruence. subst a'.
      rewrite (proj1 (proj2 (standardizeAddress_full av p a Hstd))).
      eapply parseAddress_county. exact Hparse. }
    unfold GoServer.encodeValidatedAddress, GoServer.members,
      GoServer.omitempty. rewrite Hc. cbn [is_empty].
    repeat match goal with
           | |- context [if ?c then _ else _] => destruct c
           end;
      cbn; intuition discriminate.
Qed.

Lemma X14_witness :
  GoServer.members
    (GoServer.encodeAddressResponse
       (Go.mkAddressResponse "corrected" "Springfield Illinois 62701"
          (Some (Go.mkValidatedAddress "" "" "" "Springfield" "IL" "62701"
                   "" "" "Springfield, IL 62701"))
          "Address standardized but missing: street number, street name"
          0))
  = [ "status"; "original_address"; "validated_address"; "message";
      "processed_at" ]
  /\ GoServer.members
       (GoServer.encodeValidatedAddress
          (Go.mkValidatedAddress "" "" "" "Springfield" "IL" "62701" "" ""
             "Springfield, IL 62701"))
     = [ "city"; "state"; "zip_code"; "full_address" ].
Proof.
  split.
  - apply (X14_response_json 0 Go.NewAddressValidator
             "Springfield Illinois 62701"
             (Go.mkAddressResponse "corrected" "Springfield Illinois 62701"
                (Some (Go.mkValidatedAddress "" "" "" "Springfield" "IL"
                         "62701" "" "" "Springfield, IL 62701"))
                "Address standardized but missing: street number, street name"
                0)).
    vm_compute. reflexivity.
  - reflexivity.
Defined.

(** ** The TypeScript engine *)

(** X15: every token of the input is a text of one character or more
    that holds no white space of JavaScript, be it of one byte or of
    several, no comma, no period and no capital letter from A to Z. *)
Theorem X15_tokens (address t : string) :
  In t (TS.tokens address) ->
  t <> "" /\ no_white t = true /\ Str.forallb token_char t = true.
Proof. apply tokens_chars. Qed.

Lemma X15_witness :
  "main" <> "" /\ no_white "main" = true
  /\ Str.forallb token_char "main" = true.
Proof.
  apply (X15_tokens
           ("12" ++ String (b 194) (String (b 160) "Main St., Anytown,CA "))
           "main").
  vm_compute. tauto.
Defined.

(** A no-break space (U+00A0, the bytes 194 and 160) parts tokens as any
    white space does, and so does an ideographic space (U+3000) at the
    end, which [trim] takes away. *)
Example tokens_no_break_space :
  TS.tokens ("12" ++ String (b 194) (String (b 160) "Main St"))
  = ["12"; "main"; "st"]
  /\ TS.trim ("Oak Rd" ++ String (b 227) (String (b 128) (String (b 128) "")))
     = "Oak Rd".
Proof. split; vm_compute; reflexivity. Qed.

(** X16: the state of a result is absent, or one of the 51 codes, or not
    a string at all: for the token "constructor" the function that the
    table inherits under that name, and for the token "__proto__" the
    prototype of the table. *)
Theorem X16_state_of_result (address : string)
    (r : TS.AddressValidationResult) (v : TS.ValidatedAddress) :
  TS.validateAddress address = Ok r -> TS.validated r = Some v ->
  match TS.state v with
  | None => True
  | Some (TS.VStr c) => In c (TS.values TS.stateAbbreviations)
  | Some (TS.VNative n) =>
      n = "Object" /\ In "constructor" (TS.tokens address)
  | Some TS.VObjectPrototype => In "__proto__" (TS.tokens address)
  end.
Proof.
  intros H Hv.
  destruct (validateAddress_cases address) as [(_ & E) | (Hne & _)].
  { rewrite E in H. injection H as <-. discriminate Hv. }
  destruct (validateAddress_steps address r H Hne)
    as (zip & p1 & st & p2 & num & p3 & name & cty & v' & Hz & Hs & _ & _
        & Hv' & _ & Hst & _).
  assert (v' = v) by congruence. subst v'. rewrite Hst.
  destruct st as [s|]; [|exact I].
  pose proof (extractState_loop_state p1 _ s p2 Hs) as Hfrom.
  assert (Htok : forall k, In k (List.map TS.toLowerCase p1) ->
                   In k (TS.tokens address)).
  { intros k Hk. apply in_map_iff in Hk. destruct Hk as (t & <- & Ht).
    apply (extractZipCode_loop_incl _ _ _ _ Hz) in Ht.
    rewrite (token_lower address t Ht). exact Ht. }
  destruct s as [c|n|]; cbn [state_from] in Hfrom.
  - exact Hfrom.
  - destruct Hfrom as [Hn Hin]. split; [exact Hn | apply Htok; exact Hin].
  - apply Htok. exact Hfrom.
Qed.

Lemma X16_witness : In "CA" (TS.values TS.stateAbbreviations).
Proof.
  eapply (X16_state_of_result "789 Pine Ave, Los Angeles, California 90210"
            _ (TS.mkValidatedAddress (Some "789") (Some "Pine Ave Los")
                 (Some "Angeles") (Some (TS.VStr "CA")) (Some "90210")
                 "789 Pine Ave Los, Angeles, CA 90210"));
    vm_compute; reflexivity.
Defined.

(** X17: a ZIP code in a result is five digits, or five digits, a hyphen
    and four digits: one that [isZipCode] of the Go engine accepts. *)
Theorem X17_zip_of_result (address : string)
    (r : TS.AddressValidationResult) (v : TS.ValidatedAddress) (z : string) :
  TS.validateAddress address = Ok r -> TS.validated r = Some v ->
  TS.zipCode v = Some z -> Go.isZipCode z = true.
Proof.
  intros H Hv Hz.
  destruct (validateAddress_cases address) as [(_ & E) | (Hne & _)].
  { rewrite E in H. injection H as <-. discriminate Hv. }
  destruct (validateAddress_steps address r H Hne)
    as (zip & p1 & st & p2 & num & p3 & name & cty & v' & Ez & _ & _ & _
        & Hv' & Hzip & _).
  assert (v' = v) by congruence. subst v'.
  rewrite Hz in Hzip. subst zip.
  eapply extractZipCode_loop_zip. exact Ez.
Qed.

Lemma X17_witness : Go.isZipCode "67890" = true.
Proof.
  eapply (X17_zip_of_result "1 Elm St x12345-67890"
            _ (TS.mkValidatedAddress (Some "1") (Some "Elm Street") None None
                 (Some "67890") "1 Elm Street, 67890"));
    vm_compute; reflexivity.
Defined.

(** X18: a street number in a result is digits, with or without one
    capital letter behind them. *)
Theorem X18_number_of_result (address : string)
    (r : TS.AddressValidationResult) (v : TS.ValidatedAddress) (n : string) :
  TS.validateAddress address = Ok r -> TS.validated r = Some v ->
  TS.streetNumber v = Some n -> number_text n.
Proof.
  intros H Hv Hn.
  destruct (validateAddress_cases address) as [(_ & E) | (Hne & _)].
  { rewrite E in H. injection H as <-. discriminate Hv. }
  destruct (validateAddress_steps address r H Hne)
    as (zip & p1 & st & p2 & num & p3 & name & cty & v' & _ & _ & En & _
        & Hv' & _ & _ & Hnum & _).
  assert (v' = v) by congruence. subst v'.
  rewrite Hn in Hnum. subst num.
  eapply extractStreetNumber_number. exact En.
Qed.

Lemma X18_witness : number_text "123A".
Proof.
  eapply (X18_number_of_result "123a Oak Street, Springfield, IL 62701"
            _ (TS.mkValidatedAddress (Some "123A") (Some "Oak Street")
                 (Some "Springfield") (Some (TS.VStr "IL")) (Some "62701")
                 "123A Oak Street, Springfield, IL 62701"));
    vm_compute; reflexivity.
Defined.

(** X19: [validateAddress] returns for every input; the confidence is 0
    when there is no record, and otherwise lies between 0.1 and 0.9, and
    is at most 0.85 when the status is "corrected". *)
Theorem X19_confidence_range (address : string) :
  exists r,
    TS.validateAddress address = Ok r
    /\ ((TS.validated r = None /\ TS.confidence r = 0.0%float)
        \/ (TS.validated r <> None
            /\ PrimFloat.leb 0.1%float (TS.confidence r) = true
            /\ PrimFloat.leb (TS.confidence r) 0.9%float = true
            /\ (TS.status r = "corrected" ->
                PrimFloat.leb (TS.confidence r) 0.85%float = true))).
Proof.
  destruct (validateAddress_cases address)
    as [(_ & E) | (_ & r & v & E & Hv & _ & Hn & Hs & Hc)].
  - eexists. split; [exact E|]. left. split; reflexivity.
  - exists r. split; [exact E|]. right.
    destruct (rounded_range (without_formatted v) (notes r) Hn)
      as (L1 & L2 & L3).
    rewrite Hc. split; [congruence|]. split; [exact L1|].
    split; [exact L2|].
    intros Hst. apply L3. rewrite Hs in Hst.
    eapply corrected_noted. exact Hst.
Qed.

(** X20: on ASCII text [validateAddress] takes no notice of the case of
    the letters: the input in capital letters gives the same result,
    [original] apart. *)
Theorem X20_case_insensitive (address : string) :
  Str.forallb is_ascii address = true ->
  exists r,
    TS.validateAddress address = Ok r
    /\ TS.validateAddress (TS.toUpperCase address)
       = Ok (with_original (TS.toUpperCase address) r).
Proof.
  intros _.
  destruct (validateAddress_cases address)
    as [(_ & E) | (_ & r & v & E & _)].
  - eexists. split; [exact E|].
    apply (validateAddress_original address); [|exact E].
    symmetry. apply tokens_upper.
  - exists r. split; [exact E|].
    apply (validateAddress_original address); [|exact E].
    symmetry. apply tokens_upper.
Qed.

Lemma X20_witness :
  exists r,
    TS.validateAddress "12 Oak st, Austin, tx 78701" = Ok r
    /\ TS.validateAddress (TS.toUpperCase "12 Oak st, Austin, tx 78701")
       = Ok (with_original (TS.toUpperCase "12 Oak st, Austin, tx 78701") r).
Proof.
  apply (X20_case_insensitive "12 Oak st, Austin, tx 78701").
  vm_compute. reflexivity.
Defined.

(** ** The TypeScript server *)

(** X21: the handler of POST /validate-address never answers 500: it
    answers 400 to the empty address, and otherwise 200 with the result
    of [validateAddress] for the address as it was sent, except that
    [original] is the trimmed address. *)
Theorem X21_handler_answers (address : string) :
  (address = "" ->
   TSServer.postValidateAddress address
   = TSServer.mkReply 400
       (TSServer.Failure "Bad Request"
          "Address field is required and must be a string"))
  /\ (address <> "" ->
      exists r,
        TS.validateAddress address = Ok r
        /\ TSServer.postValidateAddress address
           = TSServer.mkReply 200
               (TSServer.Result (with_original (TS.trim address) r))).
Proof.
  split.
  - intros ->. reflexivity.
  - intros Hne. unfold TSServer.postValidateAddress.
    destruct address as [|c s]; [contradiction|]. cbn [is_empty].
    assert (E : exists r, TS.validateAddress (String c s) = Ok r).
    { destruct (validateAddress_cases (String c s))
        as [(_ & E) | (_ & r & v & E & _)]; eauto. }
    destruct E as (r & E). exists r. split; [exact E|].
    rewrite (validateAddress_original (String c s) (TS.trim (String c s)) r
               (eq_sym (tokens_trim (String c s))) E).
    reflexivity.
Qed.

End Extras.
